(** * P3DSession: the controller side of a p3dpython worker process

    A shallow embedding of [direct/src/plugin/p3dSession.cxx].  A session
    owns one child process running Python, the two halves of the pipe to
    it, a queue of commands that were issued before the child existed, the
    registry of instances running in the child, and the thread that reads
    the child's requests.

    The member functions are written in a small state-and-abort monad over
    a [World]: the session object itself, the [P3DInstance] objects it
    points to, the heap of [TiXmlDocument]s, and the trace of everything
    the code does to the outside (stream operations, [cerr], lock macros,
    Win32 calls).  What the operating system answers is an explicit
    argument of the function that asks. *)

From Stdlib Require Import Ascii String.
From stdpp Require Import base strings list gmap fin_maps sorting pretty.

Open Scope Z_scope.

(** ** Addresses and handles *)

Abbreviation DocPtr := positive.
Abbreviation InstPtr := positive.
Abbreviation SessionPtr := positive.
Abbreviation HANDLE := positive.

(** ** TinyXML documents *)

#[warnings="-register-all"] Inductive TiXmlNode :=
  | TiXmlDeclaration (version encoding standalone : string)
  | TiXmlElement (value : string) (attributes : list (string * string))
      (children : list TiXmlNode).

Record TiXmlDocument := { doc_children : list TiXmlNode }.

(** [TiXmlElement::SetAttribute(name, value)]: replace the attribute of
    that name if there is one, else add it after the others. *)
Fixpoint set_attribute (name value : string) (attrs : list (string * string))
  : list (string * string) :=
  match attrs with
  | [] => [(name, value)]
  | (n, v) :: rest =>
      if decide (n = name) then (n, value) :: rest
      else (n, v) :: set_attribute name value rest
  end.

Definition SetAttribute (name value : string) (x : TiXmlNode) : TiXmlNode :=
  match x with
  | TiXmlElement tag attrs kids => TiXmlElement tag (set_attribute name value attrs) kids
  | TiXmlDeclaration _ _ _ => x
  end.

(** The overload taking an [int] prints it in decimal. *)
Definition SetAttribute_int (name : string) (value : Z) (x : TiXmlNode) : TiXmlNode :=
  SetAttribute name (pretty value) x.

Definition LinkEndChild (child : TiXmlNode) (x : TiXmlNode) : TiXmlNode :=
  match x with
  | TiXmlElement tag attrs kids => TiXmlElement tag attrs (kids ++ [child])
  | TiXmlDeclaration _ _ _ => x
  end.

Definition doc_LinkEndChild (child : TiXmlNode) (d : TiXmlDocument) : TiXmlDocument :=
  {| doc_children := doc_children d ++ [child] |}.

Fixpoint find_attribute (name : string) (attrs : list (string * string))
  : option string :=
  match attrs with
  | [] => None
  | (n, v) :: rest => if decide (n = name) then Some v else find_attribute name rest
  end.

(** [TiXmlElement::Attribute(name)]. *)
Definition Attribute (name : string) (x : TiXmlNode) : option string :=
  match x with
  | TiXmlElement _ attrs _ => find_attribute name attrs
  | TiXmlDeclaration _ _ _ => None
  end.

(** ** Collaborators declared in other files *)

(** Modelled from the spec: the enumeration is declared in p3dSession.h.
    This file names [PS_init] and [PS_running]; the specification has a
    third state, Terminated, which no function here assigns. *)
Inductive PythonState := PS_init | PS_running | PS_done.

#[global] Instance PythonState_eq_dec : EqDecision PythonState.
Proof. solve_decision. Defined.

(** Modelled from the spec: the request types are declared in
    p3d_plugin.h.  This file names [P3D_RT_stop]; any other enumerator
    stands here by its number. *)
Inductive P3D_request_type :=
  | P3D_RT_stop
  | P3D_RT_other (code : Z).

Record P3D_request := {
  _instance : InstPtr;
  _request_type : P3D_request_type;
}.

(** Modelled from the spec: P3DFileDownload is declared in another
    file; here it is what this file gives it, a URL and a file name. *)
Record P3DFileDownload := {
  dl_url : string;
  dl_filename : string;
}.

(** Modelled from the spec: P3DInstance is declared in p3dInstance.h.
    An instance has a session key, a runtime version, an identifier, its
    tokens, a description it serializes to, and the back-reference
    [_session] to the session it is attached to (NULL when unattached). *)
Record P3DInstance := {
  inst_session_key : string;
  inst_python_version : string;
  inst_instance_id : Z;
  inst_tokens : gmap string string;
  inst_xml : TiXmlNode;
  _session : option SessionPtr;
}.

Definition get_session_key (i : P3DInstance) : string := inst_session_key i.
Definition get_python_version (i : P3DInstance) : string := inst_python_version i.
Definition get_instance_id (i : P3DInstance) : Z := inst_instance_id i.
Definition make_xml (i : P3DInstance) : TiXmlNode := inst_xml i.
Definition lookup_token (i : P3DInstance) (keyword : string) : string :=
  default "" (inst_tokens i !! keyword).

Definition set_inst_session (v : option SessionPtr) (i : P3DInstance) : P3DInstance :=
  {| inst_session_key := inst_session_key i;
     inst_python_version := inst_python_version i;
     inst_instance_id := inst_instance_id i;
     inst_tokens := inst_tokens i;
     inst_xml := inst_xml i;
     _session := v |}.

Definition is_some {A} (o : option A) : bool :=
  match o with Some _ => true | None => false end.

(** ** Win32 *)

(** Modelled from the spec: the Win32 structures and calls this file
    uses, each call with the arguments that matter here and with what
    the system answered. *)

Record PROCESS_INFORMATION := {
  hProcess : HANDLE;
  hThread : HANDLE;
  dwProcessId : Z;
}.

Record STARTUPINFO := {
  hStdError : option HANDLE;
  hStdOutput : option HANDLE;
  hStdInput : option HANDLE;
  wShowWindow_hidden : bool;
}.

(** The time [WaitForSingleObject] is told to wait. *)
Inductive WaitLimit := Millis (ms : Z) | INFINITE.

Inductive Syscall :=
  | CreatePipe (ok : bool)
  | SetHandleInformation (h : HANDLE) (inherit : bool)
  | GetStdHandle_error
  | CreateFile (name : string) (ok : bool)
  | SetErrorMode (mode : Z)
  | CreateProcess (app env cwd : string) (si : STARTUPINFO) (ok : bool)
  | CloseHandle (h : option HANDLE)
  | WaitForSingleObject (h : HANDLE) (t : WaitLimit) (timed_out : bool)
  | TerminateProcess (h : HANDLE) (exit_code : Z)
  | CreateThread (h : option HANDLE).

(** What one [_pipe_read >> doc] yields. *)
Inductive ReadOutcome :=
  | ReadDoc (d : TiXmlDocument)
  | ReadFail
  | ReadEof.

(** Where the read thread is when the controller waits for it in
    [join_read_thread].  It may be inside a read: the controller has
    closed its end of the pipe by then, and the child may have closed
    the other, so that read fails or hits the end of the stream.  Or
    nothing is pending: the thread has returned already, or it is at
    the head of its loop and finds [_read_thread_continue] cleared.  A
    read that still yields a document is a turn of the thread before
    the controller's call. *)
Inductive PendingRead :=
  | NothingPending
  | PendingFail
  | PendingEof.

Definition pending_outcome (p : PendingRead) : option ReadOutcome :=
  match p with
  | NothingPending => None
  | PendingFail => Some ReadFail
  | PendingEof => Some ReadEof
  end.

(** What the operating system answers to the calls of this file, and
    what the thread it schedules beside the controller is doing when
    the controller waits for it. *)
Record OS := {
  os_environ : gmap string string;
  os_pipe_to : option (HANDLE * HANDLE);
  os_pipe_from : option (HANDLE * HANDLE);
  os_std_error : HANDLE;
  os_create_file : option HANDLE;
  os_create_process : option PROCESS_INFORMATION;
  os_create_thread : option HANDLE;
  os_wait_timed_out : bool;
  os_set_filename : bool;
  os_pending_read : PendingRead;
}.

Definition getenv (os : OS) (name : string) : option string := os_environ os !! name.

(** Modelled from the spec: HandleStream is declared in another file.
    A stream holds the handle it was opened on and the state bits the
    code tests; opening it on a handle that [CreatePipe] never set
    leaves it failed. *)
Record HandleStream := {
  hs_handle : option HANDLE;
  hs_good : bool;
  hs_eof : bool;
}.

Definition hs_unopened : HandleStream :=
  {| hs_handle := None; hs_good := true; hs_eof := false |}.
Definition hs_open (h : option HANDLE) : HandleStream :=
  {| hs_handle := h; hs_good := is_some h; hs_eof := false |}.
Definition hs_close (s : HandleStream) : HandleStream :=
  {| hs_handle := None; hs_good := hs_good s; hs_eof := hs_eof s |}.
Definition hs_after_read (r : ReadOutcome) (s : HandleStream) : HandleStream :=
  match r with
  | ReadDoc _ => s
  | ReadFail => {| hs_handle := hs_handle s; hs_good := false; hs_eof := hs_eof s |}
  | ReadEof => {| hs_handle := hs_handle s; hs_good := hs_good s; hs_eof := true |}
  end.

(** ** The trace of effects *)

Inductive Event :=
  | EvCerr (s : string)
  | EvCerrDoc (d : TiXmlDocument)
  | EvInitLock
  | EvDestroyLock
  | EvAcquireLock
  | EvReleaseLock
  | EvPipeWrite (d : TiXmlDocument)
  | EvPipeFlush
  | EvPipeWriteClose
  | EvPipeReadClose
  | EvPipeOpenRead (h : option HANDLE)
  | EvPipeOpenWrite (h : option HANDLE)
  | EvPipeRead (r : ReadOutcome)
  | EvNew (p : DocPtr)
  | EvDelete (p : DocPtr)
  | EvStartDownload (inst : InstPtr) (d : P3DFileDownload)
  | EvAddRequest (inst : InstPtr) (r : P3D_request)
  | EvSys (c : Syscall).

(** ** The session object and the world around it *)

Record P3DSession := {
  _session_key : string;
  _python_version : string;
  _python_root_dir : string;
  _output_filename : string;
  _python_state : PythonState;
  _started_read_thread : bool;
  _read_thread_continue : bool;
  _instances : gmap Z InstPtr;
  _commands : list DocPtr;
  _pipe_read : HandleStream;
  _pipe_write : HandleStream;
  _p3dpython : option PROCESS_INFORMATION;
  _read_thread : option HANDLE;
}.

Record World := {
  session : P3DSession;
  instances : gmap InstPtr P3DInstance;
  docs : gmap DocPtr TiXmlDocument;
  trace : list Event;
}.

(** How a computation ends: it returns a value in a world, or the
    program stops (a failed [assert], undefined behaviour) in the world
    it had reached. *)
Inductive Res (A : Type) :=
  | Ok (a : A) (w : World)
  | Abort (why : string) (w : World).
Arguments Ok {A} a w.
Arguments Abort {A} why w.

Definition M (A : Type) : Type := World → Res A.

Definition ret {A} (a : A) : M A := λ w, Ok a w.
Definition bind {A B} (m : M A) (k : A → M B) : M B :=
  λ w, match m w with
       | Ok a w' => k a w'
       | Abort why w' => Abort why w'
       end.
Definition abort {A} (why : string) : M A := λ w, Abort why w.

Declare Scope session_scope.
Delimit Scope session_scope with M.
Notation "x <- m ;; k" := (bind m (λ x, k))
  (at level 100, m at next level, right associativity) : session_scope.
Notation "m ;;; k" := (bind m (λ _, k))
  (at level 100, right associativity) : session_scope.
Open Scope session_scope.

Definition nl : string := String "010"%char "".

Definition emit (e : Event) : M unit :=
  λ w, Ok tt {| session := session w; instances := instances w;
                docs := docs w; trace := trace w ++ [e] |}.

Definition cerr (s : string) : M unit := emit (EvCerr s).
Definition sys (c : Syscall) : M unit := emit (EvSys c).

Definition get_session : M P3DSession := λ w, Ok (session w) w.
Definition modify_session (f : P3DSession → P3DSession) : M unit :=
  λ w, Ok tt {| session := f (session w); instances := instances w;
                docs := docs w; trace := trace w |}.

Definition assert (b : bool) : M unit :=
  if b then ret tt else abort "assertion failed".

(** ** Field updates of the session object *)

Definition set_python_state (v : PythonState) (s : P3DSession) : P3DSession :=
  {| _session_key := _session_key s; _python_version := _python_version s;
     _python_root_dir := _python_root_dir s; _output_filename := _output_filename s;
     _python_state := v;
     _started_read_thread := _started_read_thread s;
     _read_thread_continue := _read_thread_continue s;
     _instances := _instances s; _commands := _commands s;
     _pipe_read := _pipe_read s; _pipe_write := _pipe_write s;
     _p3dpython := _p3dpython s; _read_thread := _read_thread s |}.

Definition set_started_read_thread (v : bool) (s : P3DSession) : P3DSession :=
  {| _session_key := _session_key s; _python_version := _python_version s;
     _python_root_dir := _python_root_dir s; _output_filename := _output_filename s;
     _python_state := _python_state s;
     _started_read_thread := v;
     _read_thread_continue := _read_thread_continue s;
     _instances := _instances s; _commands := _commands s;
     _pipe_read := _pipe_read s; _pipe_write := _pipe_write s;
     _p3dpython := _p3dpython s; _read_thread := _read_thread s |}.

Definition set_read_thread_continue (v : bool) (s : P3DSession) : P3DSession :=
  {| _session_key := _session_key s; _python_version := _python_version s;
     _python_root_dir := _python_root_dir s; _output_filename := _output_filename s;
     _python_state := _python_state s;
     _started_read_thread := _started_read_thread s;
     _read_thread_continue := v;
     _instances := _instances s; _commands := _commands s;
     _pipe_read := _pipe_read s; _pipe_write := _pipe_write s;
     _p3dpython := _p3dpython s; _read_thread := _read_thread s |}.

Definition set_instances (v : gmap Z InstPtr) (s : P3DSession) : P3DSession :=
  {| _session_key := _session_key s; _python_version := _python_version s;
     _python_root_dir := _python_root_dir s; _output_filename := _output_filename s;
     _python_state := _python_state s;
     _started_read_thread := _started_read_thread s;
     _read_thread_continue := _read_thread_continue s;
     _instances := v; _commands := _commands s;
     _pipe_read := _pipe_read s; _pipe_write := _pipe_write s;
     _p3dpython := _p3dpython s; _read_thread := _read_thread s |}.

Definition set_commands (v : list DocPtr) (s : P3DSession) : P3DSession :=
  {| _session_key := _session_key s; _python_version := _python_version s;
     _python_root_dir := _python_root_dir s; _output_filename := _output_filename s;
     _python_state := _python_state s;
     _started_read_thread := _started_read_thread s;
     _read_thread_continue := _read_thread_continue s;
     _instances := _instances s; _commands := v;
     _pipe_read := _pipe_read s; _pipe_write := _pipe_write s;
     _p3dpython := _p3dpython s; _read_thread := _read_thread s |}.

Definition set_pipe_read (v : HandleStream) (s : P3DSession) : P3DSession :=
  {| _session_key := _session_key s; _python_version := _python_version s;
     _python_root_dir := _python_root_dir s; _output_filename := _output_filename s;
     _python_state := _python_state s;
     _started_read_thread := _started_read_thread s;
     _read_thread_continue := _read_thread_continue s;
     _instances := _instances s; _commands := _commands s;
     _pipe_read := v; _pipe_write := _pipe_write s;
     _p3dpython := _p3dpython s; _read_thread := _read_thread s |}.

Definition set_pipe_write (v : HandleStream) (s : P3DSession) : P3DSession :=
  {| _session_key := _session_key s; _python_version := _python_version s;
     _python_root_dir := _python_root_dir s; _output_filename := _output_filename s;
     _python_state := _python_state s;
     _started_read_thread := _started_read_thread s;
     _read_thread_continue := _read_thread_continue s;
     _instances := _instances s; _commands := _commands s;
     _pipe_read := _pipe_read s; _pipe_write := v;
     _p3dpython := _p3dpython s; _read_thread := _read_thread s |}.

Definition set_p3dpython (v : option PROCESS_INFORMATION) (s : P3DSession) : P3DSession :=
  {| _session_key := _session_key s; _python_version := _python_version s;
     _python_root_dir := _python_root_dir s; _output_filename := _output_filename s;
     _python_state := _python_state s;
     _started_read_thread := _started_read_thread s;
     _read_thread_continue := _read_thread_continue s;
     _instances := _instances s; _commands := _commands s;
     _pipe_read := _pipe_read s; _pipe_write := _pipe_write s;
     _p3dpython := v; _read_thread := _read_thread s |}.

Definition set_read_thread (v : option HANDLE) (s : P3DSession) : P3DSession :=
  {| _session_key := _session_key s; _python_version := _python_version s;
     _python_root_dir := _python_root_dir s; _output_filename := _output_filename s;
     _python_state := _python_state s;
     _started_read_thread := _started_read_thread s;
     _read_thread_continue := _read_thread_continue s;
     _instances := _instances s; _commands := _commands s;
     _pipe_read := _pipe_read s; _pipe_write := _pipe_write s;
     _p3dpython := _p3dpython s; _read_thread := v |}.

(** ** The heap of documents and the instance objects *)

Definition empty_document : TiXmlDocument := {| doc_children := [] |}.

(** [new TiXmlDocument]: an address that holds no live document. *)
Definition new_TiXmlDocument : M DocPtr :=
  λ w, let p := fresh (dom (docs w)) in
       Ok p {| session := session w; instances := instances w;
               docs := <[p := empty_document]> (docs w);
               trace := trace w ++ [EvNew p] |}.

Definition deref_doc (p : DocPtr) : M TiXmlDocument :=
  λ w, match docs w !! p with
       | Some d => Ok d w
       | None => Abort "dangling TiXmlDocument" w
       end.

Definition store_doc (p : DocPtr) (d : TiXmlDocument) : M unit :=
  λ w, match docs w !! p with
       | Some _ => Ok tt {| session := session w; instances := instances w;
                            docs := <[p := d]> (docs w); trace := trace w |}
       | None => Abort "dangling TiXmlDocument" w
       end.

(** [delete p]: deleting what is not live is undefined behaviour. *)
Definition delete_doc (p : DocPtr) : M unit :=
  λ w, match docs w !! p with
       | Some _ => Ok tt {| session := session w; instances := instances w;
                            docs := delete p (docs w);
                            trace := trace w ++ [EvDelete p] |}
       | None => Abort "delete of a dangling TiXmlDocument" w
       end.

Definition deref_inst (inst : InstPtr) : M P3DInstance :=
  λ w, match instances w !! inst with
       | Some i => Ok i w
       | None => Abort "dangling P3DInstance" w
       end.

(** [inst->_session = v]. *)
Definition assign_inst_session (inst : InstPtr) (v : option SessionPtr) : M unit :=
  λ w, match instances w !! inst with
       | Some i => Ok tt {| session := session w;
                            instances := <[inst := set_inst_session v i]> (instances w);
                            docs := docs w; trace := trace w |}
       | None => Abort "dangling P3DInstance" w
       end.

(** [_instances.insert(value_type(id, inst)).second]: a map insert that
    leaves an existing entry alone and says whether it inserted. *)
Definition instances_insert (id : Z) (inst : InstPtr) : M bool :=
  s <- get_session;;
  match _instances s !! id with
  | Some _ => ret false
  | None => modify_session (set_instances (<[id := inst]> (_instances s)));;; ret true
  end.

Definition instances_erase (id : Z) : M unit :=
  modify_session (λ s, set_instances (delete id (_instances s)) s).

(** Iteration over a [std::map] goes by ascending key. *)
Definition key_le (a b : Z * InstPtr) : Prop := a.1 ≤ b.1.

#[global] Instance key_le_dec a b : Decision (key_le a b) :=
  Z_le_dec a.1 b.1.

Definition instances_in_order (m : gmap Z InstPtr) : list (Z * InstPtr) :=
  merge_sort key_le (map_to_list m).

(** ** The environment block of the child *)

Definition NUL : string := String "000"%char "".

(** The names forwarded from the current environment; [SYSTEMROOT] is
    there under [#ifdef _WIN32] only. *)
Definition keep (win32 : bool) : list string :=
  ["TEMP"; "HOME"; "USER"] ++ (if win32 then ["SYSTEMROOT"] else []).

Definition forward_variable (os : OS) (env : string) (name : string) : string :=
  match getenv os name with
  | Some value => (((env +:+ name) +:+ "=") +:+ value) +:+ NUL
  | None => env
  end.

Definition populate_environment (win32 : bool) (os : OS) (python_root_dir : string)
  : string :=
  let env := "" in
  let env := foldl (forward_variable os) env (keep win32) in
  let env := ((env +:+ "PATH=") +:+ python_root_dir) +:+ NUL in
  let env := ((env +:+ "PYTHONPATH=") +:+ python_root_dir) +:+ NUL in
  env.

(** Reading an environment block back: the NUL-terminated entries, each
    split at its first [=]. *)
Fixpoint block_entries (cur : string) (block : string) : list string :=
  match block with
  | EmptyString => []
  | String c rest =>
      if decide (c = "000"%char) then cur :: block_entries "" rest
      else block_entries (cur +:+ String c "") rest
  end.

Fixpoint split_entry (name : string) (entry : string) : string * string :=
  match entry with
  | EmptyString => (name, "")
  | String c rest =>
      if decide (c = "="%char) then (name, rest)
      else split_entry (name +:+ String c "") rest
  end.

Definition environment_of_block (block : string) : list (string * string) :=
  split_entry "" <$> block_entries "" block.

(** ** Member functions of P3DSession *)

(** The constructor.  [_p3dpython] and [_read_thread] are not
    initialised; [None] stands for that. *)
Definition P3DSession_ctor (i : P3DInstance) : P3DSession :=
  {| _session_key := get_session_key i;
     _python_version := get_python_version i;
     _python_root_dir := "C:/p3drun";
     _output_filename := lookup_token i "output_filename";
     _python_state := PS_init;
     _started_read_thread := false;
     _read_thread_continue := false;
     _instances := ∅;
     _commands := [];
     _pipe_read := hs_unopened;
     _pipe_write := hs_unopened;
     _p3dpython := None;
     _read_thread := None |}.

(** [new P3DSession(inst)] in a program whose instance objects are
    [insts] and whose live documents are [heap]. *)
Definition construct (insts : gmap InstPtr P3DInstance)
    (heap : gmap DocPtr TiXmlDocument) (inst : InstPtr) : option World :=
  match insts !! inst with
  | Some i => Some {| session := P3DSession_ctor i; instances := insts;
                      docs := heap; trace := [EvInitLock] |}
  | None => None
  end.

Definition send_command (command : DocPtr) : M unit :=
  s <- get_session;;
  match _python_state s with
  | PS_running =>
      (* Python is running.  Send the command. *)
      d <- deref_doc command;;
      emit (EvPipeWrite d);;;
      emit EvPipeFlush;;;
      delete_doc command
  | _ =>
      (* Python not yet running.  Queue up the command instead. *)
      modify_session (λ s, set_commands (_commands s ++ [command]) s)
  end.

Definition download_p3dpython (os : OS) (inst : InstPtr) : M unit :=
  let download := {| dl_url := ""; dl_filename := "" |} in
  let download := {| dl_url := "http://fewmet/~drose/p3drun.tgz";
                     dl_filename := dl_filename download |} in
  let local_filename := "temp.tgz" in
  if negb (os_set_filename os) then
    cerr (("Could not open " +:+ local_filename) +:+ nl)
  else
    let download := {| dl_url := dl_url download; dl_filename := local_filename |} in
    (* inst->start_download(download); the call to start_p3dpython that
       follows it in the source is commented out. *)
    emit (EvStartDownload inst download).

Definition spawn_read_thread (os : OS) : M unit :=
  s <- get_session;;
  assert (negb (_read_thread_continue s));;;
  modify_session (set_read_thread_continue true);;;
  sys (CreateThread (os_create_thread os));;;
  modify_session (set_read_thread (os_create_thread os));;;
  modify_session (set_started_read_thread true).

(** The loop over [_commands] that writes and deletes each command. *)
Fixpoint feed_commands (cs : list DocPtr) : M unit :=
  match cs with
  | [] => ret tt
  | ci :: rest =>
      d <- deref_doc ci;;
      emit (EvPipeWrite d);;;
      delete_doc ci;;;
      feed_commands rest
  end.

(** The body is the [_WIN32] one: [started_p3dpython] is declared
    nowhere else. *)
Definition start_p3dpython (os : OS) : M unit :=
  let p3dpython := "c:/cygwin/home/drose/player/direct/built/bin/p3dpython.exe" in
  s <- get_session;;
  (* Populate the new process' environment. *)
  let env := populate_environment true os (_python_root_dir s) in
  (* Create the pipe to the process. *)
  to <- match os_pipe_to os with
        | None =>
            sys (CreatePipe false);;;
            cerr ("failed to create pipe" +:+ nl);;;
            ret (None, None)
        | Some (r, w) =>
            sys (CreatePipe true);;;
            sys (SetHandleInformation r true);;;
            sys (SetHandleInformation w false);;;
            ret (Some r, Some w)
        end;;
  let r_to : option HANDLE := to.1 in
  let w_to : option HANDLE := to.2 in
  (* Create the pipe from the process. *)
  from <- match os_pipe_from os with
          | None =>
              sys (CreatePipe false);;;
              cerr ("failed to create pipe" +:+ nl);;;
              ret (None, None)
          | Some (r, w) =>
              sys (CreatePipe true);;;
              sys (SetHandleInformation w true);;;
              sys (SetHandleInformation r false);;;
              ret (Some r, Some w)
          end;;
  let r_from : option HANDLE := from.1 in
  let w_from : option HANDLE := from.2 in
  sys GetStdHandle_error;;;
  let got_output_filename := negb (bool_decide (_output_filename s = "")) in
  error_handle <-
    (if got_output_filename then
       match os_create_file os with
       | Some handle =>
           sys (CreateFile (_output_filename s) true);;;
           sys (SetHandleInformation handle true);;;
           ret handle
       | None =>
           sys (CreateFile (_output_filename s) false);;;
           cerr (("Unable to open " +:+ _output_filename s) +:+ nl);;;
           ret (os_std_error os)
       end
     else ret (os_std_error os));;
  (* Make sure we see an error dialog if there is a missing DLL. *)
  sys (SetErrorMode 0);;;
  let startup_info :=
    {| hStdError := Some error_handle; hStdOutput := w_from; hStdInput := r_to;
       wShowWindow_hidden := true |} in
  sys (CreateProcess p3dpython env (_python_root_dir s) startup_info
         (is_some (os_create_process os)));;;
  (match os_create_process os with
   | Some pi => modify_session (set_p3dpython (Some pi))
   | None => ret tt
   end);;;
  let started_p3dpython := is_some (os_create_process os) in
  (* Close the pipe handles that are now owned by the child. *)
  sys (CloseHandle w_from);;;
  sys (CloseHandle r_to);;;
  (if got_output_filename then sys (CloseHandle (Some error_handle)) else ret tt);;;
  emit (EvPipeOpenRead r_from);;;
  modify_session (set_pipe_read (hs_open r_from));;;
  emit (EvPipeOpenWrite w_to);;;
  modify_session (set_pipe_write (hs_open w_to));;;
  if negb started_p3dpython then
    cerr ("Failed to create process." +:+ nl)
  else
    modify_session (set_python_state PS_running);;;
    s <- get_session;;
    cerr (("Created process: " +:+ pretty (from_option dwProcessId 0 (_p3dpython s))) +:+ nl);;;
    (if negb (hs_good (_pipe_read s)) then cerr ("unable to open read pipe" +:+ nl)
     else ret tt);;;
    (if negb (hs_good (_pipe_write s)) then cerr ("unable to open write pipe" +:+ nl)
     else ret tt);;;
    spawn_read_thread os;;;
    (* Now that the process has been started, feed it any commands we
       may have queued up. *)
    s <- get_session;;
    feed_commands (_commands s);;;
    emit EvPipeFlush;;;
    modify_session (set_commands []).

Definition post_stop (inst : InstPtr) : M unit :=
  let request := {| _instance := inst; _request_type := P3D_RT_stop |} in
  emit (EvAddRequest inst request).

Fixpoint rt_terminate_loop (icopy : list (Z * InstPtr)) : M unit :=
  match icopy with
  | [] => ret tt
  | ii :: rest => post_stop ii.2;;; rt_terminate_loop rest
  end.

Definition rt_terminate : M unit :=
  emit EvAcquireLock;;;
  s <- get_session;;
  let icopy := _instances s in
  emit EvReleaseLock;;;
  rt_terminate_loop (instances_in_order icopy).

Inductive ReaderStatus :=
  | ReaderReturned
  | ReaderBlocked.

(** One turn of the loop of [rt_thread_run], past its test of
    [_read_thread_continue], whose read yields [r].  It says whether the
    loop goes on; when it does not, the function has returned. *)
Definition rt_thread_turn (r : ReadOutcome) : M bool :=
  doc <- new_TiXmlDocument;;
  emit (EvPipeRead r);;;
  modify_session (λ s, set_pipe_read (hs_after_read r (_pipe_read s)) s);;;
  match r with
  | ReadDoc d =>
      store_doc doc d;;;
      (* Successfully read an XML document. *)
      cerr "Session got request: ";;;
      emit (EvCerrDoc d);;;
      cerr nl;;;
      delete_doc doc;;;
      ret true
  | _ =>
      (* Some error on reading.  Abort. *)
      cerr ("Error on session reading." +:+ nl);;;
      rt_terminate;;;
      ret false
  end.

(** The loop of [rt_thread_run], run on what the pipe delivers.  It
    comes back with the part it did not read, and says whether the
    function returned or the thread waits for the pipe: a turn is run
    when its read is over, so the turn of a read that nothing has
    arrived for is left to the step that goes on with the loop, or to
    the controller's [join_read_thread]. *)
Fixpoint rt_thread_loop (inbound : list ReadOutcome)
  : M (ReaderStatus * list ReadOutcome) :=
  s <- get_session;;
  if _read_thread_continue s then
    match inbound with
    | [] => ret (ReaderBlocked, [])
    | r :: rest =>
        go_on <- rt_thread_turn r;;
        if go_on then rt_thread_loop rest else ret (ReaderReturned, rest)
    end
  else ret (ReaderReturned, inbound).

(** The main function of the read thread. *)
Definition rt_thread_run (inbound : list ReadOutcome)
  : M (ReaderStatus * list ReadOutcome) :=
  cerr ("session thread reading." +:+ nl);;;
  rt_thread_loop inbound.

(** What the read thread does while the controller waits for it: the
    turn of its pending read, if there is one.  The read ends badly, so
    the turn goes through [rt_terminate] and the thread returns. *)
Definition rt_thread_last (pending : PendingRead) : M unit :=
  match pending_outcome pending with
  | Some r => rt_thread_turn r;;; ret tt
  | None => ret tt
  end.

(** [WaitForSingleObject(_read_thread, INFINITE)] comes back when the
    read thread has returned: what the thread still does comes between
    the call and the [CloseHandle] that follows it. *)
Definition join_read_thread (os : OS) : M unit :=
  s <- get_session;;
  if negb (_started_read_thread s) then ret tt
  else
    cerr ("session waiting for thread" +:+ nl);;;
    modify_session (set_read_thread_continue false);;;
    emit EvPipeReadClose;;;
    modify_session (λ s, set_pipe_read (hs_close (_pipe_read s)) s);;;
    s <- get_session;;
    match _read_thread s with
    | None => abort "assertion failed"
    | Some h =>
        sys (WaitForSingleObject h INFINITE false);;;
        rt_thread_last (os_pending_read os);;;
        sys (CloseHandle (Some h));;;
        modify_session (set_read_thread None);;;
        cerr ("session done waiting for thread" +:+ nl);;;
        modify_session (set_started_read_thread false)
    end.

Fixpoint delete_commands (cs : list DocPtr) : M unit :=
  match cs with
  | [] => ret tt
  | ci :: rest => delete_doc ci;;; delete_commands rest
  end.

Definition P3DSession_dtor (os : OS) : M unit :=
  s <- get_session;;
  (match _python_state s with
   | PS_running =>
       (* Tell the process we're going away. *)
       let doc := empty_document in
       let decl := TiXmlDeclaration "1.0" "" "" in
       let xcommand := TiXmlElement "command" [] [] in
       let xcommand := SetAttribute "cmd" "exit" xcommand in
       let doc := doc_LinkEndChild decl doc in
       let doc := doc_LinkEndChild xcommand doc in
       emit (EvPipeWrite doc);;;
       emit EvPipeFlush;;;
       (* Also close the pipe, to help underscore the point. *)
       emit EvPipeWriteClose;;;
       modify_session (λ s, set_pipe_write (hs_close (_pipe_write s)) s);;;
       emit EvPipeReadClose;;;
       modify_session (λ s, set_pipe_read (hs_close (_pipe_read s)) s);;;
       match _p3dpython s with
       | None => abort "uninitialised PROCESS_INFORMATION"
       | Some pi =>
           (* Now give the process a chance to terminate itself cleanly. *)
           sys (WaitForSingleObject (hProcess pi) (Millis 2000) (os_wait_timed_out os));;;
           (if os_wait_timed_out os then
              (* It didn't shut down cleanly, so kill it the hard way. *)
              cerr ("Terminating process." +:+ nl);;;
              sys (TerminateProcess (hProcess pi) 2)
            else ret tt);;;
           sys (CloseHandle (Some (hProcess pi)));;;
           sys (CloseHandle (Some (hThread pi)))
       end
   | _ => ret tt
   end);;;
  (* If there are any leftover commands in the queue, delete them now,
     unsent. *)
  s <- get_session;;
  delete_commands (_commands s);;;
  modify_session (set_commands []);;;
  join_read_thread os;;;
  emit EvDestroyLock.

Section Session.

(** The address of the session object. *)
Variable this : SessionPtr.

Definition start_instance (os : OS) (inst : InstPtr) : M unit :=
  i <- deref_inst inst;;
  s <- get_session;;
  assert (bool_decide (_session i = None));;;
  assert (bool_decide (get_session_key i = _session_key s));;;
  assert (bool_decide (get_python_version i = _python_version s));;;
  emit EvAcquireLock;;;
  assign_inst_session inst (Some this);;;
  inserted <- instances_insert (get_instance_id i) inst;;
  emit EvReleaseLock;;;
  assert inserted;;;
  doc <- new_TiXmlDocument;;
  let decl := TiXmlDeclaration "1.0" "" "" in
  let xcommand := TiXmlElement "command" [] [] in
  let xcommand := SetAttribute "cmd" "start_instance" xcommand in
  let xinstance := make_xml i in
  (* The document holds xcommand by address, so the child linked into
     xcommand after it is in the document too. *)
  let xcommand := LinkEndChild xinstance xcommand in
  store_doc doc (doc_LinkEndChild xcommand (doc_LinkEndChild decl empty_document));;;
  send_command doc;;;
  s <- get_session;;
  match _python_state s with
  | PS_init => download_p3dpython os inst
  | _ => ret tt
  end.

Definition terminate_instance (inst : InstPtr) : M unit :=
  doc <- new_TiXmlDocument;;
  i <- deref_inst inst;;
  let decl := TiXmlDeclaration "1.0" "" "" in
  let xcommand := TiXmlElement "command" [] [] in
  let xcommand := SetAttribute "cmd" "terminate_instance" xcommand in
  let xcommand := SetAttribute_int "id" (get_instance_id i) xcommand in
  store_doc doc (doc_LinkEndChild xcommand (doc_LinkEndChild decl empty_document));;;
  send_command doc;;;
  emit EvAcquireLock;;;
  i <- deref_inst inst;;
  (if bool_decide (_session i = Some this) then
     assign_inst_session inst None;;;
     instances_erase (get_instance_id i)
   else ret tt);;;
  emit EvReleaseLock.

(** ** The two threads together *)

(** What the controlling thread may call on the session. *)
Inductive ControllerCall :=
  | CallStartInstance (os : OS) (inst : InstPtr)
  | CallTerminateInstance (inst : InstPtr)
  | CallStartP3dpython (os : OS).

Definition controller_call (c : ControllerCall) : M unit :=
  match c with
  | CallStartInstance os inst => start_instance os inst
  | CallTerminateInstance inst => terminate_instance inst
  | CallStartP3dpython os => start_p3dpython os
  end.

Fixpoint controller_calls (cs : list ControllerCall) : M unit :=
  match cs with
  | [] => ret tt
  | c :: rest => controller_call c;;; controller_calls rest
  end.

(** The loop of [rt_terminate] with the controlling thread running
    between its iterations: [sched] lists, iteration by iteration,
    the calls the controller completes before that iteration posts
    its request; what is left of it runs after the loop. *)
Fixpoint rt_terminate_loop_with (icopy : list (Z * InstPtr))
    (sched : list (list ControllerCall)) : M unit :=
  match icopy with
  | [] => controller_calls (concat sched)
  | ii :: rest =>
      controller_calls (default [] (head sched));;;
      post_stop ii.2;;;
      rt_terminate_loop_with rest (tail sched)
  end.

(** [rt_terminate] against a running controller.  The copy of
    [_instances] is made with the lock held, so no controller call
    falls between the two lock macros. *)
Definition rt_terminate_with (sched : list (list ControllerCall)) : M unit :=
  emit EvAcquireLock;;;
  s <- get_session;;
  let icopy := _instances s in
  emit EvReleaseLock;;;
  rt_terminate_loop_with (instances_in_order icopy) sched.

(** The life of a session between its constructor and its destructor:
    a call of the controller, the read thread running from its start on
    what has arrived, or the read thread going on with its loop on what
    has arrived since. *)
Inductive Step :=
  | StepController (c : ControllerCall)
  | StepReader (inbound : list ReadOutcome)
  | StepReaderMore (inbound : list ReadOutcome).

Definition step (st : Step) : M unit :=
  match st with
  | StepController c => controller_call c
  | StepReader inbound => rt_thread_run inbound;;; ret tt
  | StepReaderMore inbound => rt_thread_loop inbound;;; ret tt
  end.

Inductive reachable : World → Prop :=
  | reachable_construct insts heap inst w :
      construct insts heap inst = Some w → reachable w
  | reachable_step w st w' :
      reachable w → step st w = Ok tt w' → reachable w'.

End Session.

(** ** Reading a trace *)

(** The documents written to [_pipe_write], in order. *)
Definition pipe_written (evs : list Event) : list TiXmlDocument :=
  omap (λ e, match e with EvPipeWrite d => Some d | _ => None end) evs.

(** The addresses handed to [delete], in order. *)
Definition deleted (evs : list Event) : list DocPtr :=
  omap (λ e, match e with EvDelete p => Some p | _ => None end) evs.

(** The instances a [P3D_RT_stop] request was added to, in order. *)
Definition stop_requests (evs : list Event) : list InstPtr :=
  omap (λ e, match e with
             | EvAddRequest inst {| _instance := _; _request_type := P3D_RT_stop |} =>
                 Some inst
             | _ => None
             end) evs.

(** The instances a download was started on, in order. *)
Definition downloads_started (evs : list Event) : list InstPtr :=
  omap (λ e, match e with EvStartDownload inst _ => Some inst | _ => None end) evs.

(** The calls to [CreateProcess], each with whether it succeeded. *)
Definition processes_created (evs : list Event) : list bool :=
  omap (λ e, match e with EvSys (CreateProcess _ _ _ _ ok) => Some ok | _ => None end) evs.

(** The threads [WaitForSingleObject] was told to wait for without limit. *)
Definition joins (evs : list Event) : list HANDLE :=
  omap (λ e, match e with
             | EvSys (WaitForSingleObject h INFINITE _) => Some h
             | _ => None
             end) evs.

(** A run of [send_command] calls, one after the other. *)
Fixpoint send_commands (cs : list DocPtr) : M unit :=
  match cs with
  | [] => ret tt
  | c :: rest => send_command c;;; send_commands rest
  end.

(** The documents behind a list of addresses. *)
Definition documents_at (heap : gmap DocPtr TiXmlDocument) (cs : list DocPtr)
  : option (list TiXmlDocument) :=
  mapM (λ p, heap !! p) cs.

(** Events that touch neither the pipe's write half, nor the heap, nor
    an instance: diagnostics, system calls, locks, opening the pipe. *)
Definition quiet (e : Event) : Prop :=
  match e with
  | EvCerr _ | EvCerrDoc _ | EvSys _ | EvPipeOpenRead _ | EvPipeOpenWrite _
  | EvAcquireLock | EvReleaseLock => True
  | _ => False
  end.


(** ** Vocabulary for the statements about start_p3dpython *)

(** The controller's ends of the two pipes, as [start_p3dpython] gets
    them from [CreatePipe]; [None] where the call failed. *)
Definition pipe_w_to (os : OS) : option HANDLE := snd <$> os_pipe_to os.
Definition pipe_r_from (os : OS) : option HANDLE := fst <$> os_pipe_from os.

(** The session once [start_p3dpython] has opened its two streams. *)
Definition opened_session (os : OS) (s : P3DSession) : P3DSession :=
  set_pipe_write (hs_open (pipe_w_to os)) (set_pipe_read (hs_open (pipe_r_from os)) s).

(** The session once the child runs and the read thread is started. *)
Definition spawned_session (os : OS) (pi : PROCESS_INFORMATION) (s : P3DSession)
  : P3DSession :=
  set_started_read_thread true
    (set_read_thread (os_create_thread os)
       (set_read_thread_continue true
          (set_python_state PS_running
             (opened_session os (set_p3dpython (Some pi) s))))).

(** The heap once every address of [cs] has been deleted. *)
Definition delete_all (cs : list DocPtr) (heap : gmap DocPtr TiXmlDocument)
  : gmap DocPtr TiXmlDocument :=
  foldr delete heap cs.

(** What the loop of [start_p3dpython] does with the commands [cs]
    holding the documents [ds]: write a command, delete it, go on. *)
Definition fed (cs : list DocPtr) (ds : list TiXmlDocument) : list Event :=
  concat (zip_with (λ p d, [EvPipeWrite d; EvDelete p]) cs ds).

(** ** Vocabulary for the statements about instances *)

(** The address [new TiXmlDocument] returns in the world [w]. *)
Definition next_doc (w : World) : DocPtr := fresh (dom (docs w)).

(** Whether a document is a declaration followed by one [command]
    element with the given [cmd] attribute. *)
Definition is_command (cmd : string) (d : TiXmlDocument) : Prop :=
  ∃ attrs kids,
    doc_children d = [TiXmlDeclaration "1.0" "" ""; TiXmlElement "command" attrs kids]
    ∧ find_attribute "cmd" attrs = Some cmd.

(** The attribute of that name on the [command] element of a document. *)
Definition command_attribute (name : string) (d : TiXmlDocument) : option string :=
  match doc_children d with
  | [_; x] => Attribute name x
  | _ => None
  end.

(** The document [start_instance] builds for an instance. *)
Definition start_instance_document (i : P3DInstance) : TiXmlDocument :=
  {| doc_children :=
       [TiXmlDeclaration "1.0" "" "";
        TiXmlElement "command" [("cmd", "start_instance")] [make_xml i]] |}.

(** What [send_command] adds to the trace for the command at [p]
    holding [d]. *)
Definition sent (running : bool) (p : DocPtr) (d : TiXmlDocument) : list Event :=
  if running then [EvPipeWrite d; EvPipeFlush; EvDelete p] else [].

(** What [download_p3dpython] adds to the trace. *)
Definition download_events (os : OS) (inst : InstPtr) : list Event :=
  if os_set_filename os then
    [EvStartDownload inst {| dl_url := "http://fewmet/~drose/p3drun.tgz";
                             dl_filename := "temp.tgz" |}]
  else [EvCerr (("Could not open " +:+ "temp.tgz") +:+ nl)].

(** What [start_instance] requires of the instance: the three
    assertions at its head, and that the insertion into [_instances]
    takes place. *)
Definition may_start (w : World) (inst : InstPtr) (i : P3DInstance) : Prop :=
  instances w !! inst = Some i
  ∧ _session i = None
  ∧ get_session_key i = _session_key (session w)
  ∧ get_python_version i = _python_version (session w)
  ∧ _instances (session w) !! get_instance_id i = None.

(** The world [start_instance] leaves. *)
Definition started (this : SessionPtr) (os : OS) (inst : InstPtr) (i : P3DInstance)
    (w : World) : World :=
  let p := next_doc w in
  let d := start_instance_document i in
  let running := bool_decide (_python_state (session w) = PS_running) in
  {| session :=
       set_commands
         (if running then _commands (session w) else _commands (session w) ++ [p])
         (set_instances (<[get_instance_id i := inst]> (_instances (session w)))
            (session w));
     instances := <[inst := set_inst_session (Some this) i]> (instances w);
     docs := if running then docs w else <[p := d]> (docs w);
     trace :=
       trace w ++ [EvAcquireLock; EvReleaseLock; EvNew p] ++ sent running p d
         ++ (if bool_decide (_python_state (session w) = PS_init)
             then download_events os inst else []) |}.

(** ** Vocabulary for the statements about the read thread *)

Definition stop_event (inst : InstPtr) : Event :=
  EvAddRequest inst {| _instance := inst; _request_type := P3D_RT_stop |}.

(** The threads handed out by [CreateThread]. *)
Definition threads_created (evs : list Event) : list (option HANDLE) :=
  omap (λ e, match e with EvSys (CreateThread h) => Some h | _ => None end) evs.

(** What an iteration of the read loop adds to the trace when it reads
    the document [d] into the fresh document at [p]. *)
Definition read_events (p : DocPtr) (d : TiXmlDocument) : list Event :=
  [EvNew p; EvPipeRead (ReadDoc d); EvCerr "Session got request: "; EvCerrDoc d;
   EvCerr nl; EvDelete p].

(** What the turn of a read that ends badly adds to the trace, with
    the fresh document at [p] and [snapshot] the instances registered. *)
Definition failed_read_events (p : DocPtr) (r : ReadOutcome) (snapshot : list InstPtr)
  : list Event :=
  [EvNew p; EvPipeRead r; EvCerr ("Error on session reading." +:+ nl);
   EvAcquireLock; EvReleaseLock] ++ (stop_event <$> snapshot).

(** What the read thread adds to the trace, leaves on the heap and
    makes of [_pipe_read] while the controller waits for it. *)
Definition last_events (pending : PendingRead) (p : DocPtr) (snapshot : list InstPtr)
  : list Event :=
  match pending_outcome pending with
  | Some r => failed_read_events p r snapshot
  | None => []
  end.

Definition last_heap (pending : PendingRead) (p : DocPtr)
    (heap : gmap DocPtr TiXmlDocument) : gmap DocPtr TiXmlDocument :=
  match pending_outcome pending with
  | Some _ => <[p := empty_document]> heap
  | None => heap
  end.

Definition last_stream (pending : PendingRead) (hs : HandleStream) : HandleStream :=
  match pending_outcome pending with
  | Some r => hs_after_read r hs
  | None => hs
  end.

(** What the read thread may change: the state of [_pipe_read], fresh
    documents of its own, and the trace, where it neither writes to the
    pipe nor deletes a document that was live before. *)
Definition reader_changes (w w' : World) : Prop :=
  (∃ pr, session w' = set_pipe_read pr (session w))
  ∧ instances w' = instances w
  ∧ docs w ⊆ docs w'
  ∧ ∃ evs, trace w' = trace w ++ evs
           ∧ pipe_written evs = []
           ∧ processes_created evs = []
           ∧ threads_created evs = [].

(** ** Invariants *)

(** Every queued command is a live document, queued once. *)
Definition queue_owned (w : World) : Prop :=
  NoDup (_commands (session w))
  ∧ ∀ p, p ∈ _commands (session w) → is_Some (docs w !! p).

(** Every entry of [_instances] is a live instance filed under its id. *)
Definition registry_wf (w : World) : Prop :=
  ∀ k inst, _instances (session w) !! k = Some inst →
    ∃ i, instances w !! inst = Some i ∧ get_instance_id i = k.

Record session_inv (w : World) : Prop := {
  inv_state :
    _python_state (session w) = PS_init ∨ _python_state (session w) = PS_running;
  inv_init :
    _python_state (session w) = PS_init →
      pipe_written (trace w) = []
      ∧ Forall (λ ok, ok = false) (processes_created (trace w))
      ∧ threads_created (trace w) = []
      ∧ _started_read_thread (session w) = false
      ∧ _read_thread_continue (session w) = false;
  inv_running :
    _python_state (session w) = PS_running →
      _commands (session w) = []
      ∧ is_Some (_p3dpython (session w))
      ∧ _started_read_thread (session w) = true
      ∧ _read_thread_continue (session w) = true;
  inv_queue : queue_owned w;
  inv_registry : registry_wf w;
}.

(** The document [terminate_instance] builds for an instance. *)
Definition terminate_instance_document (i : P3DInstance) : TiXmlDocument :=
  {| doc_children :=
       [TiXmlDeclaration "1.0" "" "";
        TiXmlElement "command"
          [("cmd", "terminate_instance"); ("id", pretty (get_instance_id i))] []] |}.

(** The world [terminate_instance] leaves. *)
Definition terminated (this : SessionPtr) (inst : InstPtr) (i : P3DInstance)
    (w : World) : World :=
  let p := next_doc w in
  let d := terminate_instance_document i in
  let attached := bool_decide (_session i = Some this) in
  let running := bool_decide (_python_state (session w) = PS_running) in
  {| session :=
       set_instances
         (if attached then delete (get_instance_id i) (_instances (session w))
          else _instances (session w))
         (set_commands
            (if running then _commands (session w) else _commands (session w) ++ [p])
            (session w));
     instances :=
       if attached then <[inst := set_inst_session None i]> (instances w)
       else instances w;
     docs := if running then docs w else <[p := d]> (docs w);
     trace :=
       trace w ++ [EvNew p] ++ sent running p d ++ [EvAcquireLock; EvReleaseLock] |}.

(** ** Vocabulary for the statements about the destructor *)

(** The document the destructor writes to a running Python. *)
Definition exit_document : TiXmlDocument :=
  {| doc_children :=
       [TiXmlDeclaration "1.0" "" ""; TiXmlElement "command" [("cmd", "exit")] []] |}.

(** The session as the destructor leaves it when Python was running and
    the read thread had been started. *)
Definition destroyed_session (pending : PendingRead) (s : P3DSession) : P3DSession :=
  set_started_read_thread false
    (set_read_thread None
       (set_pipe_read (last_stream pending (hs_close (hs_close (_pipe_read s))))
          (set_read_thread_continue false
             (set_commands []
                (set_pipe_read (hs_close (_pipe_read s))
                   (set_pipe_write (hs_close (_pipe_write s)) s)))))).

(** What every call of the controller leaves alone: it adds no request
    to any instance, and no instance object goes away. *)
Definition controller_changes (w w' : World) : Prop :=
  (∃ evs, trace w' = trace w ++ evs ∧ stop_requests evs = [])
  ∧ ∀ inst, is_Some (instances w !! inst) → is_Some (instances w' !! inst).

(** A schedule of the controller that only detaches instances: every
    call is a [terminate_instance] on a live instance. *)
Definition only_terminates (w : World) (cs : list ControllerCall) : Prop :=
  ∀ c, c ∈ cs → ∃ inst, c = CallTerminateInstance inst ∧ is_Some (instances w !! inst).

(** ** Vocabulary for the statements about the environment *)

(** The environment blocks handed to [CreateProcess]. *)
Definition process_environments (evs : list Event) : list string :=
  omap (λ e, match e with EvSys (CreateProcess _ env _ _ _) => Some env | _ => None end)
    evs.

Fixpoint occurs (c : ascii) (s : string) : bool :=
  match s with
  | EmptyString => false
  | String c' rest => if decide (c' = c) then true else occurs c rest
  end.

(** The forwarded variables as the specification words them: the names
    of the allow-list that are set in the controller's environment, each
    with its value there. *)
Definition forwarded (win32 : bool) (os : OS) : list (string * string) :=
  omap (λ name, (λ value, (name, value)) <$> getenv os name) (keep win32).

(** The child's environment as the specification words it: the
    forwarded variables and the two that are always set. *)
Definition worker_environment (win32 : bool) (os : OS) (python_root_dir : string)
  : list (string * string) :=
  forwarded win32 os ++ [("PATH", python_root_dir); ("PYTHONPATH", python_root_dir)].

(** An environment laid out as a block: [name=value] and a NUL for each
    variable. *)
Definition block_of_environment (env : list (string * string)) : string :=
  foldr (λ nv block, nv.1 +:+ "=" +:+ nv.2 +:+ NUL +:+ block) "" env.

(** A variable that survives the layout: no NUL in it, no [=] in its
    name. *)
Definition well_formed_variable (nv : string * string) : Prop :=
  occurs "="%char nv.1 = false
  ∧ occurs "000"%char nv.1 = false
  ∧ occurs "000"%char nv.2 = false.

(** ** A scenario to run the statements on *)

Definition scenario_instance (id : Z) : P3DInstance :=
  {| inst_session_key := "demo"; inst_python_version := "2.6";
     inst_instance_id := id; inst_tokens := ∅;
     inst_xml := TiXmlElement "instance" [] []; _session := None |}.

(** Two instances, at the addresses 1 and 2, with the ids 7 and 8. *)
Definition scenario_instances : gmap InstPtr P3DInstance :=
  {[ 1%positive := scenario_instance 7; 2%positive := scenario_instance 8 ]}.

(** The session lives at the address 100. *)
Definition scenario_this : SessionPtr := 100%positive.

Definition scenario_process : PROCESS_INFORMATION :=
  {| hProcess := 20%positive; hThread := 21%positive; dwProcessId := 1234 |}.

(** An operating system where everything works, the child is slow to
    exit, and the read thread is inside a read when it is joined. *)
Definition scenario_os : OS :=
  {| os_environ := {[ "HOME" := "/home/drose"; "LANG" := "C" ]};
     os_pipe_to := Some (10%positive, 11%positive);
     os_pipe_from := Some (12%positive, 13%positive);
     os_std_error := 14%positive;
     os_create_file := Some 15%positive;
     os_create_process := Some scenario_process;
     os_create_thread := Some 30%positive;
     os_wait_timed_out := true;
     os_set_filename := true;
     os_pending_read := PendingFail |}.

(** The same, but [CreateProcess] fails. *)
Definition scenario_os_no_process : OS :=
  {| os_environ := os_environ scenario_os;
     os_pipe_to := os_pipe_to scenario_os;
     os_pipe_from := os_pipe_from scenario_os;
     os_std_error := os_std_error scenario_os;
     os_create_file := os_create_file scenario_os;
     os_create_process := None;
     os_create_thread := os_create_thread scenario_os;
     os_wait_timed_out := os_wait_timed_out scenario_os;
     os_set_filename := os_set_filename scenario_os;
     os_pending_read := os_pending_read scenario_os |}.

(** The world a computation leaves, returning or not. *)
Definition after (w : World) (m : M unit) : World :=
  match m w with
  | Ok _ w' => w'
  | Abort _ w' => w'
  end.

(** The session just constructed from the first instance. *)
Definition scenario_fresh : World :=
  {| session := P3DSession_ctor (scenario_instance 7);
     instances := scenario_instances; docs := ∅; trace := [EvInitLock] |}.

(** ... after [start_instance] on the first instance, ... *)
Definition scenario_queued : World :=
  after scenario_fresh (start_instance scenario_this scenario_os 1%positive).

(** ... after [start_instance] on the second as well, ... *)
Definition scenario_queued_twice : World :=
  after scenario_queued (start_instance scenario_this scenario_os 2%positive).

(** ... and after a [start_p3dpython] that creates the process. *)
Definition scenario_running : World :=
  after scenario_queued_twice (start_p3dpython scenario_os).

(** A fresh session beside two live documents, at the addresses 5 and 6. *)
Definition scenario_documents : World :=
  {| session := session scenario_fresh; instances := instances scenario_fresh;
     docs := {[ 5%positive := exit_document; 6%positive := empty_document ]};
     trace := trace scenario_fresh |}.

(** The running session beside a live document at the address 5. *)
Definition scenario_running_document : World :=
  {| session := session scenario_running; instances := instances scenario_running;
     docs := {[ 5%positive := exit_document ]};
     trace := trace scenario_running |}.

(** ** Vocabulary for further statements *)

(** The three assertions at the head of [start_instance]. *)
Definition start_asserts (w : World) (i : P3DInstance) : Prop :=
  _session i = None
  ∧ get_session_key i = _session_key (session w)
  ∧ get_python_version i = _python_version (session w).

(** The world in which [start_instance] stops when the id of the
    instance is taken: the lock has been taken and released and the
    instance already points at this session. *)
Definition start_refused (this : SessionPtr) (inst : InstPtr) (i : P3DInstance)
    (w : World) : World :=
  {| session := session w;
     instances := <[inst := set_inst_session (Some this) i]> (instances w);
     docs := docs w;
     trace := trace w ++ [EvAcquireLock; EvReleaseLock] |}.

(** Every entry of [_instances] is a live instance filed under its id
    whose [_session] is this session. *)
Definition registry_attached (this : SessionPtr) (w : World) : Prop :=
  ∀ k inst, _instances (session w) !! k = Some inst →
    ∃ i, instances w !! inst = Some i
         ∧ get_instance_id i = k
         ∧ _session i = Some this.

(** The calls of [CreateProcess] that succeeded. *)
Definition spawned (evs : list Event) : list bool :=
  filter (λ ok, ok = true) (processes_created evs).

(** The session once [join_read_thread] has joined the read thread. *)
Definition joined_session (pending : PendingRead) (s : P3DSession) : P3DSession :=
  set_started_read_thread false
    (set_read_thread None
       (set_pipe_read (last_stream pending (hs_close (_pipe_read s)))
          (set_read_thread_continue false s))).

(** The documents printed to [cerr], in order. *)
Definition echoed (evs : list Event) : list TiXmlDocument :=
  omap (λ e, match e with EvCerrDoc d => Some d | _ => None end) evs.

(** The addresses [new TiXmlDocument] returned, in order. *)
Definition allocated (evs : list Event) : list DocPtr :=
  omap (λ e, match e with EvNew p => Some p | _ => None end) evs.

(** The requests of any type added to instances. *)
Definition requests_added (evs : list Event) : list (InstPtr * P3D_request) :=
  omap (λ e, match e with EvAddRequest inst r => Some (inst, r) | _ => None end) evs.

(** The texts printed to [cerr], in order. *)
Definition cerrs (evs : list Event) : list string :=
  omap (λ e, match e with EvCerr s => Some s | _ => None end) evs.

(** The downloads handed to instances, in order. *)
Definition downloads (evs : list Event) : list (InstPtr * P3DFileDownload) :=
  omap (λ e, match e with EvStartDownload inst d => Some (inst, d) | _ => None end) evs.

(** ** Vocabulary for the handles of start_p3dpython *)

(** The calls of [CreateProcess]: the program, the working directory and
    the standard handles given to the child. *)
Definition startup_infos (evs : list Event) : list (string * string * STARTUPINFO) :=
  omap (λ e, match e with
             | EvSys (CreateProcess app _ cwd si _) => Some (app, cwd, si)
             | _ => None
             end) evs.

(** The handles passed to [CloseHandle], in order. *)
Definition handles_closed (evs : list Event) : list (option HANDLE) :=
  omap (λ e, match e with EvSys (CloseHandle h) => Some h | _ => None end) evs.

(** The calls of [SetHandleInformation]: the handle and whether it is
    made inheritable. *)
Definition inheritance (evs : list Event) : list (HANDLE * bool) :=
  omap (λ e, match e with EvSys (SetHandleInformation h b) => Some (h, b) | _ => None end)
    evs.

(** The handle [start_p3dpython] gives the child as its standard error:
    the output file when one is named and can be created, the
    controller's own standard error otherwise. *)
Definition error_handle (os : OS) (s : P3DSession) : HANDLE :=
  if bool_decide (_output_filename s = "") then os_std_error os
  else match os_create_file os with
       | Some handle => handle
       | None => os_std_error os
       end.

(** What [start_p3dpython] prints before it looks at the result of
    [CreateProcess]. *)
Definition setup_complaints (os : OS) (s : P3DSession) : list string :=
  (if os_pipe_to os is None then ["failed to create pipe" +:+ nl] else [])
  ++ (if os_pipe_from os is None then ["failed to create pipe" +:+ nl] else [])
  ++ (if bool_decide (_output_filename s = "") then []
      else if os_create_file os is None
           then [("Unable to open " +:+ _output_filename s) +:+ nl] else []).

(** The handles [start_p3dpython] makes inheritable or not. *)
Definition setup_inheritance (os : OS) (s : P3DSession) : list (HANDLE * bool) :=
  (if os_pipe_to os is Some (r, w) then [(r, true); (w, false)] else [])
  ++ (if os_pipe_from os is Some (r, w) then [(w, true); (r, false)] else [])
  ++ (if bool_decide (_output_filename s = "") then []
      else if os_create_file os is Some handle then [(handle, true)] else []).

(** The handles [start_p3dpython] closes once [CreateProcess] is back. *)
Definition setup_closed (os : OS) (s : P3DSession) : list (option HANDLE) :=
  [snd <$> os_pipe_from os; fst <$> os_pipe_to os]
  ++ (if bool_decide (_output_filename s = "") then [] else [Some (error_handle os s)]).

(** The standard handles [start_p3dpython] gives the child. *)
Definition setup_startup_info (os : OS) (s : P3DSession) : STARTUPINFO :=
  {| hStdError := Some (error_handle os s);
     hStdOutput := snd <$> os_pipe_from os;
     hStdInput := fst <$> os_pipe_to os;
     wShowWindow_hidden := true |}.


(** A result that has not run into a document that is not there: a
    return, a failed assertion, or an instance that is not there. *)
Definition documents_safe {A} (r : Res A) : Prop :=
  match r with
  | Ok _ _ => True
  | Abort why _ => why = "assertion failed" ∨ why = "dangling P3DInstance"
  end.

(** ** Vocabulary for the lock *)

(** A trace in which the lock is never held across anything: each
    [ACQUIRE_LOCK] is followed at once by its [RELEASE_LOCK], and no
    release comes alone. *)
Fixpoint well_locked (evs : list Event) : bool :=
  match evs with
  | [] => true
  | EvAcquireLock :: rest =>
      match rest with
      | EvReleaseLock :: rest' => well_locked rest'
      | _ => false
      end
  | EvReleaseLock :: _ => false
  | _ :: rest => well_locked rest
  end.

(** Events that are not about the lock. *)
Definition lockless (e : Event) : Prop :=
  match e with
  | EvAcquireLock | EvReleaseLock => False
  | _ => True
  end.

(** ** Vocabulary for the order of commands *)

(** The command document a call of the controller builds; a call of
    [start_p3dpython] builds none. *)
Definition call_document (insts : gmap InstPtr P3DInstance) (c : ControllerCall)
  : option TiXmlDocument :=
  match c with
  | CallStartInstance _ inst => start_instance_document <$> insts !! inst
  | CallTerminateInstance inst => terminate_instance_document <$> insts !! inst
  | CallStartP3dpython _ => None
  end.

Definition call_documents (insts : gmap InstPtr P3DInstance) (cs : list ControllerCall)
  : option (list TiXmlDocument) :=
  mapM (call_document insts) cs.

(** A call on an instance: [start_instance] or [terminate_instance]. *)
Definition is_instance_call (c : ControllerCall) : Prop :=
  match c with
  | CallStartP3dpython _ => False
  | _ => True
  end.

(** Two stores of instances whose instances build the same commands. *)
Definition same_documents (insts insts' : gmap InstPtr P3DInstance) : Prop :=
  ∀ c, call_document insts' c = call_document insts c.

(** ** More of the scenario *)

(** The world after the first [start_instance], with a third instance
    at the address 3 that has the id of the first. *)
Definition scenario_twin : World :=
  {| session := session scenario_queued;
     instances := <[3%positive := scenario_instance 7]> (instances scenario_queued);
     docs := docs scenario_queued;
     trace := trace scenario_queued |}.

(** An operating system where the pipe to the child cannot be created. *)
Definition scenario_os_no_pipe : OS :=
  {| os_environ := os_environ scenario_os;
     os_pipe_to := None;
     os_pipe_from := os_pipe_from scenario_os;
     os_std_error := os_std_error scenario_os;
     os_create_file := os_create_file scenario_os;
     os_create_process := os_create_process scenario_os;
     os_create_thread := os_create_thread scenario_os;
     os_wait_timed_out := os_wait_timed_out scenario_os;
     os_set_filename := os_set_filename scenario_os;
     os_pending_read := os_pending_read scenario_os |}.

(** * Properties *)

(** ** Traces *)

Lemma pipe_written_app evs1 evs2 :
  pipe_written (evs1 ++ evs2) = pipe_written evs1 ++ pipe_written evs2.
Proof. apply omap_app. Qed.

Lemma deleted_app evs1 evs2 : deleted (evs1 ++ evs2) = deleted evs1 ++ deleted evs2.
Proof. apply omap_app. Qed.

Lemma stop_requests_app evs1 evs2 :
  stop_requests (evs1 ++ evs2) = stop_requests evs1 ++ stop_requests evs2.
Proof. apply omap_app. Qed.

Lemma downloads_started_app evs1 evs2 :
  downloads_started (evs1 ++ evs2) = downloads_started evs1 ++ downloads_started evs2.
Proof. apply omap_app. Qed.

Lemma processes_created_app evs1 evs2 :
  processes_created (evs1 ++ evs2) = processes_created evs1 ++ processes_created evs2.
Proof. apply omap_app. Qed.

Lemma joins_app evs1 evs2 : joins (evs1 ++ evs2) = joins evs1 ++ joins evs2.
Proof. apply omap_app. Qed.

Lemma quiet_pipe_written evs : Forall quiet evs → pipe_written evs = [].
Proof.
  induction 1 as [|e evs He _ IH]; [done|].
  destruct e; cbn in *; done.
Qed.

Lemma quiet_deleted evs : Forall quiet evs → deleted evs = [].
Proof.
  induction 1 as [|e evs He _ IH]; [done|].
  destruct e; cbn in *; done.
Qed.

Lemma quiet_stop_requests evs : Forall quiet evs → stop_requests evs = [].
Proof.
  induction 1 as [|e evs He _ IH]; [done|].
  destruct e; cbn in *; done.
Qed.

Lemma quiet_downloads_started evs : Forall quiet evs → downloads_started evs = [].
Proof.
  induction 1 as [|e evs He _ IH]; [done|].
  destruct e; cbn in *; done.
Qed.

(** ** send_command *)

Lemma send_command_running w command d :
  _python_state (session w) = PS_running →
  docs w !! command = Some d →
  send_command command w =
    Ok tt {| session := session w; instances := instances w;
             docs := delete command (docs w);
             trace := trace w ++ [EvPipeWrite d; EvPipeFlush; EvDelete command] |}.
Proof.
  intros Hst Hd. unfold send_command, bind, get_session. rewrite Hst.
  unfold deref_doc. rewrite Hd. cbn. unfold delete_doc. cbn. rewrite Hd.
  by rewrite <- !app_assoc.
Qed.

Lemma send_command_not_running w command :
  _python_state (session w) ≠ PS_running →
  send_command command w =
    Ok tt {| session := set_commands (_commands (session w) ++ [command]) (session w);
             instances := instances w; docs := docs w; trace := trace w |}.
Proof.
  intros Hst. unfold send_command, bind, get_session.
  by destruct (_python_state (session w)).
Qed.

(** ** start_p3dpython *)

Ltac norm_trace :=
  repeat rewrite <- app_assoc; cbn [app].

Ltac world_simpl :=
  cbn [session instances docs trace
       _python_state _commands _read_thread_continue _started_read_thread
       _output_filename _python_root_dir _p3dpython _pipe_read _pipe_write
       _instances _read_thread _session_key _python_version
       set_python_state set_commands set_read_thread_continue
       set_started_read_thread set_pipe_read set_pipe_write set_p3dpython
       set_read_thread set_instances].

Ltac run_m :=
  unfold cerr, sys, emit, bind, ret, get_session, modify_session, assert, abort,
    hs_open;
  cbn [bind ret emit cerr sys get_session modify_session assert abort
       session instances docs trace fst snd negb is_some
       fmap option_fmap option_map hs_good hs_eof hs_handle
       _python_state _commands _read_thread_continue _started_read_thread
       _output_filename _python_root_dir _p3dpython _pipe_read _pipe_write
       _instances _read_thread _session_key _python_version
       set_python_state set_commands set_read_thread_continue
       set_started_read_thread set_pipe_read set_pipe_write set_p3dpython
       set_read_thread set_instances].

Lemma start_p3dpython_failure os w :
  os_create_process os = None →
  ∃ evs, Forall quiet evs ∧ processes_created evs = [false] ∧
    threads_created evs = [] ∧
    last evs = Some (EvCerr ("Failed to create process." +:+ nl)) ∧
    start_p3dpython os w =
      Ok tt {| session := opened_session os (session w);
               instances := instances w; docs := docs w;
               trace := trace w ++ evs |}.
Proof.
  intros Hcp. unfold start_p3dpython, opened_session, pipe_w_to, pipe_r_from.
  rewrite Hcp. run_m.
  destruct (os_pipe_to os) as [[r1 w1]|], (os_pipe_from os) as [[r2 w2]|],
    (bool_decide (_output_filename (session w) = "")), (os_create_file os) as [fh|];
    run_m; norm_trace; run_m;
    (eexists; split; [|split; [|split; [|split; [|reflexivity]]]];
     [repeat constructor | reflexivity | reflexivity | reflexivity]).
Qed.

Lemma start_p3dpython_success os w pi :
  os_create_process os = Some pi →
  _read_thread_continue (session w) = false →
  ∃ evs, Forall quiet evs ∧ processes_created evs = [true] ∧
    start_p3dpython os w =
      (feed_commands (_commands (session w));;;
       emit EvPipeFlush;;;
       modify_session (set_commands []))
        {| session := spawned_session os pi (session w);
           instances := instances w; docs := docs w;
           trace := trace w ++ evs |}.
Proof.
  intros Hcp Hcont.
  unfold start_p3dpython, spawn_read_thread, spawned_session, opened_session,
    pipe_w_to, pipe_r_from.
  rewrite Hcp. run_m.
  destruct (os_pipe_to os) as [[r1 w1]|], (os_pipe_from os) as [[r2 w2]|],
    (bool_decide (_output_filename (session w) = "")), (os_create_file os) as [fh|];
    run_m; rewrite Hcont; run_m; norm_trace; run_m;
    (eexists; split; [|split; [|reflexivity]]; [repeat constructor | reflexivity]).
Qed.

Lemma start_p3dpython_respawn os w pi :
  os_create_process os = Some pi →
  _read_thread_continue (session w) = true →
  ∃ w', start_p3dpython os w = Abort "assertion failed" w'.
Proof.
  intros Hcp Hcont. unfold start_p3dpython, spawn_read_thread.
  rewrite Hcp. run_m.
  destruct (os_pipe_to os) as [[r1 w1]|], (os_pipe_from os) as [[r2 w2]|],
    (bool_decide (_output_filename (session w) = "")), (os_create_file os) as [fh|];
    run_m; rewrite Hcont; eexists; reflexivity.
Qed.

(** ** The heap *)

Lemma delete_all_lookup cs (heap : gmap DocPtr TiXmlDocument) p :
  delete_all cs heap !! p = if decide (p ∈ cs) then None else heap !! p.
Proof.
  induction cs as [|c cs IH].
  - cbn. by rewrite decide_False by apply not_elem_of_nil.
  - change (delete_all (c :: cs) heap) with (delete c (delete_all cs heap)).
    destruct (decide (c = p)) as [->|Hne].
    + rewrite lookup_delete_eq, decide_True; [done|]. apply elem_of_cons; auto.
    + rewrite lookup_delete_ne by done. rewrite IH.
      destruct (decide (p ∈ cs)) as [Hin|Hin].
      * rewrite decide_True; [done|]. apply elem_of_cons; auto.
      * rewrite decide_False; [done|]. rewrite elem_of_cons. by intros [->|?].
Qed.

Lemma delete_all_delete cs c (heap : gmap DocPtr TiXmlDocument) :
  delete_all cs (delete c heap) = delete c (delete_all cs heap).
Proof.
  induction cs as [|c' cs IH]; [done|].
  change (delete_all (c' :: cs) ?h) with (delete c' (delete_all cs h)).
  by rewrite IH, delete_delete.
Qed.

Lemma delete_all_app cs1 cs2 (heap : gmap DocPtr TiXmlDocument) :
  delete_all (cs1 ++ cs2) heap = delete_all cs1 (delete_all cs2 heap).
Proof. unfold delete_all. apply foldr_app. Qed.

Lemma documents_at_cons heap c cs ds :
  documents_at heap (c :: cs) = Some ds ↔
  ∃ d ds', ds = d :: ds' ∧ heap !! c = Some d ∧ documents_at heap cs = Some ds'.
Proof.
  unfold documents_at. rewrite mapM_Some. split.
  - intros H. inversion H as [|? d ? ds' Hd Hrest]; subst.
    exists d, ds'. by rewrite mapM_Some.
  - intros (d & ds' & -> & Hd & Hrest). constructor; [done|]. by apply mapM_Some.
Qed.

Lemma documents_at_delete heap c cs ds :
  c ∉ cs → documents_at heap cs = Some ds → documents_at (delete c heap) cs = Some ds.
Proof.
  unfold documents_at. rewrite !mapM_Some. intros Hc H.
  induction H as [|p d cs ds Hd _ IH]; constructor.
  - rewrite lookup_delete_ne; [done|]. intros ->. apply Hc, elem_of_cons; auto.
  - apply IH. intros Hin. apply Hc, elem_of_cons; auto.
Qed.

Lemma documents_at_app heap cs1 cs2 ds :
  documents_at heap (cs1 ++ cs2) = Some ds ↔
  ∃ ds1 ds2, ds = ds1 ++ ds2 ∧ documents_at heap cs1 = Some ds1
             ∧ documents_at heap cs2 = Some ds2.
Proof.
  unfold documents_at. rewrite mapM_Some. split.
  - intros H. apply Forall2_app_inv_l in H as (ds1 & ds2 & H1 & H2 & ->).
    exists ds1, ds2. by rewrite !mapM_Some.
  - intros (ds1 & ds2 & -> & H1 & H2). apply Forall2_app; by apply mapM_Some.
Qed.

Lemma documents_at_length heap cs ds :
  documents_at heap cs = Some ds → length ds = length cs.
Proof.
  unfold documents_at. rewrite mapM_Some. intros H. symmetry.
  by eapply Forall2_length.
Qed.

(** ** The loops over the queue *)

Lemma fed_pipe_written cs ds :
  length ds = length cs → pipe_written (fed cs ds) = ds.
Proof.
  revert ds. induction cs as [|c cs IH]; intros [|d ds] Hlen; try done.
  cbn in *. f_equal. apply IH. lia.
Qed.

Lemma fed_deleted cs ds :
  length ds = length cs → deleted (fed cs ds) = cs.
Proof.
  revert ds. induction cs as [|c cs IH]; intros [|d ds] Hlen; try done.
  cbn in *. f_equal. apply IH. lia.
Qed.

Lemma feed_commands_ok cs : ∀ w ds,
  NoDup cs →
  documents_at (docs w) cs = Some ds →
  feed_commands cs w =
    Ok tt {| session := session w; instances := instances w;
             docs := delete_all cs (docs w);
             trace := trace w ++ fed cs ds |}.
Proof.
  induction cs as [|c cs IH]; intros w ds Hnd Hds.
  - apply mapM_Some in Hds. inversion Hds; subst. cbn.
    rewrite app_nil_r. by destruct w.
  - apply documents_at_cons in Hds as (d & ds' & -> & Hd & Hds).
    apply NoDup_cons in Hnd as [Hc Hnd].
    cbn [feed_commands]. unfold deref_doc, delete_doc. run_m.
    rewrite Hd. run_m. rewrite Hd.
    rewrite (IH _ ds'); [|done|by apply documents_at_delete].
    run_m. norm_trace. by rewrite delete_all_delete.
Qed.

Lemma delete_commands_ok cs : ∀ w,
  NoDup cs →
  (∀ p, p ∈ cs → is_Some (docs w !! p)) →
  delete_commands cs w =
    Ok tt {| session := session w; instances := instances w;
             docs := delete_all cs (docs w);
             trace := trace w ++ (EvDelete <$> cs) |}.
Proof.
  induction cs as [|c cs IH]; intros w Hnd Hlive.
  - cbn. rewrite app_nil_r. by destruct w.
  - apply NoDup_cons in Hnd as [Hc Hnd].
    destruct (Hlive c) as [d Hd]; [apply elem_of_cons; auto|].
    cbn [delete_commands]. unfold delete_doc. run_m. rewrite Hd.
    rewrite IH; [|done|].
    + run_m. norm_trace. by rewrite delete_all_delete.
    + intros p Hp. cbn. rewrite lookup_delete_ne.
      * apply Hlive, elem_of_cons; auto.
      * intros ->. done.
Qed.

Lemma send_commands_not_running cs : ∀ w,
  _python_state (session w) ≠ PS_running →
  send_commands cs w =
    Ok tt {| session := set_commands (_commands (session w) ++ cs) (session w);
             instances := instances w; docs := docs w; trace := trace w |}.
Proof.
  induction cs as [|c cs IH]; intros w Hst.
  - cbn. rewrite app_nil_r. by destruct w as [[] ? ? ?].
  - cbn [send_commands]. unfold bind. rewrite send_command_not_running by done.
    rewrite IH by done. cbn. by rewrite <- app_assoc.
Qed.

(** Commands sent before Python runs and the spawn that follows: the
    queue grows by the commands sent, and a [start_p3dpython] that
    creates the process writes it out in order. *)
Lemma feed_after_send os w cmds ds pi :
  _python_state (session w) = PS_init →
  _read_thread_continue (session w) = false →
  os_create_process os = Some pi →
  NoDup (_commands (session w) ++ cmds) →
  documents_at (docs w) (_commands (session w) ++ cmds) = Some ds →
  ∃ w1 w2,
    send_commands cmds w = Ok tt w1 ∧
    _commands (session w1) = _commands (session w) ++ cmds ∧
    trace w1 = trace w ∧
    start_p3dpython os w1 = Ok tt w2 ∧
    _python_state (session w2) = PS_running ∧
    _commands (session w2) = [] ∧
    pipe_written (trace w2) = pipe_written (trace w) ++ ds ∧
    last (trace w2) = Some EvPipeFlush ∧
    deleted (trace w2) = deleted (trace w) ++ _commands (session w) ++ cmds ∧
    docs w2 = delete_all (_commands (session w) ++ cmds) (docs w).
Proof.
  intros Hst Hcont Hcp Hnd Hds.
  assert (Hnr : _python_state (session w) ≠ PS_running) by (by rewrite Hst).
  set (w1 := {| session := set_commands (_commands (session w) ++ cmds) (session w);
                instances := instances w; docs := docs w; trace := trace w |}).
  destruct (start_p3dpython_success os w1 pi) as (evs & Hq & _ & Hrun); [done..|].
  exists w1. eexists.
  split; [by apply send_commands_not_running|].
  split; [done|]. split; [done|].
  rewrite Hrun. subst w1. unfold bind at 1. cbn [session _commands set_commands docs].
  erewrite feed_commands_ok; [|done|exact Hds].
  run_m. split; [reflexivity|].
  pose proof (documents_at_length _ _ _ Hds) as Hlen.
  repeat split; cbn [trace].
  - rewrite !pipe_written_app, (quiet_pipe_written evs Hq), fed_pipe_written by done.
    cbn. by rewrite !app_nil_r.
  - by rewrite last_snoc.
  - rewrite !deleted_app, (quiet_deleted evs Hq), fed_deleted by done.
    cbn. by rewrite !app_nil_r.
Qed.

(** ** terminate_instance *)

Lemma next_doc_fresh w : docs w !! next_doc w = None.
Proof.
  unfold next_doc. apply (not_elem_of_dom (docs w)).
  apply (is_fresh (dom (docs w))).
Qed.

Ltac heap_simpl :=
  repeat first
    [ rewrite lookup_insert_eq
    | rewrite insert_insert_eq
    | rewrite delete_insert_eq
    | rewrite next_doc_fresh ].

Lemma terminate_instance_spec this inst w i :
  instances w !! inst = Some i →
  terminate_instance this inst w = Ok tt (terminated this inst i w).
Proof.
  intros Hi.
  unfold terminated, terminate_instance_document, sent.
  set (p := next_doc w).
  unfold terminate_instance, new_TiXmlDocument, deref_inst, store_doc, send_command,
    deref_doc, delete_doc, assign_inst_session, instances_erase.
  run_m. fold (next_doc w). fold p. rewrite Hi. run_m. heap_simpl.
  destruct (_python_state (session w)) eqn:Hst,
    (bool_decide (_session i = Some this)) eqn:Hatt;
    repeat (run_m; heap_simpl; rewrite ?Hi, ?Hst, ?Hatt);
    norm_trace;
    rewrite ?(delete_id (docs w) p) by apply next_doc_fresh;
    subst p; destruct w as [[] ? ? ?]; cbn in Hst; subst; reflexivity.
Qed.

Lemma terminate_instance_inv this inst w w' :
  terminate_instance this inst w = Ok tt w' →
  ∃ i, instances w !! inst = Some i ∧ w' = terminated this inst i w.
Proof.
  intros Hrun. destruct (instances w !! inst) as [i|] eqn:Hi.
  - exists i. split; [done|].
    rewrite (terminate_instance_spec this inst w i Hi) in Hrun. by inversion Hrun.
  - revert Hrun. unfold terminate_instance, new_TiXmlDocument, deref_inst.
    run_m. by rewrite Hi.
Qed.

(** C4.  [terminate_instance] on a live instance always builds a
    [terminate_instance] command whose [id] attribute is the decimal
    form of the instance's id (and of no other integer), and writes it
    to the pipe when Python is running or else appends it to
    [_commands].  The locked region comes after that: when the
    instance's [_session] is this session, the entry under the
    instance's id is erased from [_instances] and [_session] becomes
    NULL; when [_session] is another session or NULL, neither
    [_instances] nor any instance object changes. *)
Theorem terminate_instance_detaches_own this inst w i :
  instances w !! inst = Some i →
  ∃ w' d evs,
    terminate_instance this inst w = Ok tt w' ∧
    is_command "terminate_instance" d ∧
    command_attribute "id" d = Some (pretty (get_instance_id i)) ∧
    (∀ z : Z, command_attribute "id" d = Some (pretty z) → z = get_instance_id i) ∧
    (_python_state (session w) = PS_running →
       pipe_written (trace w') = pipe_written (trace w) ++ [d]
       ∧ _commands (session w') = _commands (session w)) ∧
    (_python_state (session w) ≠ PS_running →
       pipe_written (trace w') = pipe_written (trace w)
       ∧ _commands (session w') = _commands (session w) ++ [next_doc w]
       ∧ docs w' !! next_doc w = Some d) ∧
    trace w' = trace w ++ evs ++ [EvAcquireLock; EvReleaseLock] ∧
    (_session i = Some this →
       _instances (session w') = delete (get_instance_id i) (_instances (session w))
       ∧ instances w' = <[inst := set_inst_session None i]> (instances w)
       ∧ (_session <$> instances w' !! inst) = Some None) ∧
    (_session i ≠ Some this →
       _instances (session w') = _instances (session w)
       ∧ instances w' = instances w).
Proof.
  intros Hi. rewrite (terminate_instance_spec this inst w i Hi).
  unfold terminated, terminate_instance_document, sent.
  eexists.
  exists {| doc_children :=
              [TiXmlDeclaration "1.0" "" "";
               TiXmlElement "command"
                 [("cmd", "terminate_instance"); ("id", pretty (get_instance_id i))]
                 []] |}.
  exists (EvNew (next_doc w) ::
            if bool_decide (_python_state (session w) = PS_running)
            then [EvPipeWrite
                    {| doc_children :=
                         [TiXmlDeclaration "1.0" "" "";
                          TiXmlElement "command"
                            [("cmd", "terminate_instance");
                             ("id", pretty (get_instance_id i))]
                            []] |};
                  EvPipeFlush; EvDelete (next_doc w)]
            else []).
  split; [reflexivity|].
  split; [by eexists _, _|].
  split; [reflexivity|].
  split. { cbn. intros z [= Hz]. by apply (inj pretty) in Hz. }
  cbn [session trace docs instances _commands _instances set_instances set_commands].
  split; [|split; [|split; [|split]]].
  - intros Hst. rewrite bool_decide_eq_true_2 by done.
    rewrite !pipe_written_app. cbn. by rewrite ?app_nil_r.
  - intros Hst. rewrite bool_decide_eq_false_2 by done.
    rewrite !pipe_written_app. cbn. rewrite ?app_nil_r. by rewrite lookup_insert_eq.
  - reflexivity.
  - intros Hatt. rewrite bool_decide_eq_true_2 by done.
    by rewrite lookup_insert_eq.
  - intros Hatt. by rewrite bool_decide_eq_false_2 by done.
Qed.

(** ** start_instance *)

Lemma start_instance_spec this os inst w i :
  may_start w inst i →
  start_instance this os inst w = Ok tt (started this os inst i w).
Proof.
  intros (Hi & Hnull & Hkey & Hver & Hfree).
  unfold start_instance, started, sent, download_events, new_TiXmlDocument, deref_inst,
    store_doc, send_command, deref_doc, delete_doc, assign_inst_session,
    instances_insert, download_p3dpython.
  run_m. rewrite Hi. run_m.
  rewrite !bool_decide_eq_true_2 by done. run_m. rewrite Hi. run_m.
  rewrite Hfree. run_m. fold (next_doc w). heap_simpl.
  destruct (_python_state (session w)) eqn:Hst, (os_set_filename os) eqn:Hfn;
    repeat (run_m; heap_simpl; rewrite ?Hst, ?Hfn);
    norm_trace;
    rewrite ?(delete_id (docs w) (next_doc w)) by apply next_doc_fresh;
    destruct w as [[] ? ? ?]; cbn in Hst; subst; reflexivity.
Qed.

Lemma start_instance_inv this os inst w w' :
  start_instance this os inst w = Ok tt w' →
  ∃ i, may_start w inst i ∧ w' = started this os inst i w.
Proof.
  intros Hrun.
  destruct (instances w !! inst) as [i|] eqn:Hi.
  2: { revert Hrun. unfold start_instance, deref_inst. run_m. by rewrite Hi. }
  exists i.
  destruct (decide (_session i = None)) as [Hnull|Hnull].
  2: { revert Hrun. unfold start_instance, deref_inst. run_m. rewrite Hi. run_m.
       by rewrite (bool_decide_eq_false_2 _ Hnull). }
  destruct (decide (get_session_key i = _session_key (session w))) as [Hkey|Hkey].
  2: { revert Hrun. unfold start_instance, deref_inst. run_m. rewrite Hi. run_m.
       rewrite (bool_decide_eq_true_2 _ Hnull). run_m.
       by rewrite (bool_decide_eq_false_2 _ Hkey). }
  destruct (decide (get_python_version i = _python_version (session w))) as [Hver|Hver].
  2: { revert Hrun. unfold start_instance, deref_inst. run_m. rewrite Hi. run_m.
       rewrite (bool_decide_eq_true_2 _ Hnull). run_m.
       rewrite (bool_decide_eq_true_2 _ Hkey). run_m.
       by rewrite (bool_decide_eq_false_2 _ Hver). }
  destruct (_instances (session w) !! get_instance_id i) as [other|] eqn:Hfree.
  { revert Hrun. unfold start_instance, deref_inst, assign_inst_session, instances_insert.
    run_m. rewrite Hi. run_m.
    rewrite (bool_decide_eq_true_2 _ Hnull). run_m.
    rewrite (bool_decide_eq_true_2 _ Hkey). run_m.
    rewrite (bool_decide_eq_true_2 _ Hver). run_m. rewrite Hi. run_m.
    by rewrite Hfree. }
  assert (Hok : may_start w inst i) by done.
  split; [done|].
  rewrite (start_instance_spec this os inst w i Hok) in Hrun. by inversion Hrun.
Qed.

(** ** The read thread *)

Lemma threads_created_app evs1 evs2 :
  threads_created (evs1 ++ evs2) = threads_created evs1 ++ threads_created evs2.
Proof. apply omap_app. Qed.

Lemma stop_requests_stop_events insts :
  stop_requests (stop_event <$> insts) = insts.
Proof.
  induction insts as [|inst insts IH]; [done|].
  change (stop_requests (stop_event <$> inst :: insts))
    with (inst :: stop_requests (stop_event <$> insts)).
  by rewrite IH.
Qed.

Lemma rt_terminate_loop_spec icopy : ∀ w,
  rt_terminate_loop icopy w =
    Ok tt {| session := session w; instances := instances w; docs := docs w;
             trace := trace w ++ (stop_event <$> icopy.*2) |}.
Proof.
  induction icopy as [|[k inst] icopy IH]; intros w.
  - cbn. rewrite app_nil_r. by destruct w.
  - cbn [rt_terminate_loop]. unfold post_stop. run_m. rewrite IH. run_m.
    by norm_trace.
Qed.

Lemma rt_terminate_spec w :
  rt_terminate w =
    Ok tt {| session := session w; instances := instances w; docs := docs w;
             trace := trace w ++ [EvAcquireLock; EvReleaseLock]
                        ++ (stop_event <$> (instances_in_order (_instances (session w))).*2) |}.
Proof.
  unfold rt_terminate. run_m. rewrite rt_terminate_loop_spec. run_m. by norm_trace.
Qed.

Lemma set_pipe_read_id s : set_pipe_read (_pipe_read s) s = s.
Proof. by destruct s. Qed.

(** One turn of the loop on a document that arrives whole. *)
Lemma rt_thread_turn_doc d w :
  rt_thread_turn (ReadDoc d) w =
    Ok true
      {| session := session w; instances := instances w; docs := docs w;
         trace := trace w ++ read_events (next_doc w) d |}.
Proof.
  unfold rt_thread_turn, new_TiXmlDocument, store_doc, delete_doc. run_m.
  fold (next_doc w). cbn [hs_after_read]. rewrite set_pipe_read_id.
  repeat (run_m; heap_simpl). norm_trace.
  by rewrite (delete_id (docs w) (next_doc w)) by apply next_doc_fresh.
Qed.

(** One turn of the loop on a read that fails or hits the end. *)
Lemma rt_thread_turn_error r w :
  r = ReadFail ∨ r = ReadEof →
  rt_thread_turn r w =
    Ok false
      {| session := set_pipe_read (hs_after_read r (_pipe_read (session w))) (session w);
         instances := instances w;
         docs := <[next_doc w := empty_document]> (docs w);
         trace := trace w
           ++ failed_read_events (next_doc w) r
                (instances_in_order (_instances (session w))).*2 |}.
Proof.
  intros Hr. unfold rt_thread_turn, new_TiXmlDocument, failed_read_events. run_m.
  fold (next_doc w).
  destruct Hr as [-> | ->]; run_m; rewrite rt_terminate_spec; run_m; by norm_trace.
Qed.

Lemma rt_thread_loop_doc d rest w :
  _read_thread_continue (session w) = true →
  rt_thread_loop (ReadDoc d :: rest) w =
    rt_thread_loop rest
      {| session := session w; instances := instances w; docs := docs w;
         trace := trace w ++ read_events (next_doc w) d |}.
Proof.
  intros Hcont. cbn [rt_thread_loop]. unfold bind at 1, get_session. rewrite Hcont.
  unfold bind at 1. by rewrite rt_thread_turn_doc.
Qed.

Lemma rt_thread_loop_error r rest w :
  _read_thread_continue (session w) = true →
  r = ReadFail ∨ r = ReadEof →
  rt_thread_loop (r :: rest) w =
    Ok (ReaderReturned, rest)
      {| session := set_pipe_read (hs_after_read r (_pipe_read (session w))) (session w);
         instances := instances w;
         docs := <[next_doc w := empty_document]> (docs w);
         trace := trace w
           ++ failed_read_events (next_doc w) r
                (instances_in_order (_instances (session w))).*2 |}.
Proof.
  intros Hcont Hr. cbn [rt_thread_loop]. unfold bind at 1, get_session. rewrite Hcont.
  unfold bind at 1. by rewrite rt_thread_turn_error.
Qed.

Lemma rt_thread_loop_stopped inbound w :
  _read_thread_continue (session w) = false →
  rt_thread_loop inbound w = Ok (ReaderReturned, inbound) w.
Proof.
  intros Hcont. destruct inbound; cbn [rt_thread_loop]; run_m; by rewrite Hcont.
Qed.

Lemma rt_thread_loop_blocked w :
  _read_thread_continue (session w) = true →
  rt_thread_loop [] w = Ok (ReaderBlocked, []) w.
Proof.
  intros Hcont. cbn [rt_thread_loop]. run_m. by rewrite Hcont.
Qed.

(** The thread says that it reads, then runs its loop. *)
Lemma rt_thread_run_loop inbound w :
  rt_thread_run inbound w =
    rt_thread_loop inbound
      {| session := session w; instances := instances w; docs := docs w;
         trace := trace w ++ [EvCerr ("session thread reading." +:+ nl)] |}.
Proof. unfold rt_thread_run. by run_m. Qed.

(** What the read thread does while the controller waits for it. *)
Lemma rt_thread_last_spec pending w :
  rt_thread_last pending w =
    Ok tt
      {| session := set_pipe_read (last_stream pending (_pipe_read (session w))) (session w);
         instances := instances w;
         docs := last_heap pending (next_doc w) (docs w);
         trace := trace w
           ++ last_events pending (next_doc w)
                (instances_in_order (_instances (session w))).*2 |}.
Proof.
  unfold rt_thread_last, last_stream, last_heap, last_events.
  destruct pending; cbn [pending_outcome].
  - unfold ret. rewrite set_pipe_read_id, app_nil_r. by destruct w.
  - unfold bind. by rewrite rt_thread_turn_error by auto.
  - unfold bind. by rewrite rt_thread_turn_error by auto.
Qed.

Lemma stop_events_silent insts :
  pipe_written (stop_event <$> insts) = []
  ∧ processes_created (stop_event <$> insts) = []
  ∧ threads_created (stop_event <$> insts) = []
  ∧ deleted (stop_event <$> insts) = [].
Proof. by induction insts. Qed.

Lemma reader_changes_refl w : reader_changes w w.
Proof.
  split; [|split; [|split]].
  - exists (_pipe_read (session w)). by rewrite set_pipe_read_id.
  - done.
  - done.
  - exists []. by rewrite app_nil_r.
Qed.

Lemma reader_changes_trans w1 w2 w3 :
  reader_changes w1 w2 → reader_changes w2 w3 → reader_changes w1 w3.
Proof.
  intros ([pr1 Hs1] & Hi1 & Hd1 & evs1 & Ht1 & Hw1 & Hp1 & Hc1)
         ([pr2 Hs2] & Hi2 & Hd2 & evs2 & Ht2 & Hw2 & Hp2 & Hc2).
  split; [|split; [|split]].
  - exists pr2. by rewrite Hs2, Hs1.
  - by rewrite Hi2.
  - by etrans.
  - exists (evs1 ++ evs2). rewrite Ht2, Ht1, <- app_assoc.
    by rewrite pipe_written_app, processes_created_app, threads_created_app,
      Hw1, Hw2, Hp1, Hp2, Hc1, Hc2.
Qed.

Lemma failed_read_events_silent p r insts :
  pipe_written (failed_read_events p r insts) = []
  ∧ processes_created (failed_read_events p r insts) = []
  ∧ threads_created (failed_read_events p r insts) = []
  ∧ deleted (failed_read_events p r insts) = [].
Proof.
  unfold failed_read_events.
  rewrite pipe_written_app, processes_created_app, threads_created_app, deleted_app.
  by destruct (stop_events_silent insts) as (-> & -> & -> & ->).
Qed.

Lemma last_events_silent pending p insts :
  pipe_written (last_events pending p insts) = []
  ∧ processes_created (last_events pending p insts) = []
  ∧ threads_created (last_events pending p insts) = []
  ∧ deleted (last_events pending p insts) = [].
Proof.
  unfold last_events. destruct (pending_outcome pending) as [r|]; [|done].
  apply failed_read_events_silent.
Qed.

(** The read thread terminates no process. *)
Lemma last_events_no_terminate pending p insts :
  Forall (λ e, ∀ h code, e ≠ EvSys (TerminateProcess h code))
    (last_events pending p insts).
Proof.
  unfold last_events, failed_read_events.
  destruct (pending_outcome pending) as [r|]; [|constructor].
  repeat (constructor; [by intros ? ?|]).
  induction insts as [|inst insts IH]; [constructor|].
  constructor; [by intros ? ?|exact IH].
Qed.

(** The stops the read thread posts while the controller waits for it:
    one to each registered instance when a read was pending, none
    otherwise. *)
Lemma last_events_stop_requests pending p insts :
  stop_requests (last_events pending p insts) =
    if pending_outcome pending is Some _ then insts else [].
Proof.
  unfold last_events, failed_read_events.
  destruct (pending_outcome pending) as [r|]; [|done].
  rewrite stop_requests_app, stop_requests_stop_events. by destruct r.
Qed.

Lemma rt_thread_loop_changes inbound : ∀ w r w',
  rt_thread_loop inbound w = Ok r w' → reader_changes w w'.
Proof.
  induction inbound as [|o rest IH]; intros w r w' Hrun;
    destruct (_read_thread_continue (session w)) eqn:Hcont.
  - rewrite rt_thread_loop_blocked in Hrun by done. inversion Hrun; subst.
    apply reader_changes_refl.
  - rewrite rt_thread_loop_stopped in Hrun by done. inversion Hrun; subst.
    apply reader_changes_refl.
  - assert (Herr : o = ReadFail ∨ o = ReadEof →
              rt_thread_loop (o :: rest) w = Ok r w' → reader_changes w w').
    { intros Ho Hrun'. rewrite (rt_thread_loop_error o) in Hrun' by done.
      inversion Hrun'; subst.
      split; [|split; [|split]]; cbn [session instances docs trace].
      - by eexists.
      - done.
      - apply insert_subseteq, next_doc_fresh.
      - eexists. split; [reflexivity|].
        destruct (failed_read_events_silent (next_doc w) o
                    ((instances_in_order (_instances (session w))).*2))
          as (H1 & H2 & H3 & _).
        split_and!; [exact H1|exact H2|exact H3]. }
    destruct o as [d| |]; [|by apply Herr; auto|by apply Herr; auto].
    rewrite rt_thread_loop_doc in Hrun by done. apply IH in Hrun.
    eapply reader_changes_trans; [|exact Hrun].
    split; [|split; [|split]]; cbn.
    + exists (_pipe_read (session w)). by rewrite set_pipe_read_id.
    + done.
    + done.
    + by exists (read_events (next_doc w) d).
  - rewrite rt_thread_loop_stopped in Hrun by done. inversion Hrun; subst.
    apply reader_changes_refl.
Qed.

Lemma rt_thread_run_changes inbound w r w' :
  rt_thread_run inbound w = Ok r w' → reader_changes w w'.
Proof.
  rewrite rt_thread_run_loop. intros Hrun. apply rt_thread_loop_changes in Hrun.
  eapply reader_changes_trans; [|exact Hrun].
  split; [|split; [|split]]; cbn [session instances docs trace].
  - exists (_pipe_read (session w)). by rewrite set_pipe_read_id.
  - done.
  - done.
  - by eexists.
Qed.

(** ** The invariants of a session *)

Lemma download_events_silent os inst :
  pipe_written (download_events os inst) = []
  ∧ processes_created (download_events os inst) = []
  ∧ threads_created (download_events os inst) = []
  ∧ deleted (download_events os inst) = []
  ∧ stop_requests (download_events os inst) = [].
Proof. unfold download_events. by destruct (os_set_filename os). Qed.

Lemma construct_inv insts heap inst w :
  construct insts heap inst = Some w → session_inv w.
Proof.
  unfold construct. destruct (insts !! inst) as [i|]; [|done].
  intros [= <-]. split; cbn -[lookup].
  - by left.
  - done.
  - done.
  - split; [constructor|]. intros p Hp. by apply elem_of_nil in Hp.
  - intros k p Hk. cbn -[lookup] in Hk. by rewrite lookup_empty in Hk.
Qed.

Lemma start_instance_preserves this os inst w w' :
  session_inv w → start_instance this os inst w = Ok tt w' → session_inv w'.
Proof.
  intros [Hstate Hinit Hrun [Hnd Hlive] Hreg] Hstep.
  apply start_instance_inv in Hstep as (i & (Hi & Hnull & Hkey & Hver & Hfree) & ->).
  destruct (download_events_silent os inst) as (Hd1 & Hd2 & Hd3 & _).
  assert (Hreg' : registry_wf (started this os inst i w)).
  { intros k p. unfold started. world_simpl. intros Hk.
    destruct (decide (get_instance_id i = k)) as [<-|Hne].
    - rewrite lookup_insert_eq in Hk. injection Hk as <-.
      rewrite lookup_insert_eq. by eexists.
    - rewrite lookup_insert_ne in Hk by done.
      destruct (Hreg k p Hk) as (ip & Hip & Hid).
      destruct (decide (inst = p)) as [<-|Hnp].
      + rewrite lookup_insert_eq. eexists. split; [done|].
        rewrite Hi in Hip. by injection Hip as <-.
      + rewrite lookup_insert_ne by done. by eexists. }
  destruct Hstate as [Hst|Hst].
  - destruct (Hinit Hst) as (Hw & Hpc & Ht & Hs & Hc).
    split; [| | | |exact Hreg']; unfold started, sent; rewrite Hst;
      rewrite (bool_decide_eq_false_2 (PS_init = PS_running)) by done;
      rewrite ?(bool_decide_eq_true_2 (PS_init = PS_init)) by done; world_simpl;
      rewrite ?Hst.
    + by left.
    + intros _. rewrite !pipe_written_app, !processes_created_app, !threads_created_app.
      rewrite Hw, Ht, Hd1, Hd2, Hd3. cbn. by rewrite !app_nil_r.
    + done.
    + split; world_simpl.
      * apply NoDup_app. split; [done|]. split; [|apply NoDup_singleton].
        intros p Hp1 Hp2. apply list_elem_of_singleton in Hp2 as ->.
        destruct (Hlive _ Hp1) as [d Hd]. by rewrite next_doc_fresh in Hd.
      * intros p Hp. apply elem_of_app in Hp as [Hp|Hp].
        -- destruct (decide (next_doc w = p)) as [<-|Hne].
           ++ rewrite lookup_insert_eq. by eexists.
           ++ rewrite lookup_insert_ne by done. by apply Hlive.
        -- apply list_elem_of_singleton in Hp as ->. rewrite lookup_insert_eq. by eexists.
  - destruct (Hrun Hst) as (Hq & Hpi & Hs & Hc).
    split; [| | | |exact Hreg']; unfold started, sent; rewrite Hst;
      rewrite (bool_decide_eq_true_2 (PS_running = PS_running)) by done;
      rewrite ?(bool_decide_eq_false_2 (PS_running = PS_init)) by done; world_simpl;
      rewrite ?Hst.
    + by right.
    + done.
    + done.
    + split; world_simpl; [done|]. rewrite Hq. intros p Hp. by apply elem_of_nil in Hp.
Qed.

Lemma terminate_instance_preserves this inst w w' :
  session_inv w → terminate_instance this inst w = Ok tt w' → session_inv w'.
Proof.
  intros [Hstate Hinit Hrun [Hnd Hlive] Hreg] Hstep.
  apply terminate_instance_inv in Hstep as (i & Hi & ->).
  assert (Hreg' : registry_wf (terminated this inst i w)).
  { intros k p. unfold terminated. world_simpl. intros Hk.
    assert (Hk' : _instances (session w) !! k = Some p).
    { destruct (bool_decide (_session i = Some this)); [|done].
      apply lookup_delete_Some in Hk as [_ Hk]. done. }
    destruct (Hreg k p Hk') as (ip & Hip & Hid).
    destruct (bool_decide (_session i = Some this)); [|by eexists].
    destruct (decide (inst = p)) as [<-|Hnp].
    - rewrite lookup_insert_eq. eexists. split; [done|].
      rewrite Hi in Hip. by injection Hip as <-.
    - rewrite lookup_insert_ne by done. by eexists. }
  destruct Hstate as [Hst|Hst].
  - destruct (Hinit Hst) as (Hw & Hpc & Ht & Hs & Hc).
    split; [| | | |exact Hreg']; unfold terminated, sent; rewrite Hst;
      rewrite (bool_decide_eq_false_2 (PS_init = PS_running)) by done; world_simpl;
      rewrite ?Hst.
    + by left.
    + intros _. rewrite !pipe_written_app, !processes_created_app, !threads_created_app.
      rewrite Hw, Ht. cbn. by rewrite !app_nil_r.
    + done.
    + split; world_simpl.
      * apply NoDup_app. split; [done|]. split; [|apply NoDup_singleton].
        intros p Hp1 Hp2. apply list_elem_of_singleton in Hp2 as ->.
        destruct (Hlive _ Hp1) as [d Hd]. by rewrite next_doc_fresh in Hd.
      * intros p Hp. apply elem_of_app in Hp as [Hp|Hp].
        -- destruct (decide (next_doc w = p)) as [<-|Hne].
           ++ rewrite lookup_insert_eq. by eexists.
           ++ rewrite lookup_insert_ne by done. by apply Hlive.
        -- apply list_elem_of_singleton in Hp as ->. rewrite lookup_insert_eq. by eexists.
  - destruct (Hrun Hst) as (Hq & Hpi & Hs & Hc).
    split; [| | | |exact Hreg']; unfold terminated, sent; rewrite Hst;
      rewrite (bool_decide_eq_true_2 (PS_running = PS_running)) by done; world_simpl;
      rewrite ?Hst.
    + by right.
    + done.
    + done.
    + split; world_simpl; [done|]. rewrite Hq. intros p Hp. by apply elem_of_nil in Hp.
Qed.

Lemma start_p3dpython_preserves os w w' :
  session_inv w → start_p3dpython os w = Ok tt w' → session_inv w'.
Proof.
  intros [Hstate Hinit Hrun [Hnd Hlive] Hreg] Hstep.
  destruct (os_create_process os) as [pi|] eqn:Hcp.
  - destruct Hstate as [Hst|Hst].
    + destruct (Hinit Hst) as (Hw & Hpc & Ht & Hs & Hc).
      destruct (start_p3dpython_success os w pi Hcp Hc) as (evs & Hq & Hpe & Heq).
      rewrite Heq in Hstep. clear Heq.
      assert (∃ ds, documents_at (docs w) (_commands (session w)) = Some ds) as [ds Hds].
      { unfold documents_at. clear -Hlive.
        induction (_commands (session w)) as [|c cs IH].
        - by exists [].
        - destruct (Hlive c) as [d Hd]; [apply elem_of_cons; auto|].
          destruct IH as [ds Hds]; [intros p Hp; apply Hlive, elem_of_cons; auto|].
          exists (d :: ds). apply mapM_Some. constructor; [done|]. by apply mapM_Some. }
      unfold bind at 1 in Hstep.
      erewrite feed_commands_ok in Hstep; [|done|exact Hds].
      revert Hstep. run_m. intros [= <-].
      split; unfold spawned_session, opened_session; world_simpl.
      * by right.
      * done.
      * intros _. split_and!; [done| |done|done]. by eexists.
      * split; world_simpl; [constructor|]. intros p Hp. by apply elem_of_nil in Hp.
      * exact Hreg.
    + destruct (Hrun Hst) as (Hq & Hpi & Hs & Hc).
      destruct (start_p3dpython_respawn os w pi Hcp Hc) as [w0 Heq0]. by rewrite Heq0 in Hstep.
  - destruct (start_p3dpython_failure os w Hcp) as (evs & Hq & Hpe & Hte & _ & Heq).
    rewrite Heq in Hstep. injection Hstep as <-.
    split; unfold opened_session; world_simpl.
    + done.
    + intros Hst. destruct (Hinit Hst) as (Hw & Hpc & Ht & Hs & Hc).
      rewrite !pipe_written_app, !processes_created_app, !threads_created_app.
      rewrite Hw, Ht, Hpe, Hte, (quiet_pipe_written evs Hq).
      split_and!; [done| |done|done|done].
      apply Forall_app. split; [done|]. by constructor.
    + done.
    + done.
    + exact Hreg.
Qed.

Lemma reader_preserves w w' :
  session_inv w → reader_changes w w' → session_inv w'.
Proof.
  intros [Hstate Hinit Hrun [Hnd Hlive] Hreg]
         ([pr Hs] & Hi & Hd & evs & Ht & Hw & Hp & Hc).
  split; rewrite ?Hs; world_simpl.
  - done.
  - intros Hst. destruct (Hinit Hst) as (Hw0 & Hpc & Ht0 & Hs0 & Hc0).
    rewrite Ht, !pipe_written_app, !processes_created_app, !threads_created_app.
    rewrite Hw, Hp, Hc, Hw0, Ht0, !app_nil_r. done.
  - done.
  - split; rewrite Hs; world_simpl; [done|].
    intros p Hpq. destruct (Hlive p Hpq) as [d Hdoc]. exists d.
    by eapply lookup_weaken.
  - intros k p. rewrite Hs, Hi. world_simpl. apply Hreg.
Qed.

Lemma step_preserves this st w w' :
  session_inv w → step this st w = Ok tt w' → session_inv w'.
Proof.
  intros Hinv Hstep.
  destruct st as [[os inst|inst|os]|inbound|inbound];
    cbn [step controller_call] in Hstep.
  - by eapply start_instance_preserves.
  - by eapply terminate_instance_preserves.
  - by eapply start_p3dpython_preserves.
  - unfold bind in Hstep.
    destruct (rt_thread_run inbound w) as [r w1|] eqn:Hrun; [|done].
    injection Hstep as <-. eapply reader_preserves; [done|].
    by eapply rt_thread_run_changes.
  - unfold bind in Hstep.
    destruct (rt_thread_loop inbound w) as [r w1|] eqn:Hrun; [|done].
    injection Hstep as <-. eapply reader_preserves; [done|].
    by eapply rt_thread_loop_changes.
Qed.

Lemma reachable_inv this w : reachable this w → session_inv w.
Proof.
  induction 1 as [insts heap inst w Hc|w st w' _ IH Hstep].
  - by eapply construct_inv.
  - by eapply step_preserves.
Qed.

(** ** The destructor *)

Lemma joins_deletes cs : joins (EvDelete <$> cs) = [].
Proof. by induction cs. Qed.

Lemma deleted_deletes cs : deleted (EvDelete <$> cs) = cs.
Proof.
  induction cs as [|c cs IH]; [done|].
  change (deleted (EvDelete <$> c :: cs)) with (c :: deleted (EvDelete <$> cs)).
  by rewrite IH.
Qed.

Lemma join_read_thread_not_started os w :
  _started_read_thread (session w) = false →
  join_read_thread os w = Ok tt w.
Proof. intros Hs. unfold join_read_thread. run_m. by rewrite Hs. Qed.

Lemma dtor_not_running os w :
  _python_state (session w) ≠ PS_running →
  _started_read_thread (session w) = false →
  queue_owned w →
  P3DSession_dtor os w =
    Ok tt {| session := set_commands [] (session w); instances := instances w;
             docs := delete_all (_commands (session w)) (docs w);
             trace := trace w ++ (EvDelete <$> _commands (session w)) ++ [EvDestroyLock] |}.
Proof.
  intros Hst Hs [Hnd Hlive]. unfold P3DSession_dtor. run_m.
  destruct (_python_state (session w)); [|done|]; run_m;
    rewrite delete_commands_ok by done; run_m;
    rewrite join_read_thread_not_started by done; run_m; by norm_trace.
Qed.

Lemma dtor_running os w pi th :
  _python_state (session w) = PS_running →
  _p3dpython (session w) = Some pi →
  _started_read_thread (session w) = true →
  _read_thread (session w) = Some th →
  queue_owned w →
  let heap := delete_all (_commands (session w)) (docs w) in
  let p := fresh (dom heap) in
  P3DSession_dtor os w =
    Ok tt {| session := destroyed_session (os_pending_read os) (session w);
             instances := instances w;
             docs := last_heap (os_pending_read os) p heap;
             trace := trace w
               ++ [EvPipeWrite exit_document; EvPipeFlush;
                   EvPipeWriteClose; EvPipeReadClose;
                   EvSys (WaitForSingleObject (hProcess pi) (Millis 2000)
                            (os_wait_timed_out os))]
               ++ (if os_wait_timed_out os
                   then [EvCerr ("Terminating process." +:+ nl);
                         EvSys (TerminateProcess (hProcess pi) 2)]
                   else [])
               ++ [EvSys (CloseHandle (Some (hProcess pi)));
                   EvSys (CloseHandle (Some (hThread pi)))]
               ++ (EvDelete <$> _commands (session w))
               ++ [EvCerr ("session waiting for thread" +:+ nl);
                   EvPipeReadClose;
                   EvSys (WaitForSingleObject th INFINITE false)]
               ++ last_events (os_pending_read os) p
                    (instances_in_order (_instances (session w))).*2
               ++ [EvSys (CloseHandle (Some th));
                   EvCerr ("session done waiting for thread" +:+ nl);
                   EvDestroyLock] |}.
Proof.
  intros Hst Hpi Hs Hth [Hnd Hlive] heap p. subst heap p.
  unfold P3DSession_dtor, join_read_thread, destroyed_session. run_m.
  rewrite Hst, Hpi. run_m.
  destruct (os_wait_timed_out os); run_m;
    rewrite delete_commands_ok by done; repeat (run_m; rewrite ?Hs, ?Hth);
    rewrite rt_thread_last_spec; unfold next_doc; run_m;
    by norm_trace.
Qed.

(** ** The controller beside the read thread *)

Lemma sent_silent running p d :
  stop_requests (sent running p d) = [] ∧ downloads_started (sent running p d) = [].
Proof. by destruct running. Qed.

Lemma feed_commands_inv cs : ∀ w w',
  feed_commands cs w = Ok tt w' →
  instances w' = instances w
  ∧ ∃ evs, trace w' = trace w ++ evs ∧ stop_requests evs = [].
Proof.
  induction cs as [|c cs IH]; intros w w' Hrun.
  - injection Hrun as <-. split; [done|]. exists []. by rewrite app_nil_r.
  - cbn [feed_commands] in Hrun. revert Hrun. unfold deref_doc, delete_doc. run_m.
    destruct (docs w !! c) as [d|] eqn:Hd; [|done]. run_m. rewrite Hd.
    intros Hrun. apply IH in Hrun as [-> (evs & -> & Hevs)]. cbn [instances trace].
    split; [done|]. exists ([EvPipeWrite d; EvDelete c] ++ evs).
    split; [by rewrite <- !app_assoc|].
    by rewrite stop_requests_app, Hevs.
Qed.

Lemma controller_changes_refl w : controller_changes w w.
Proof. split; [|done]. exists []. by rewrite app_nil_r. Qed.

Lemma controller_changes_trans w1 w2 w3 :
  controller_changes w1 w2 → controller_changes w2 w3 → controller_changes w1 w3.
Proof.
  intros [(evs1 & Ht1 & Hs1) H1] [(evs2 & Ht2 & Hs2) H2]. split; [|auto].
  exists (evs1 ++ evs2). rewrite Ht2, Ht1, <- app_assoc. split; [done|].
  by rewrite stop_requests_app, Hs1, Hs2.
Qed.

Lemma controller_call_changes this c w w' :
  controller_call this c w = Ok tt w' → controller_changes w w'.
Proof.
  destruct c as [os inst|inst|os]; cbn [controller_call]; intros Hrun.
  - apply start_instance_inv in Hrun as (i & _ & ->). unfold started.
    split; cbn [trace instances].
    + eexists. split; [reflexivity|]. rewrite !stop_requests_app.
      destruct (sent_silent (bool_decide (_python_state (session w) = PS_running))
                  (next_doc w) (start_instance_document i)) as [-> _].
      destruct (download_events_silent os inst) as (_ & _ & _ & _ & Hd).
      by destruct (bool_decide (_python_state (session w) = PS_init)); rewrite ?Hd.
    + intros p Hp. destruct (decide (inst = p)) as [<-|Hne].
      * rewrite lookup_insert_eq. by eexists.
      * by rewrite lookup_insert_ne.
  - apply terminate_instance_inv in Hrun as (i & Hi & ->). unfold terminated.
    split; cbn [trace instances].
    + eexists. split; [reflexivity|]. rewrite !stop_requests_app.
      by destruct (sent_silent (bool_decide (_python_state (session w) = PS_running))
                     (next_doc w) (terminate_instance_document i)) as [-> _].
    + intros p Hp. destruct (bool_decide (_session i = Some this)); [|done].
      destruct (decide (inst = p)) as [<-|Hne].
      * rewrite lookup_insert_eq. by eexists.
      * by rewrite lookup_insert_ne.
  - destruct (os_create_process os) as [pi|] eqn:Hcp.
    + destruct (_read_thread_continue (session w)) eqn:Hc.
      * destruct (start_p3dpython_respawn os w pi Hcp Hc) as [w0 Heq0]. by rewrite Heq0 in Hrun.
      * destruct (start_p3dpython_success os w pi Hcp Hc) as (evs & Hq & _ & Heq).
        rewrite Heq in Hrun. clear Heq. unfold bind at 1 in Hrun.
        match type of Hrun with
        | match feed_commands ?cs ?w0 with _ => _ end = _ =>
            destruct (feed_commands cs w0) as [[] w1|] eqn:Hfeed; [|done]
        end.
        apply feed_commands_inv in Hfeed as [Hi (evs' & Ht & Hs)]. cbn in Hi, Ht.
        revert Hrun. run_m. intros [= <-]. split; cbn [trace instances].
        -- exists (evs ++ evs' ++ [EvPipeFlush]). rewrite Ht, <- !app_assoc.
           split; [done|].
           by rewrite !stop_requests_app, Hs, (quiet_stop_requests evs Hq).
        -- by rewrite Hi.
    + destruct (start_p3dpython_failure os w Hcp) as (evs & Hq & _ & _ & _ & Heq).
      rewrite Heq in Hrun. injection Hrun as <-. split; cbn [trace instances]; [|done].
      exists evs. split; [done|]. by apply quiet_stop_requests.
Qed.

Lemma controller_calls_changes this cs : ∀ w w',
  controller_calls this cs w = Ok tt w' → controller_changes w w'.
Proof.
  induction cs as [|c cs IH]; intros w w' Hrun.
  - injection Hrun as <-. apply controller_changes_refl.
  - cbn [controller_calls] in Hrun. unfold bind in Hrun.
    destruct (controller_call this c w) as [[] w1|] eqn:Hc; [|done].
    eapply controller_changes_trans; [by eapply controller_call_changes|by apply IH].
Qed.

(** Calls of [terminate_instance] on live instances all return. *)
Lemma controller_calls_terminates this cs : ∀ w,
  only_terminates w cs → ∃ w', controller_calls this cs w = Ok tt w'.
Proof.
  induction cs as [|c cs IH]; intros w Hcs.
  - by eexists.
  - destruct (Hcs c) as (inst & -> & [i Hi]); [apply elem_of_cons; auto|].
    cbn [controller_calls controller_call]. unfold bind.
    rewrite (terminate_instance_spec this inst w i Hi).
    apply IH. intros c Hc.
    destruct (Hcs c) as (inst' & -> & Hlive); [apply elem_of_cons; auto|].
    exists inst'. split; [done|].
    assert (Hch : controller_changes w (terminated this inst i w)).
    { apply (controller_call_changes this (CallTerminateInstance inst)).
      by apply terminate_instance_spec. }
    by apply Hch.
Qed.

Lemma rt_terminate_loop_with_requests this icopy : ∀ sched w w',
  rt_terminate_loop_with this icopy sched w = Ok tt w' →
  ∃ evs, trace w' = trace w ++ evs ∧ stop_requests evs = icopy.*2.
Proof.
  induction icopy as [|[k inst] icopy IH]; intros sched w w' Hrun.
  - cbn [rt_terminate_loop_with] in Hrun.
    by apply controller_calls_changes in Hrun as [? _].
  - cbn [rt_terminate_loop_with] in Hrun. unfold bind at 1 in Hrun.
    destruct (controller_calls this (default [] (head sched)) w) as [[] w1|] eqn:Hc;
      [|done].
    apply controller_calls_changes in Hc as [(evs1 & Ht1 & Hs1) _].
    revert Hrun. unfold post_stop. run_m. intros Hrun.
    apply IH in Hrun as (evs2 & -> & Hs2). cbn [trace].
    exists (evs1 ++ [stop_event inst] ++ evs2). rewrite Ht1, <- !app_assoc.
    split; [done|].
    rewrite !stop_requests_app, Hs1, Hs2. done.
Qed.

Lemma rt_terminate_loop_with_returns this icopy : ∀ sched w,
  only_terminates w (concat sched) →
  ∃ w', rt_terminate_loop_with this icopy sched w = Ok tt w'.
Proof.
  induction icopy as [|[k inst] icopy IH]; intros sched w Hcs.
  - cbn [rt_terminate_loop_with]. by apply controller_calls_terminates.
  - cbn [rt_terminate_loop_with]. unfold bind at 1.
    destruct (controller_calls_terminates this (default [] (head sched)) w) as [w1 Hw1].
    { intros c Hc. apply Hcs. destruct sched as [|cs sched]; [by apply elem_of_nil in Hc|].
      cbn in *. apply elem_of_app. by left. }
    rewrite Hw1. unfold post_stop. run_m. apply IH.
    apply controller_calls_changes in Hw1 as [_ Hlive].
    intros c Hc. destruct (Hcs c) as (inst' & -> & Hl).
    { destruct sched as [|cs sched]; [done|]. cbn in *. apply elem_of_app. by right. }
    exists inst'. split; [done|]. cbn. by apply Hlive.
Qed.

#[local] Instance key_le_total : Total key_le.
Proof. intros a b. unfold key_le. lia. Qed.

(** The copy is run through by ascending id. *)
Lemma instances_in_order_sorted (m : gmap Z InstPtr) :
  Sorted key_le (instances_in_order m).
Proof. apply Sorted_merge_sort, _. Qed.

(** The copy of a well-formed registry holds every registered instance
    once. *)
Lemma snapshot_NoDup w :
  registry_wf w → NoDup (instances_in_order (_instances (session w))).*2.
Proof.
  intros Hreg. unfold instances_in_order.
  rewrite merge_sort_Permutation.
  assert (Hinj : ∀ k1 k2 p, (k1, p) ∈ map_to_list (_instances (session w)) →
                            (k2, p) ∈ map_to_list (_instances (session w)) → k1 = k2).
  { intros k1 k2 p H1 H2. apply elem_of_map_to_list in H1, H2.
    destruct (Hreg k1 p H1) as (i1 & Hi1 & <-).
    destruct (Hreg k2 p H2) as (i2 & Hi2 & <-). congruence. }
  pose proof (NoDup_map_to_list (_instances (session w))) as Hnd.
  induction Hnd as [|[k p] l Hnotin Hnd IH]; [constructor|].
  cbn. constructor.
  - intros Hin. apply list_elem_of_fmap in Hin as ([k' p'] & Heq & Hin). cbn in Heq. subst p'.
    assert (k = k') as ->.
    { apply (Hinj k k' p); [apply elem_of_cons; auto|apply elem_of_cons; auto]. }
    done.
  - apply IH. intros k1 k2 p0 H1 H2.
    apply (Hinj k1 k2 p0); apply elem_of_cons; auto.
Qed.

Lemma snapshot_elem_of (m : gmap Z InstPtr) inst :
  inst ∈ (instances_in_order m).*2 ↔ ∃ k, m !! k = Some inst.
Proof.
  unfold instances_in_order. rewrite merge_sort_Permutation.
  rewrite list_elem_of_fmap. split.
  - intros ([k p] & -> & Hin). exists k. by apply elem_of_map_to_list.
  - intros [k Hk]. exists (k, inst). split; [done|]. by apply elem_of_map_to_list.
Qed.

Lemma dtor_running_no_thread os w pi :
  _python_state (session w) = PS_running →
  _p3dpython (session w) = Some pi →
  _started_read_thread (session w) = true →
  _read_thread (session w) = None →
  queue_owned w →
  P3DSession_dtor os w =
    Abort "assertion failed"
      {| session :=
           set_pipe_read (hs_close (hs_close (_pipe_read (session w))))
             (set_read_thread_continue false
                (set_commands []
                   (set_pipe_read (hs_close (_pipe_read (session w)))
                      (set_pipe_write (hs_close (_pipe_write (session w)))
                         (session w)))));
         instances := instances w;
         docs := delete_all (_commands (session w)) (docs w);
         trace := trace w
           ++ [EvPipeWrite exit_document; EvPipeFlush;
               EvPipeWriteClose; EvPipeReadClose;
               EvSys (WaitForSingleObject (hProcess pi) (Millis 2000)
                        (os_wait_timed_out os))]
           ++ (if os_wait_timed_out os
               then [EvCerr ("Terminating process." +:+ nl);
                     EvSys (TerminateProcess (hProcess pi) 2)]
               else [])
           ++ [EvSys (CloseHandle (Some (hProcess pi)));
               EvSys (CloseHandle (Some (hThread pi)))]
           ++ (EvDelete <$> _commands (session w))
           ++ [EvCerr ("session waiting for thread" +:+ nl); EvPipeReadClose] |}.
Proof.
  intros Hst Hpi Hs Hth [Hnd Hlive].
  unfold P3DSession_dtor, join_read_thread. run_m.
  rewrite Hst, Hpi. run_m.
  destruct (os_wait_timed_out os); run_m;
    rewrite delete_commands_ok by done; repeat (run_m; rewrite ?Hs, ?Hth);
    by norm_trace.
Qed.

(** * Main results *)

(** C1.  Take a session that has not started Python, with whatever
    it has queued so far, and send it any sequence of distinct new
    commands: they are appended to [_commands] and nothing reaches the
    pipe.  When [start_p3dpython] then creates the process, all that
    the pipe has been given is the documents of the queue, those queued
    before followed by those just sent, each once and in the order of
    sending, with a flush at the end; each command has been deleted
    once and [_commands] is empty. *)
Theorem queued_commands_fed_in_order this os w cmds ds pi :
  reachable this w →
  _python_state (session w) = PS_init →
  os_create_process os = Some pi →
  NoDup cmds →
  (∀ p, p ∈ cmds → p ∉ _commands (session w)) →
  documents_at (docs w) cmds = Some ds →
  ∃ queued w1 w2,
    documents_at (docs w) (_commands (session w)) = Some queued ∧
    send_commands cmds w = Ok tt w1 ∧
    _commands (session w1) = _commands (session w) ++ cmds ∧
    pipe_written (trace w1) = [] ∧
    start_p3dpython os w1 = Ok tt w2 ∧
    _python_state (session w2) = PS_running ∧
    _commands (session w2) = [] ∧
    pipe_written (trace w2) = queued ++ ds ∧
    last (trace w2) = Some EvPipeFlush ∧
    deleted (trace w2) = deleted (trace w) ++ _commands (session w) ++ cmds ∧
    docs w2 = delete_all (_commands (session w) ++ cmds) (docs w).
Proof.
  intros Hreach Hst Hcp Hnd Hnew Hds.
  destruct (reachable_inv this w Hreach) as [_ Hinit _ [Hqnd Hlive] _].
  destruct (Hinit Hst) as (Hsilent & _ & _ & _ & Hcont).
  assert (∃ queued, documents_at (docs w) (_commands (session w)) = Some queued)
    as [queued Hqueued].
  { unfold documents_at. clear -Hlive.
    induction (_commands (session w)) as [|c cs IH].
    - by exists [].
    - destruct (Hlive c) as [d Hd]; [apply elem_of_cons; auto|].
      destruct IH as [qs Hqs]; [intros p Hp; apply Hlive, elem_of_cons; auto|].
      exists (d :: qs). apply mapM_Some. constructor; [done|]. by apply mapM_Some. }
  destruct (feed_after_send os w cmds (queued ++ ds) pi) as
    (w1 & w2 & Hsend & Hq1 & Ht1 & Hspawn & Hst2 & Hq2 & Hw2 & Hfl & Hdel & Hdocs);
    [done|done|done| | |].
  { apply NoDup_app. split; [done|]. split; [|done].
    intros p Hp1 Hp2. by apply (Hnew p). }
  { apply documents_at_app. by exists queued, ds. }
  exists queued, w1, w2. rewrite Hsilent in Hw2. rewrite Ht1.
  split_and!; done.
Qed.

(** C2.  [send_command] in the state [PS_running] writes the command's
    document to [_pipe_write], flushes, and only then deletes the
    command, leaving [_commands] alone.  In any other state it appends
    the command to [_commands], which then holds what it held followed
    by the command, and touches neither the pipe nor the heap nor any
    other field of the session.  Hence, in every world a session can
    reach, as long as the state is not [PS_running] nothing at all has
    been written to the pipe and no [CreateProcess] has succeeded. *)
Theorem send_command_sends_or_queues :
  (∀ w command d,
     _python_state (session w) = PS_running →
     docs w !! command = Some d →
     send_command command w =
       Ok tt {| session := session w; instances := instances w;
                docs := delete command (docs w);
                trace := trace w ++ [EvPipeWrite d; EvPipeFlush; EvDelete command] |})
  ∧ (∀ w command,
       _python_state (session w) ≠ PS_running →
       ∃ w',
         send_command command w = Ok tt w'
         ∧ w' = {| session := set_commands (_commands (session w) ++ [command]) (session w);
                   instances := instances w; docs := docs w; trace := trace w |}
         ∧ _commands (session w') = _commands (session w) ++ [command]
         ∧ last (_commands (session w')) = Some command
         ∧ length (_commands (session w')) = S (length (_commands (session w)))
         ∧ _python_state (session w') = _python_state (session w)
         ∧ _instances (session w') = _instances (session w)
         ∧ _pipe_write (session w') = _pipe_write (session w)
         ∧ _pipe_read (session w') = _pipe_read (session w)
         ∧ _started_read_thread (session w') = _started_read_thread (session w)
         ∧ _read_thread_continue (session w') = _read_thread_continue (session w)
         ∧ instances w' = instances w
         ∧ docs w' = docs w
         ∧ trace w' = trace w)
  ∧ (∀ this w,
       reachable this w →
       _python_state (session w) ≠ PS_running →
       pipe_written (trace w) = []
       ∧ Forall (λ ok, ok = false) (processes_created (trace w))).
Proof.
  split; [exact send_command_running|]. split.
  - intros w command Hst. eexists. split; [by apply send_command_not_running|].
    split; [reflexivity|]. world_simpl.
    split; [reflexivity|]. split; [apply last_snoc|].
    split; [rewrite length_app; cbn; lia|].
    split_and!; reflexivity.
  - intros this w Hreach Hst.
    destruct (reachable_inv this w Hreach) as [Hstate Hinit _ _ _].
    destruct Hstate as [Hi|Hr]; [|done].
    by destruct (Hinit Hi) as (? & ? & _).
Qed.

(** C8.  When [CreateProcess] fails, [start_p3dpython] ends by printing
    "Failed to create process." and returns: [_python_state] is what it
    was, [_commands] and the documents on the heap are what they were,
    nothing was written to the pipe or deleted, and the read thread was
    not started. *)
Theorem spawn_failure_keeps_queue os w :
  os_create_process os = None →
  ∃ w' evs,
    start_p3dpython os w = Ok tt w' ∧
    trace w' = trace w ++ evs ∧
    last evs = Some (EvCerr ("Failed to create process." +:+ nl)) ∧
    processes_created evs = [false] ∧
    _python_state (session w') = _python_state (session w) ∧
    _commands (session w') = _commands (session w) ∧
    docs w' = docs w ∧
    pipe_written evs = [] ∧
    deleted evs = [] ∧
    threads_created evs = [] ∧
    _started_read_thread (session w') = _started_read_thread (session w) ∧
    _read_thread_continue (session w') = _read_thread_continue (session w).
Proof.
  intros Hcp.
  destruct (start_p3dpython_failure os w Hcp) as (evs & Hq & Hpe & Hte & Hlast & Heq).
  eexists. exists evs. split; [exact Heq|].
  split_and!; try done.
  - by apply quiet_pipe_written.
  - by apply quiet_deleted.
Qed.

(** C10.  In every world a session can reach between two calls, the
    state [PS_running] comes with an empty [_commands]: [send_command]
    leaves the queue empty there, no call takes the session out of
    [PS_running], and so a destructor that deletes any queued command
    runs on a session in [PS_init] for which no [CreateProcess] has
    succeeded. *)
Theorem running_queue_empty this w :
  reachable this w →
  (_python_state (session w) = PS_running → _commands (session w) = [])
  ∧ (∀ command w',
       _python_state (session w) = PS_running →
       send_command command w = Ok tt w' →
       _python_state (session w') = PS_running ∧ _commands (session w') = [])
  ∧ (∀ st w',
       _python_state (session w) = PS_running →
       step this st w = Ok tt w' →
       _python_state (session w') = PS_running ∧ _commands (session w') = [])
  ∧ (∀ os w' evs,
       P3DSession_dtor os w = Ok tt w' →
       trace w' = trace w ++ evs →
       deleted evs ≠ [] →
       _python_state (session w) = PS_init
       ∧ Forall (λ ok, ok = false) (processes_created (trace w))).
Proof.
  intros Hreach. pose proof (reachable_inv this w Hreach) as Hinv.
  destruct Hinv as [Hstate Hinit Hrun Hq Hreg].
  split; [by intros Hst; destruct (Hrun Hst)|].
  split; [|split].
  - intros command w' Hst Hsend. destruct (Hrun Hst) as (Hempty & _).
    destruct (docs w !! command) as [d|] eqn:Hd.
    + rewrite (send_command_running w command d Hst Hd) in Hsend.
      injection Hsend as <-. by cbn.
    + revert Hsend. unfold send_command, deref_doc. run_m. by rewrite Hst, Hd.
  - intros st w' Hst Hstep.
    assert (Hreach' : reachable this w') by (by eapply reachable_step).
    destruct (reachable_inv this w' Hreach') as [Hstate' _ Hrun' _ _].
    assert (_python_state (session w') = PS_running) as Hst'; [|by destruct (Hrun' Hst')].
    destruct st as [[os inst|inst|os]|inbound|inbound];
      cbn [step controller_call] in Hstep.
    + apply start_instance_inv in Hstep as (i & _ & ->). by cbn.
    + apply terminate_instance_inv in Hstep as (i & _ & ->). by cbn.
    + destruct (Hrun Hst) as (_ & _ & _ & Hc).
      destruct (os_create_process os) as [pi|] eqn:Hcp.
      * destruct (start_p3dpython_respawn os w pi Hcp Hc) as [w0 Heq0]. by rewrite Heq0 in Hstep.
      * destruct (start_p3dpython_failure os w Hcp) as (evs & _ & _ & _ & _ & Heq).
        rewrite Heq in Hstep. injection Hstep as <-. by cbn.
    + unfold bind in Hstep.
      destruct (rt_thread_run inbound w) as [r w1|] eqn:Hrt; [|done].
      injection Hstep as <-.
      apply rt_thread_run_changes in Hrt as ([pr ->] & _). by cbn.
    + unfold bind in Hstep.
      destruct (rt_thread_loop inbound w) as [r w1|] eqn:Hrt; [|done].
      injection Hstep as <-.
      apply rt_thread_loop_changes in Hrt as ([pr ->] & _). by cbn.
  - intros os w' evs Hdtor Htr Hdel.
    destruct Hstate as [Hi|Hr].
    + split; [done|]. by destruct (Hinit Hi) as (_ & ? & _).
    + exfalso. destruct (Hrun Hr) as (Hempty & [pi Hpi] & Hs & Hc).
      destruct (_read_thread (session w)) as [th|] eqn:Hth.
      * rewrite (dtor_running os w pi th Hr Hpi Hs Hth Hq) in Hdtor.
        injection Hdtor as <-. cbn [trace] in Htr. apply app_inv_head in Htr as <-.
        apply Hdel. rewrite Hempty. unfold deleted.
        destruct (os_wait_timed_out os); cbn -[last_events]; rewrite omap_app;
          match goal with
          | |- context [last_events ?pd ?p ?l] =>
              destruct (last_events_silent pd p l) as (_ & _ & _ & Hlast)
          end;
          unfold deleted in Hlast; by rewrite Hlast.
      * by rewrite (dtor_running_no_thread os w pi Hr Hpi Hs Hth Hq) in Hdtor.
Qed.

(** C5.  The destructor of a session in [PS_running] writes the [exit]
    command to the pipe, flushes, closes the write half and the read
    half, and waits 2000 ms on the process.  If that wait times out it
    terminates the process with exit code 2, which is not the 0 of a
    clean exit; if it does not, no [TerminateProcess] is issued.  Then
    the two process handles are closed and the rest of the teardown
    follows; it returns when the read thread had been created, and
    otherwise stops at the assertion of [join_read_thread], after all of
    the above. *)
Theorem teardown_of_running_session this os w :
  reachable this w →
  _python_state (session w) = PS_running →
  ∃ pi w' rest,
    _p3dpython (session w) = Some pi ∧
    (P3DSession_dtor os w = Ok tt w'
     ∨ _read_thread (session w) = None
       ∧ P3DSession_dtor os w = Abort "assertion failed" w') ∧
    (is_Some (_read_thread (session w)) → P3DSession_dtor os w = Ok tt w') ∧
    is_command "exit" exit_document ∧
    trace w' =
      trace w
        ++ [EvPipeWrite exit_document; EvPipeFlush; EvPipeWriteClose; EvPipeReadClose;
            EvSys (WaitForSingleObject (hProcess pi) (Millis 2000) (os_wait_timed_out os))]
        ++ (if os_wait_timed_out os
            then [EvCerr ("Terminating process." +:+ nl);
                  EvSys (TerminateProcess (hProcess pi) 2)]
            else [])
        ++ [EvSys (CloseHandle (Some (hProcess pi)));
            EvSys (CloseHandle (Some (hThread pi)))]
        ++ rest ∧
    (2 ≠ 0)%Z ∧
    Forall (λ e, ∀ h code, e ≠ EvSys (TerminateProcess h code)) rest.
Proof.
  intros Hreach Hst.
  destruct (reachable_inv this w Hreach) as [_ _ Hrun Hq _].
  destruct (Hrun Hst) as (Hempty & [pi Hpi] & Hs & Hc).
  exists pi.
  destruct (_read_thread (session w)) as [th|] eqn:Hth.
  - eexists. eexists.
    split; [done|].
    split; [left; by apply (dtor_running os w pi th)|].
    split; [intros _; by apply (dtor_running os w pi th)|].
    split; [by eexists _, _|].
    split; [reflexivity|].
    split; [done|].
    rewrite Hempty. cbn [fmap list_fmap app].
    repeat (constructor; [by intros ? ?|]).
    apply Forall_app. split; [apply last_events_no_terminate|].
    repeat constructor; by intros ? ?.
  - eexists. eexists.
    split; [done|].
    split; [right; split; [done|]; by apply (dtor_running_no_thread os w pi)|].
    split; [by intros [? ?]|].
    split; [by eexists _, _|].
    split; [reflexivity|].
    split; [done|].
    rewrite Hempty. cbn. repeat constructor; by intros ? ?.
Qed.

(** C6.  The destructor of a session that is still in [PS_init] joins
    nothing: [join_read_thread] returns at once, the world untouched,
    whenever [_started_read_thread] is false, as it is here.  All the
    destructor does is delete the queued commands, each of them a live
    document and each deleted once, and empty the queue. *)
Theorem teardown_before_running this os w :
  reachable this w →
  _python_state (session w) = PS_init →
  ∃ w',
    P3DSession_dtor os w = Ok tt w' ∧
    _started_read_thread (session w) = false ∧
    (∀ w0, _started_read_thread (session w0) = false → join_read_thread os w0 = Ok tt w0) ∧
    trace w' = trace w ++ (EvDelete <$> _commands (session w)) ++ [EvDestroyLock] ∧
    joins (trace w') = joins (trace w) ∧
    deleted (trace w') = deleted (trace w) ++ _commands (session w) ∧
    NoDup (_commands (session w)) ∧
    (∀ p, p ∈ _commands (session w) → is_Some (docs w !! p) ∧ docs w' !! p = None) ∧
    (∀ p, p ∉ _commands (session w) → docs w' !! p = docs w !! p) ∧
    _commands (session w') = [].
Proof.
  intros Hreach Hst.
  destruct (reachable_inv this w Hreach) as [_ Hinit _ Hq _].
  destruct (Hinit Hst) as (_ & _ & _ & Hs & _).
  eexists. split.
  { apply dtor_not_running; [by rewrite Hst|done|done]. }
  destruct Hq as [Hnd Hlive]. cbn [trace docs session _commands set_commands].
  split_and!; try done.
  - exact (join_read_thread_not_started os).
  - rewrite !joins_app, joins_deletes. cbn. by rewrite app_nil_r.
  - rewrite !deleted_app, deleted_deletes. cbn. by rewrite app_nil_r.
  - intros p Hp. split; [by apply Hlive|].
    rewrite delete_all_lookup. by rewrite decide_True.
  - intros p Hp. rewrite delete_all_lookup. by rewrite decide_False.
Qed.

(** C3.  [rt_terminate] copies [_instances] between the two lock
    macros and, after the release, adds one [P3D_RT_stop] request to
    each instance of the copy, by ascending id; the copy holds every
    registered instance exactly once.  This stays so when the
    controller runs between the iterations of the loop: whatever it
    calls, if the calls return, the requests added are one per instance
    of the copy, and they do return when all it does is
    [terminate_instance] on live instances.  A read that fails or hits
    the end of the stream, after any number of documents read, makes
    the read thread call [rt_terminate] once and return, leaving the
    rest of the stream unread and creating no thread. *)
Theorem disconnect_notifies_every_instance this w :
  reachable this w →
  let snapshot := (instances_in_order (_instances (session w))).*2 in
  NoDup snapshot
  ∧ (∀ inst, inst ∈ snapshot ↔ ∃ k, _instances (session w) !! k = Some inst)
  ∧ rt_terminate w =
      Ok tt {| session := session w; instances := instances w; docs := docs w;
               trace := trace w ++ [EvAcquireLock; EvReleaseLock]
                          ++ (stop_event <$> snapshot) |}
  ∧ (∀ sched w',
       rt_terminate_with this sched w = Ok tt w' →
       ∃ evs, trace w' = trace w ++ [EvAcquireLock; EvReleaseLock] ++ evs
              ∧ stop_requests evs = snapshot)
  ∧ (∀ sched,
       only_terminates w (concat sched) →
       ∃ w', rt_terminate_with this sched w = Ok tt w')
  ∧ (∀ ds r rest,
       _read_thread_continue (session w) = true →
       r = ReadFail ∨ r = ReadEof →
       ∃ w',
         rt_thread_run ((ReadDoc <$> ds) ++ r :: rest) w = Ok (ReaderReturned, rest) w'
         ∧ stop_requests (trace w') = stop_requests (trace w) ++ snapshot
         ∧ threads_created (trace w') = threads_created (trace w)).
Proof.
  intros Hreach snapshot.
  destruct (reachable_inv this w Hreach) as [_ _ _ _ Hreg].
  split; [by apply snapshot_NoDup|].
  split; [apply snapshot_elem_of|].
  split; [apply rt_terminate_spec|].
  split; [|split].
  - intros sched w' Hrun. unfold rt_terminate_with in Hrun. revert Hrun. run_m.
    intros Hrun. apply rt_terminate_loop_with_requests in Hrun as (evs & -> & Hs).
    exists evs. cbn [trace]. by rewrite <- !app_assoc.
  - intros sched Hs. unfold rt_terminate_with. run_m.
    by apply rt_terminate_loop_with_returns.
  - intros ds r rest Hc Hr. clear Hreach Hreg. subst snapshot.
    assert (Hloop : ∀ w, _read_thread_continue (session w) = true →
      ∃ w',
        rt_thread_loop ((ReadDoc <$> ds) ++ r :: rest) w = Ok (ReaderReturned, rest) w'
        ∧ stop_requests (trace w') =
            stop_requests (trace w) ++ (instances_in_order (_instances (session w))).*2
        ∧ threads_created (trace w') = threads_created (trace w)).
    { clear w Hc. induction ds as [|d ds IH]; intros w Hc.
      - cbn [fmap list_fmap app]. rewrite (rt_thread_loop_error r rest w Hc Hr).
        eexists. split; [reflexivity|]. cbn [trace]. unfold failed_read_events.
        rewrite !stop_requests_app, !threads_created_app, stop_requests_stop_events.
        destruct (stop_events_silent ((instances_in_order (_instances (session w))).*2))
          as (_ & _ & -> & _).
        destruct Hr as [-> | ->]; cbn; by rewrite !app_nil_r.
      - cbn [fmap list_fmap app]. rewrite (rt_thread_loop_doc d _ w Hc).
        edestruct IH as (w' & -> & Hs & Ht); [exact Hc|].
        exists w'. split; [done|]. cbn [session trace] in Hs, Ht.
        rewrite Hs, Ht, stop_requests_app, threads_created_app. cbn.
        by rewrite !app_nil_r. }
    rewrite rt_thread_run_loop.
    edestruct Hloop as (w' & -> & Hs & Ht); [exact Hc|].
    exists w'. split; [done|]. cbn [session trace] in Hs, Ht.
    rewrite Hs, Ht, stop_requests_app, threads_created_app. cbn.
    by rewrite !app_nil_r.
Qed.


(** ** The environment block *)

Lemma append_cons x (a b : string) : String x a +:+ b = String x (a +:+ b).
Proof. reflexivity. Qed.

Lemma append_nil_l (a : string) : "" +:+ a = a.
Proof. reflexivity. Qed.

Lemma append_assoc (a b c : string) : (a +:+ b) +:+ c = a +:+ (b +:+ c).
Proof. induction a as [|x a IH]; [done|]. by rewrite !append_cons, IH. Qed.

Lemma append_nil_r (a : string) : a +:+ "" = a.
Proof. induction a as [|x a IH]; [done|]. by rewrite append_cons, IH. Qed.

Lemma occurs_append c a b : occurs c (a +:+ b) = occurs c a || occurs c b.
Proof.
  induction a as [|x a IH]; [done|]. rewrite append_cons. cbn [occurs].
  by destruct (decide (x = c)).
Qed.

Lemma forward_variables os ks : ∀ env,
  foldl (forward_variable os) env ks =
    env +:+ block_of_environment
              (omap (λ name, (λ value, (name, value)) <$> getenv os name) ks).
Proof.
  induction ks as [|k ks IH]; intros env.
  - cbn [foldl omap block_of_environment foldr]. by rewrite append_nil_r.
  - cbn [foldl]. rewrite IH. unfold forward_variable. cbn [omap list_omap].
    destruct (getenv os k) as [value|]; cbn [fmap option_fmap option_map]; [|done].
    cbn [block_of_environment foldr fst snd]. by rewrite !append_assoc.
Qed.

Lemma block_of_environment_app env1 env2 :
  block_of_environment (env1 ++ env2) =
    block_of_environment env1 +:+ block_of_environment env2.
Proof.
  induction env1 as [|nv env1 IH]; [done|].
  cbn [app block_of_environment foldr]. fold (block_of_environment (env1 ++ env2)).
  fold (block_of_environment env1). by rewrite IH, !append_assoc.
Qed.

Lemma populate_environment_block win32 os root :
  populate_environment win32 os root =
    block_of_environment (worker_environment win32 os root).
Proof.
  unfold populate_environment, worker_environment, forwarded.
  rewrite forward_variables, block_of_environment_app.
  cbn [block_of_environment foldr fst snd].
  by rewrite !append_assoc, !append_nil_l, !append_nil_r.
Qed.

Lemma block_entries_entry s : ∀ cur rest,
  occurs "000"%char s = false →
  block_entries cur (s +:+ NUL +:+ rest) = (cur +:+ s) :: block_entries "" rest.
Proof.
  induction s as [|c s IH]; intros cur rest Hs.
  - rewrite append_nil_l, append_nil_r. unfold NUL. rewrite append_cons, append_nil_l.
    cbn [block_entries]. by rewrite decide_True.
  - cbn [occurs] in Hs. rewrite append_cons. cbn [block_entries].
    destruct (decide (c = "000"%char)) as [|Hc]; [done|].
    rewrite IH by done. f_equal. by rewrite append_assoc.
Qed.

Lemma split_entry_variable n : ∀ acc v,
  occurs "="%char n = false →
  split_entry acc (n +:+ "=" +:+ v) = (acc +:+ n, v).
Proof.
  induction n as [|c n IH]; intros acc v Hn.
  - rewrite append_nil_l, append_nil_r.
    change ("=" +:+ v) with (String "="%char v).
    cbn [split_entry]. by rewrite decide_True.
  - cbn [occurs] in Hn. rewrite append_cons. cbn [split_entry].
    destruct (decide (c = "="%char)) as [|Hc]; [done|].
    rewrite IH by done. f_equal. by rewrite append_assoc.
Qed.

Lemma environment_of_block_of_environment env :
  Forall well_formed_variable env →
  environment_of_block (block_of_environment env) = env.
Proof.
  unfold environment_of_block.
  induction 1 as [|[n v] env (Hn1 & Hn2 & Hv) _ IH]; [done|].
  cbn [block_of_environment foldr fst snd] in *.
  fold (block_of_environment env).
  replace (n +:+ "=" +:+ v +:+ NUL +:+ block_of_environment env)
    with ((n +:+ "=" +:+ v) +:+ NUL +:+ block_of_environment env)
    by (by rewrite !append_assoc).
  rewrite block_entries_entry.
  - rewrite fmap_cons, IH. f_equal. rewrite append_nil_l.
    by rewrite split_entry_variable.
  - rewrite !occurs_append, Hn2, Hv. done.
Qed.

Lemma process_environments_app evs1 evs2 :
  process_environments (evs1 ++ evs2) =
    process_environments evs1 ++ process_environments evs2.
Proof. apply omap_app. Qed.

Lemma feed_commands_environments cs : ∀ w w',
  feed_commands cs w = Ok tt w' →
  ∃ evs, trace w' = trace w ++ evs ∧ process_environments evs = [].
Proof.
  induction cs as [|c cs IH]; intros w w' Hrun.
  - injection Hrun as <-. exists []. by rewrite app_nil_r.
  - cbn [feed_commands] in Hrun. revert Hrun. unfold deref_doc, delete_doc. run_m.
    destruct (docs w !! c) as [d|] eqn:Hd; [|done]. run_m. rewrite Hd.
    intros Hrun. apply IH in Hrun as (evs & -> & Hevs). cbn [trace].
    exists ([EvPipeWrite d; EvDelete c] ++ evs).
    split; [by rewrite <- !app_assoc|].
    by rewrite process_environments_app, Hevs.
Qed.

Lemma start_p3dpython_environment os w w' :
  start_p3dpython os w = Ok tt w' →
  ∃ evs, trace w' = trace w ++ evs
         ∧ process_environments evs =
             [populate_environment true os (_python_root_dir (session w))].
Proof.
  destruct (os_create_process os) as [pi|] eqn:Hcp.
  - destruct (_read_thread_continue (session w)) eqn:Hcont.
    { destruct (start_p3dpython_respawn os w pi Hcp Hcont) as [w0 ->]. done. }
    unfold start_p3dpython, spawn_read_thread.
    rewrite Hcp. run_m.
    destruct (os_pipe_to os) as [[r1 w1]|], (os_pipe_from os) as [[r2 w2]|],
      (bool_decide (_output_filename (session w) = "")), (os_create_file os) as [fh|];
      run_m; rewrite Hcont; run_m; norm_trace; run_m;
      (match goal with
       | |- match feed_commands ?cs ?w0 with _ => _ end = _ → _ =>
           destruct (feed_commands cs w0) as [[] w1'|] eqn:Hfeed; [|done];
           apply feed_commands_environments in Hfeed as (evs & Hevs & Henv);
           cbn [trace] in Hevs; intros [= <-]; cbn [trace]; rewrite Hevs;
           eexists; rewrite <- !app_assoc; split; [reflexivity|];
           rewrite !process_environments_app, Henv; reflexivity
       end).
  - destruct (start_p3dpython_failure os w Hcp) as (evs & _ & _ & _ & _ & Heq).
    clear Heq. unfold start_p3dpython. rewrite Hcp. run_m.
    destruct (os_pipe_to os) as [[r1 w1]|], (os_pipe_from os) as [[r2 w2]|],
      (bool_decide (_output_filename (session w) = "")), (os_create_file os) as [fh|];
      run_m; norm_trace; run_m; intros [= <-]; cbn [trace];
      (eexists; split; reflexivity).
Qed.

Lemma worker_environment_elem_of win32 os root n v :
  (n, v) ∈ worker_environment win32 os root ↔
  (n ∈ keep win32 ∧ getenv os n = Some v)
  ∨ ((n = "PATH" ∨ n = "PYTHONPATH") ∧ v = root).
Proof.
  unfold worker_environment, forwarded.
  rewrite elem_of_app, list_elem_of_omap, !elem_of_cons, elem_of_nil. split.
  - intros [(k & Hk & Hget)|[Heq|[Heq|[]]]].
    + left. destruct (getenv os k) as [value|] eqn:Hv; [|done].
      cbn in Hget. by injection Hget as <- <-.
    + right. injection Heq as -> ->. auto.
    + right. injection Heq as -> ->. auto.
  - intros [[Hk Hget]|[[->| ->] ->]]; [|auto..].
    left. exists n. split; [done|]. by rewrite Hget.
Qed.

Lemma worker_environment_names win32 os root :
  NoDup (worker_environment win32 os root).*1.
Proof.
  unfold worker_environment, forwarded, keep.
  destruct win32; cbn [app omap list_omap];
    destruct (getenv os "TEMP"), (getenv os "HOME"), (getenv os "USER");
    try destruct (getenv os "SYSTEMROOT");
    cbn [fmap option_fmap option_map list_fmap app fst];
    apply (bool_decide_unpack _); vm_compute; exact I.
Qed.

Lemma worker_environment_well_formed win32 os root :
  (∀ n v, getenv os n = Some v → occurs "000"%char v = false) →
  occurs "000"%char root = false →
  Forall well_formed_variable (worker_environment win32 os root).
Proof.
  intros Hvalues Hroot. unfold worker_environment, forwarded, keep.
  destruct win32; cbn [app omap list_omap];
    destruct (getenv os "TEMP") eqn:H1, (getenv os "HOME") eqn:H2,
      (getenv os "USER") eqn:H3;
    try destruct (getenv os "SYSTEMROOT") eqn:H4;
    cbn [fmap option_fmap option_map list_fmap app];
    repeat constructor; cbn [snd]; eauto.
Qed.

(** C7.  The environment block [start_p3dpython] hands to
    [CreateProcess] is the layout of these variables and no others:
    each name of the allow-list (TEMP, HOME, USER, and SYSTEMROOT under
    [_WIN32]) that [getenv] finds, with the value it finds, then PATH
    and PYTHONPATH, both set to [_python_root_dir].  No name occurs
    twice, and reading the block back (values being C strings, without
    NUL) gives exactly that list. *)
Theorem worker_environment_is_filtered os w :
  let root := _python_root_dir (session w) in
  (∀ w', start_p3dpython os w = Ok tt w' →
     ∃ evs, trace w' = trace w ++ evs
            ∧ process_environments evs =
                [block_of_environment (worker_environment true os root)])
  ∧ keep true = ["TEMP"; "HOME"; "USER"; "SYSTEMROOT"]
  ∧ keep false = ["TEMP"; "HOME"; "USER"]
  ∧ ∀ win32,
      populate_environment win32 os root =
        block_of_environment (worker_environment win32 os root)
      ∧ NoDup (worker_environment win32 os root).*1
      ∧ (∀ n v, (n, v) ∈ worker_environment win32 os root ↔
                (n ∈ keep win32 ∧ getenv os n = Some v)
                ∨ ((n = "PATH" ∨ n = "PYTHONPATH") ∧ v = root))
      ∧ ((∀ n v, getenv os n = Some v → occurs "000"%char v = false) →
         occurs "000"%char root = false →
         environment_of_block (populate_environment win32 os root) =
           worker_environment win32 os root).
Proof.
  intros root. split; [|split; [done|split; [done|]]].
  - intros w' Hrun. apply start_p3dpython_environment in Hrun as (evs & Ht & He).
    exists evs. split; [done|]. by rewrite He, populate_environment_block.
  - intros win32. split; [apply populate_environment_block|].
    split; [apply worker_environment_names|].
    split; [apply worker_environment_elem_of|].
    intros Hvalues Hroot. rewrite populate_environment_block.
    apply environment_of_block_of_environment.
    by apply worker_environment_well_formed.
Qed.

(** ** The scenario *)

Lemma scenario_fresh_reachable : reachable scenario_this scenario_fresh.
Proof. by apply (reachable_construct _ scenario_instances ∅ 1%positive). Qed.

Lemma scenario_queued_reachable : reachable scenario_this scenario_queued.
Proof.
  apply (reachable_step _ scenario_fresh
           (StepController (CallStartInstance scenario_os 1%positive)));
    [apply scenario_fresh_reachable|].
  vm_compute. reflexivity.
Qed.

Lemma scenario_queued_twice_reachable : reachable scenario_this scenario_queued_twice.
Proof.
  apply (reachable_step _ scenario_queued
           (StepController (CallStartInstance scenario_os 2%positive)));
    [apply scenario_queued_reachable|].
  vm_compute. reflexivity.
Qed.

Lemma scenario_running_reachable : reachable scenario_this scenario_running.
Proof.
  apply (reachable_step _ scenario_queued_twice
           (StepController (CallStartP3dpython scenario_os)));
    [apply scenario_queued_twice_reachable|].
  vm_compute. reflexivity.
Qed.

(** ** start_instance and the download *)

(** [start_instance] starts a download exactly when it leaves the
    session in [PS_init] and the local file can be opened; it never
    changes the state and never creates a process. *)
Lemma start_instance_downloads this os inst w w' :
  start_instance this os inst w = Ok tt w' →
  _python_state (session w') = _python_state (session w)
  ∧ processes_created (trace w') = processes_created (trace w)
  ∧ downloads_started (trace w') =
      downloads_started (trace w)
        ++ (if bool_decide (_python_state (session w) = PS_init) && os_set_filename os
            then [inst] else []).
Proof.
  intros Hrun. apply start_instance_inv in Hrun as (i & _ & ->).
  unfold started, sent, download_events. cbn [session trace _python_state set_commands
    set_instances].
  split; [done|].
  rewrite !processes_created_app, !downloads_started_app.
  destruct (bool_decide (_python_state (session w) = PS_running)),
    (bool_decide (_python_state (session w) = PS_init)), (os_set_filename os);
    cbn; by rewrite ?app_nil_r.
Qed.

(** C9.  On a session fresh from its constructor, [start_instance]
    queues the start command and hands the instance a download, which
    carries a URL and a file name and nothing of the session.  No
    process is created and the state stays [PS_init]: the call of
    [start_p3dpython] in [download_p3dpython] is commented out.  A
    second instance started while the state is still [PS_init] gets
    a download of its own. *)
Theorem first_download_spawns_nothing :
  construct scenario_instances ∅ 1%positive = Some scenario_fresh
  ∧ start_instance scenario_this scenario_os 1%positive scenario_fresh
      = Ok tt scenario_queued
  ∧ trace scenario_queued =
      [EvInitLock; EvAcquireLock; EvReleaseLock; EvNew 1%positive;
       EvStartDownload 1%positive
         {| dl_url := "http://fewmet/~drose/p3drun.tgz"; dl_filename := "temp.tgz" |}]
  ∧ processes_created (trace scenario_queued) = []
  ∧ _python_state (session scenario_queued) = PS_init
  ∧ _commands (session scenario_queued) = [1%positive]
  ∧ start_instance scenario_this scenario_os 2%positive scenario_queued
      = Ok tt scenario_queued_twice
  ∧ downloads_started (trace scenario_queued_twice) = [1%positive; 2%positive]
  ∧ processes_created (trace scenario_queued_twice) = []
  ∧ _python_state (session scenario_queued_twice) = PS_init.
Proof. split_and!; vm_compute; reflexivity. Qed.

(** * The theorems at work on the scenario *)

Lemma scenario_documents_reachable : reachable scenario_this scenario_documents.
Proof.
  by apply (reachable_construct _ scenario_instances
              {[ 5%positive := exit_document; 6%positive := empty_document ]}
              1%positive).
Qed.

Lemma queued_commands_fed_in_order_witness :
  reachable scenario_this scenario_documents
  ∧ _python_state (session scenario_documents) = PS_init
  ∧ os_create_process scenario_os = Some scenario_process
  ∧ NoDup [5%positive; 6%positive]
  ∧ (∀ p, p ∈ [5%positive; 6%positive] → p ∉ _commands (session scenario_documents))
  ∧ documents_at (docs scenario_documents) [5%positive; 6%positive]
      = Some [exit_document; empty_document]
  ∧ ∃ w1 w2,
      send_commands [5%positive; 6%positive] scenario_documents = Ok tt w1
      ∧ _commands (session w1) = [5%positive; 6%positive]
      ∧ pipe_written (trace w1) = []
      ∧ start_p3dpython scenario_os w1 = Ok tt w2
      ∧ _python_state (session w2) = PS_running
      ∧ _commands (session w2) = []
      ∧ pipe_written (trace w2) = [exit_document; empty_document]
      ∧ last (trace w2) = Some EvPipeFlush
      ∧ deleted (trace w2) = [5%positive; 6%positive].
Proof.
  assert (H2 : _python_state (session scenario_documents) = PS_init) by reflexivity.
  assert (H3 : os_create_process scenario_os = Some scenario_process) by reflexivity.
  assert (H4 : NoDup [5%positive; 6%positive]).
  { apply (bool_decide_unpack _). vm_compute. exact I. }
  assert (H5 : ∀ p, p ∈ [5%positive; 6%positive]
                    → p ∉ _commands (session scenario_documents)).
  { intros p _ Hp. vm_compute in Hp. by apply elem_of_nil in Hp. }
  assert (H6 : documents_at (docs scenario_documents) [5%positive; 6%positive]
               = Some [exit_document; empty_document]) by (vm_compute; reflexivity).
  split_and!; [apply scenario_documents_reachable|exact H2|exact H3|exact H4|exact H5
              |exact H6|].
  destruct (queued_commands_fed_in_order scenario_this scenario_os scenario_documents
              [5%positive; 6%positive] [exit_document; empty_document] scenario_process
              scenario_documents_reachable H2 H3 H4 H5 H6)
    as (queued & w1 & w2 & Hqueued & Hsend & Hq1 & Hw1 & Hspawn & Hst2 & Hq2 & Hw2
        & Hfl & Hdel & _).
  assert (queued = []) as -> by (vm_compute in Hqueued; by injection Hqueued as <-).
  exists w1, w2. split_and!; done.
Defined.

Lemma send_command_sends_or_queues_witness :
  send_command 5%positive scenario_running_document =
    Ok tt {| session := session scenario_running_document;
             instances := instances scenario_running_document;
             docs := delete 5%positive (docs scenario_running_document);
             trace := trace scenario_running_document
                        ++ [EvPipeWrite exit_document; EvPipeFlush; EvDelete 5%positive] |}
  ∧ (∃ w', send_command 3%positive scenario_queued_twice = Ok tt w'
           ∧ _commands (session w') = [1%positive; 2%positive; 3%positive]
           ∧ docs w' = docs scenario_queued_twice
           ∧ trace w' = trace scenario_queued_twice)
  ∧ pipe_written (trace scenario_queued_twice) = []
  ∧ Forall (λ ok, ok = false) (processes_created (trace scenario_queued_twice)).
Proof.
  destruct send_command_sends_or_queues as (Hrunning & Hqueue & Hsilent).
  split; [apply Hrunning; [reflexivity|vm_compute; reflexivity]|].
  split.
  - destruct (Hqueue scenario_queued_twice 3%positive)
      as (w' & Hrun & _ & Hq & _ & _ & _ & _ & _ & _ & _ & _ & _ & Hd & Ht);
      [vm_compute; discriminate|].
    exists w'. split; [exact Hrun|]. split; [exact Hq|]. split; [exact Hd|exact Ht].
  - apply (Hsilent scenario_this); [apply scenario_queued_twice_reachable|].
    vm_compute. discriminate.
Defined.

Lemma disconnect_notifies_every_instance_witness :
  reachable scenario_this scenario_running
  ∧ (instances_in_order (_instances (session scenario_running))).*2
      = [1%positive; 2%positive]
  ∧ (∃ w', rt_terminate_with scenario_this
             [[]; [CallTerminateInstance 2%positive]] scenario_running = Ok tt w'
           ∧ ∃ evs, trace w' = trace scenario_running
                                 ++ [EvAcquireLock; EvReleaseLock] ++ evs
                    ∧ stop_requests evs = [1%positive; 2%positive])
  ∧ (∃ w', rt_thread_run
             ((ReadDoc <$> [empty_document]) ++ ReadEof :: [ReadDoc exit_document])
             scenario_running
           = Ok (ReaderReturned, [ReadDoc exit_document]) w'
           ∧ stop_requests (trace w') =
               stop_requests (trace scenario_running) ++ [1%positive; 2%positive]
           ∧ threads_created (trace w') = threads_created (trace scenario_running)).
Proof.
  pose proof (disconnect_notifies_every_instance scenario_this scenario_running
                scenario_running_reachable) as H.
  cbv zeta in H. destruct H as (_ & _ & _ & Hwith & Hreturns & Hreader).
  split; [apply scenario_running_reachable|].
  split; [vm_compute; reflexivity|].
  split.
  - destruct (Hreturns [[]; [CallTerminateInstance 2%positive]]) as [w' Hw'].
    { intros c Hc. cbn in Hc. apply list_elem_of_singleton in Hc as ->.
      exists 2%positive. split; [done|]. vm_compute. by eexists. }
    exists w'. split; [done|]. exact (Hwith _ _ Hw').
  - apply (Hreader [empty_document] ReadEof [ReadDoc exit_document]); [reflexivity|auto].
Defined.

Lemma terminate_instance_detaches_own_witness :
  instances scenario_running !! 1%positive
    = Some (set_inst_session (Some scenario_this) (scenario_instance 7))
  ∧ ∃ w' d evs,
      terminate_instance scenario_this 1%positive scenario_running = Ok tt w'
      ∧ is_command "terminate_instance" d
      ∧ command_attribute "id" d = Some "7"
      ∧ pipe_written (trace w') = pipe_written (trace scenario_running) ++ [d]
      ∧ trace w' = trace scenario_running ++ evs ++ [EvAcquireLock; EvReleaseLock]
      ∧ _instances (session w') = delete 7 (_instances (session scenario_running))
      ∧ (_session <$> instances w' !! 1%positive) = Some None.
Proof.
  assert (H1 : instances scenario_running !! 1%positive
               = Some (set_inst_session (Some scenario_this) (scenario_instance 7)))
    by (vm_compute; reflexivity).
  split; [exact H1|].
  destruct (terminate_instance_detaches_own scenario_this 1%positive scenario_running
              _ H1)
    as (w' & d & evs & Hrun & Hcmd & Hid & _ & Hrunning & _ & Htrace & Hown & _).
  exists w', d, evs.
  destruct Hrunning as [Hw _]; [vm_compute; reflexivity|].
  destruct Hown as (Hreg & _ & Hback); [reflexivity|].
  split_and!; done.
Defined.

Lemma teardown_of_running_session_witness :
  reachable scenario_this scenario_running
  ∧ _python_state (session scenario_running) = PS_running
  ∧ ∃ w' rest,
      P3DSession_dtor scenario_os scenario_running = Ok tt w'
      ∧ trace w' =
          trace scenario_running
            ++ [EvPipeWrite exit_document; EvPipeFlush; EvPipeWriteClose;
                EvPipeReadClose;
                EvSys (WaitForSingleObject 20%positive (Millis 2000) true);
                EvCerr ("Terminating process." +:+ nl);
                EvSys (TerminateProcess 20%positive 2);
                EvSys (CloseHandle (Some 20%positive));
                EvSys (CloseHandle (Some 21%positive))]
            ++ rest.
Proof.
  assert (H2 : _python_state (session scenario_running) = PS_running)
    by (vm_compute; reflexivity).
  split; [apply scenario_running_reachable|]. split; [exact H2|].
  destruct (teardown_of_running_session scenario_this scenario_os scenario_running
              scenario_running_reachable H2)
    as (pi & w' & rest & Hpi & _ & Hok & _ & Htrace & _).
  assert (pi = scenario_process) as ->.
  { vm_compute in Hpi. by injection Hpi as <-. }
  exists w', rest. split.
  - apply Hok. vm_compute. by eexists.
  - rewrite Htrace. reflexivity.
Defined.

Lemma teardown_before_running_witness :
  reachable scenario_this scenario_queued_twice
  ∧ _python_state (session scenario_queued_twice) = PS_init
  ∧ ∃ w',
      P3DSession_dtor scenario_os scenario_queued_twice = Ok tt w'
      ∧ trace w' = trace scenario_queued_twice
                     ++ [EvDelete 1%positive; EvDelete 2%positive; EvDestroyLock]
      ∧ joins (trace w') = []
      ∧ _commands (session w') = [].
Proof.
  assert (H2 : _python_state (session scenario_queued_twice) = PS_init)
    by (vm_compute; reflexivity).
  split; [apply scenario_queued_twice_reachable|]. split; [exact H2|].
  destruct (teardown_before_running scenario_this scenario_os scenario_queued_twice
              scenario_queued_twice_reachable H2)
    as (w' & Hrun & _ & _ & Htrace & Hjoins & _ & _ & _ & _ & Hq).
  exists w'. split_and!; [done| |by rewrite Hjoins|done].
  rewrite Htrace. f_equal.
Defined.

Lemma worker_environment_is_filtered_witness :
  environment_of_block (populate_environment true scenario_os "C:/p3drun")
    = [("HOME", "/home/drose"); ("PATH", "C:/p3drun"); ("PYTHONPATH", "C:/p3drun")]
  ∧ ∃ evs, trace scenario_running = trace scenario_queued_twice ++ evs
           ∧ process_environments evs =
               [block_of_environment
                  [("HOME", "/home/drose"); ("PATH", "C:/p3drun");
                   ("PYTHONPATH", "C:/p3drun")]].
Proof.
  pose proof (worker_environment_is_filtered scenario_os scenario_queued_twice) as H.
  cbv zeta in H. destruct H as (Hspawn & _ & _ & Hall).
  destruct (Hall true) as (_ & _ & _ & Hread).
  split.
  - change (_python_root_dir (session scenario_queued_twice)) with "C:/p3drun" in Hread.
    rewrite Hread; [vm_compute; reflexivity| |reflexivity].
    intros n v Hget. unfold getenv in Hget.
    apply elem_of_map_to_list in Hget. vm_compute in Hget.
    repeat (apply elem_of_cons in Hget as [[= -> ->]|Hget]; [reflexivity|]).
    by apply elem_of_nil in Hget.
  - destruct (Hspawn scenario_running) as (evs & Ht & He); [vm_compute; reflexivity|].
    exists evs. split; [done|]. rewrite He. vm_compute. reflexivity.
Defined.

Lemma spawn_failure_keeps_queue_witness :
  os_create_process scenario_os_no_process = None
  ∧ ∃ w' evs,
      start_p3dpython scenario_os_no_process scenario_queued_twice = Ok tt w'
      ∧ trace w' = trace scenario_queued_twice ++ evs
      ∧ last evs = Some (EvCerr ("Failed to create process." +:+ nl))
      ∧ _python_state (session w') = PS_init
      ∧ _commands (session w') = [1%positive; 2%positive]
      ∧ docs w' = docs scenario_queued_twice
      ∧ _started_read_thread (session w') = false.
Proof.
  assert (H1 : os_create_process scenario_os_no_process = None) by reflexivity.
  split; [exact H1|].
  destruct (spawn_failure_keeps_queue scenario_os_no_process scenario_queued_twice H1)
    as (w' & evs & Hrun & Ht & Hl & _ & Hst & Hq & Hd & _ & _ & _ & Hs & _).
  exists w', evs. split_and!; done.
Defined.

Lemma running_queue_empty_witness :
  reachable scenario_this scenario_running
  ∧ _python_state (session scenario_running) = PS_running
  ∧ _commands (session scenario_running) = [].
Proof.
  assert (H2 : _python_state (session scenario_running) = PS_running)
    by (vm_compute; reflexivity).
  split; [apply scenario_running_reachable|]. split; [exact H2|].
  destruct (running_queue_empty scenario_this scenario_running
              scenario_running_reachable) as (Hempty & _).
  exact (Hempty H2).
Defined.


(** * Further properties *)

(** ** The contract of start_instance *)

Lemma start_instance_asserts_fail this os inst w i :
  instances w !! inst = Some i →
  ¬ start_asserts w i →
  start_instance this os inst w = Abort "assertion failed" w.
Proof.
  intros Hi Hno. unfold start_instance, deref_inst. run_m. rewrite Hi. run_m.
  destruct (decide (_session i = None)) as [Hnull|Hnull].
  2: { by rewrite (bool_decide_eq_false_2 _ Hnull). }
  rewrite (bool_decide_eq_true_2 _ Hnull). run_m.
  destruct (decide (get_session_key i = _session_key (session w))) as [Hkey|Hkey].
  2: { by rewrite (bool_decide_eq_false_2 _ Hkey). }
  rewrite (bool_decide_eq_true_2 _ Hkey). run_m.
  destruct (decide (get_python_version i = _python_version (session w))) as [Hver|Hver].
  2: { by rewrite (bool_decide_eq_false_2 _ Hver). }
  by destruct Hno.
Qed.

Lemma start_instance_refused this os inst w i :
  instances w !! inst = Some i →
  start_asserts w i →
  is_Some (_instances (session w) !! get_instance_id i) →
  start_instance this os inst w =
    Abort "assertion failed" (start_refused this inst i w).
Proof.
  intros Hi (Hnull & Hkey & Hver) [other Hother].
  unfold start_instance, start_refused, deref_inst, assign_inst_session,
    instances_insert.
  run_m. rewrite Hi. run_m.
  rewrite !bool_decide_eq_true_2 by done. run_m. rewrite Hi. run_m.
  rewrite Hother. run_m. norm_trace. by destruct w.
Qed.

Lemma start_instance_dangling this os inst w :
  instances w !! inst = None →
  start_instance this os inst w = Abort "dangling P3DInstance" w.
Proof. intros Hi. unfold start_instance, deref_inst. run_m. by rewrite Hi. Qed.

(** X1.  [start_instance] on a live instance returns exactly when the
    instance is unattached, its session key and version are the
    session's, and its id is free in [_instances].  When one of the
    three assertions at its head fails it stops there, the world
    untouched.  When they hold but the id is taken it stops at
    [assert(inserted)], after the locked region: [_instances] is as it
    was, yet the instance's [_session] already points at this session. *)
Theorem start_instance_contract this os inst w i :
  instances w !! inst = Some i →
  (may_start w inst i → start_instance this os inst w = Ok tt (started this os inst i w))
  ∧ (¬ start_asserts w i →
       start_instance this os inst w = Abort "assertion failed" w)
  ∧ (start_asserts w i →
     is_Some (_instances (session w) !! get_instance_id i) →
       start_instance this os inst w =
         Abort "assertion failed" (start_refused this inst i w))
  ∧ ((∃ w', start_instance this os inst w = Ok tt w') ↔ may_start w inst i).
Proof.
  intros Hi. split; [apply start_instance_spec|]. split; [|split].
  - by apply start_instance_asserts_fail.
  - by apply start_instance_refused.
  - split.
    + intros [w' Hrun]. apply start_instance_inv in Hrun as (i' & Hok & _).
      destruct Hok as (Hi' & ?). rewrite Hi in Hi'. by injection Hi' as <-.
    + intros Hok. eexists. by apply start_instance_spec.
Qed.

(** ** start_instance and terminate_instance together *)

Lemma set_inst_session_idem v v' i :
  set_inst_session v (set_inst_session v' i) = set_inst_session v i.
Proof. done. Qed.

Lemma set_inst_session_same i : set_inst_session (_session i) i = i.
Proof. by destruct i. Qed.

(** X2.  [start_instance] followed by [terminate_instance] on the same
    instance undoes the registration: [_instances] and every instance
    object are as before, the instance unattached again.  What remains
    is the two commands, the start before the terminate: written to the
    pipe when Python runs, appended to [_commands] otherwise. *)
Theorem start_then_terminate this os inst w i :
  may_start w inst i →
  ∃ w1 w2,
    start_instance this os inst w = Ok tt w1
    ∧ terminate_instance this inst w1 = Ok tt w2
    ∧ _instances (session w1) !! get_instance_id i = Some inst
    ∧ (_session <$> instances w1 !! inst) = Some (Some this)
    ∧ _instances (session w2) = _instances (session w)
    ∧ instances w2 = instances w
    ∧ _python_state (session w2) = _python_state (session w)
    ∧ (_python_state (session w) = PS_running →
         pipe_written (trace w2) =
           pipe_written (trace w)
             ++ [start_instance_document i; terminate_instance_document i]
         ∧ _commands (session w2) = _commands (session w)
         ∧ docs w2 = docs w)
    ∧ (_python_state (session w) ≠ PS_running →
         pipe_written (trace w2) = pipe_written (trace w)
         ∧ ∃ p1 p2,
             _commands (session w2) = _commands (session w) ++ [p1; p2]
             ∧ p1 ≠ p2
             ∧ docs w !! p1 = None ∧ docs w !! p2 = None
             ∧ docs w2 = <[p2 := terminate_instance_document i]>
                           (<[p1 := start_instance_document i]> (docs w))).
Proof.
  intros Hok. pose proof Hok as (Hi & Hnull & Hkey & Hver & Hfree).
  exists (started this os inst i w).
  assert (Hi1 : instances (started this os inst i w) !! inst
                = Some (set_inst_session (Some this) i)).
  { unfold started. cbn [instances]. by rewrite lookup_insert_eq. }
  exists (terminated this inst (set_inst_session (Some this) i)
            (started this os inst i w)).
  split; [by apply start_instance_spec|].
  split; [by apply terminate_instance_spec|].
  split. { unfold started. world_simpl. by rewrite lookup_insert_eq. }
  split. { by rewrite Hi1. }
  unfold terminated. cbn [_session set_inst_session].
  rewrite (bool_decide_eq_true_2 (Some this = Some this)) by done.
  split.
  { unfold started. world_simpl. cbn [get_instance_id inst_instance_id set_inst_session].
    rewrite delete_insert_eq. by apply delete_id. }
  split.
  { unfold started. cbn [instances]. rewrite insert_insert_eq.
    rewrite set_inst_session_idem, <- Hnull, set_inst_session_same.
    by apply insert_id. }
  split; [done|].
  split.
  - intros Hst. unfold started, sent. world_simpl. rewrite !Hst.
    rewrite !(bool_decide_eq_true_2 (PS_running = PS_running)) by done.
    rewrite ?(bool_decide_eq_false_2 (PS_running = PS_init)) by done. world_simpl.
    split_and!; [|done|done].
    rewrite !pipe_written_app. cbn. by rewrite ?app_nil_r, <- ?app_assoc.
  - intros Hst.
    assert (Hr : bool_decide (_python_state (session w) = PS_running) = false)
      by (by apply bool_decide_eq_false_2).
    assert (Hfresh1 := next_doc_fresh w).
    set (w1 := started this os inst i w).
    assert (Hq1 : _commands (session w1) = _commands (session w) ++ [next_doc w]).
    { subst w1. unfold started. world_simpl. by rewrite Hr. }
    assert (Hd1 : docs w1 = <[next_doc w := start_instance_document i]> (docs w)).
    { subst w1. unfold started. cbn [docs]. by rewrite Hr. }
    assert (Hs1 : _python_state (session w1) = _python_state (session w)) by done.
    assert (Ht1 : pipe_written (trace w1) = pipe_written (trace w)).
    { subst w1. unfold started, sent. cbn [trace]. rewrite Hr.
      destruct (download_events_silent os inst) as (Hd & _).
      rewrite !pipe_written_app.
      destruct (bool_decide (_python_state (session w) = PS_init)); rewrite ?Hd; cbn;
        by rewrite !app_nil_r. }
    assert (Hfresh2 := next_doc_fresh w1).
    unfold sent. world_simpl. rewrite Hs1, Hr. split.
    + cbn [trace]. rewrite !pipe_written_app, Ht1. cbn. by rewrite !app_nil_r.
    + exists (next_doc w), (next_doc w1). rewrite Hq1, Hd1, <- app_assoc.
      split_and!; [done| |done| |done].
      * intros Heq. rewrite Hd1, <- Heq, lookup_insert_eq in Hfresh2. done.
      * rewrite Hd1 in Hfresh2. apply lookup_insert_None in Hfresh2. tauto.
Qed.

(** ** The registry and the back-references *)

Lemma feed_commands_session cs : ∀ w w',
  feed_commands cs w = Ok tt w' →
  session w' = session w ∧ instances w' = instances w.
Proof.
  induction cs as [|c cs IH]; intros w w' Hfeed.
  - by injection Hfeed as <-.
  - cbn [feed_commands] in Hfeed. revert Hfeed. unfold deref_doc, delete_doc. run_m.
    destruct (docs w !! c) as [d|] eqn:Hd; [|done]. run_m. rewrite Hd.
    intros Hfeed. by apply IH in Hfeed.
Qed.

Lemma start_p3dpython_frame os w w' :
  start_p3dpython os w = Ok tt w' →
  instances w' = instances w ∧ _instances (session w') = _instances (session w).
Proof.
  intros Hstep.
  destruct (os_create_process os) as [pi|] eqn:Hcp.
  - destruct (_read_thread_continue (session w)) eqn:Hc.
    { destruct (start_p3dpython_respawn os w pi Hcp Hc) as [w0 Heq0].
      by rewrite Heq0 in Hstep. }
    destruct (start_p3dpython_success os w pi Hcp Hc) as (evs & _ & _ & Heq).
    rewrite Heq in Hstep. clear Heq. unfold bind at 1 in Hstep.
    match type of Hstep with
    | match feed_commands ?cs ?w0 with _ => _ end = _ =>
        destruct (feed_commands cs w0) as [[] w1|] eqn:Hfeed; [|done]
    end.
    apply feed_commands_session in Hfeed as [Hs1 Hi1]. cbn in Hs1, Hi1.
    revert Hstep. run_m. intros [= <-]. cbn [instances session]. rewrite Hs1, Hi1.
    by unfold spawned_session, opened_session.
  - destruct (start_p3dpython_failure os w Hcp) as (evs & _ & _ & _ & _ & Heq).
    rewrite Heq in Hstep. by injection Hstep as <-.
Qed.

Lemma step_keeps_registry_attached this st w w' :
  registry_attached this w →
  step this st w = Ok tt w' →
  registry_attached this w'.
Proof.
  intros Hatt Hstep.
  destruct st as [[os inst|inst|os]|inbound|inbound];
    cbn [step controller_call] in Hstep.
  - apply start_instance_inv in Hstep as (i & (Hi & Hnull & Hkey & Hver & Hfree) & ->).
    intros k p. unfold started. world_simpl. intros Hk.
    destruct (decide (get_instance_id i = k)) as [<-|Hne].
    + rewrite lookup_insert_eq in Hk. injection Hk as <-.
      rewrite lookup_insert_eq. by eexists.
    + rewrite lookup_insert_ne in Hk by done.
      destruct (Hatt k p Hk) as (ip & Hip & Hid & Hs).
      destruct (decide (inst = p)) as [<-|Hnp].
      * rewrite Hi in Hip. injection Hip as <-. congruence.
      * rewrite lookup_insert_ne by done. by eexists.
  - apply terminate_instance_inv in Hstep as (i & Hi & ->).
    intros k p. unfold terminated. world_simpl. intros Hk.
    destruct (bool_decide (_session i = Some this)); [|by apply Hatt].
    apply lookup_delete_Some in Hk as [Hne Hk].
    destruct (Hatt k p Hk) as (ip & Hip & Hid & Hs).
    destruct (decide (inst = p)) as [<-|Hnp].
    + rewrite Hi in Hip. injection Hip as <-. done.
    + rewrite lookup_insert_ne by done. by eexists.
  - apply start_p3dpython_frame in Hstep as [Hi Hr].
    intros k p. rewrite Hr, Hi. apply Hatt.
  - unfold bind in Hstep.
    destruct (rt_thread_run inbound w) as [r w1|] eqn:Hrun; [|done].
    injection Hstep as <-.
    apply rt_thread_run_changes in Hrun as ([pr Hs] & Hi & _).
    intros k p. rewrite Hs, Hi. world_simpl. apply Hatt.
  - unfold bind in Hstep.
    destruct (rt_thread_loop inbound w) as [r w1|] eqn:Hrun; [|done].
    injection Hstep as <-.
    apply rt_thread_loop_changes in Hrun as ([pr Hs] & Hi & _).
    intros k p. rewrite Hs, Hi. world_simpl. apply Hatt.
Qed.

Lemma reachable_registry_attached this w :
  reachable this w → registry_attached this w.
Proof.
  induction 1 as [insts heap inst w Hc|w st w' Hreach IH Hstep].
  - unfold construct in Hc. destruct (insts !! inst) as [i|]; [|done].
    injection Hc as <-. intros k p Hk. cbn -[lookup] in Hk.
    by rewrite lookup_empty in Hk.
  - by eapply step_keeps_registry_attached.
Qed.

(** X3.  In every world a session can reach, each entry of [_instances]
    is a live instance, filed under its own id, whose [_session] is this
    session, and no instance is filed twice.  So [terminate_instance] on
    a registered instance always finds its guard true: it returns, the
    entry is gone, the other entries stay, and the instance is
    unattached. *)
Theorem registered_instances_are_attached this w :
  reachable this w →
  registry_attached this w
  ∧ (∀ k1 k2 inst,
       _instances (session w) !! k1 = Some inst →
       _instances (session w) !! k2 = Some inst → k1 = k2)
  ∧ (∀ k inst,
       _instances (session w) !! k = Some inst →
       ∃ w', terminate_instance this inst w = Ok tt w'
             ∧ _instances (session w') = delete k (_instances (session w))
             ∧ (_session <$> instances w' !! inst) = Some None
             ∧ registry_attached this w').
Proof.
  intros Hreach. pose proof (reachable_registry_attached this w Hreach) as Hatt.
  split; [done|]. split.
  - intros k1 k2 inst H1 H2.
    destruct (Hatt k1 inst H1) as (i1 & Hi1 & <- & _).
    destruct (Hatt k2 inst H2) as (i2 & Hi2 & <- & _). congruence.
  - intros k inst Hk. destruct (Hatt k inst Hk) as (i & Hi & Hid & Hs).
    exists (terminated this inst i w).
    assert (Hrun : terminate_instance this inst w = Ok tt (terminated this inst i w))
      by (by apply terminate_instance_spec).
    split; [done|]. split; [|split].
    + unfold terminated. world_simpl. rewrite bool_decide_eq_true_2 by done.
      by rewrite Hid.
    + unfold terminated. cbn [instances]. rewrite bool_decide_eq_true_2 by done.
      by rewrite lookup_insert_eq.
    + by apply (step_keeps_registry_attached this
                  (StepController (CallTerminateInstance inst)) w).
Qed.

(** ** One process per session *)

Lemma spawned_app evs1 evs2 : spawned (evs1 ++ evs2) = spawned evs1 ++ spawned evs2.
Proof. unfold spawned. by rewrite processes_created_app, filter_app. Qed.

Lemma spawned_none evs : processes_created evs = [] → spawned evs = [].
Proof. unfold spawned. by intros ->. Qed.

Lemma fed_processes_created cs : ∀ ds, processes_created (fed cs ds) = [].
Proof. induction cs as [|c cs IH]; intros [|d ds]; try done. apply IH. Qed.

Lemma start_p3dpython_respawn_world os w pi :
  os_create_process os = Some pi →
  _read_thread_continue (session w) = true →
  ∃ evs, Forall quiet evs ∧ processes_created evs = [true] ∧
    start_p3dpython os w =
      Abort "assertion failed"
        {| session :=
             set_python_state PS_running
               (opened_session os (set_p3dpython (Some pi) (session w)));
           instances := instances w; docs := docs w;
           trace := trace w ++ evs |}.
Proof.
  intros Hcp Hcont.
  unfold start_p3dpython, spawn_read_thread, opened_session, pipe_w_to, pipe_r_from.
  rewrite Hcp. run_m.
  destruct (os_pipe_to os) as [[r1 w1]|], (os_pipe_from os) as [[r2 w2]|],
    (bool_decide (_output_filename (session w) = "")), (os_create_file os) as [fh|];
    run_m; rewrite Hcont; run_m; norm_trace; run_m;
    (eexists; split; [|split; [|reflexivity]]; [repeat constructor | reflexivity]).
Qed.

Lemma step_spawned this st w w' :
  session_inv w →
  step this st w = Ok tt w' →
  ∃ evs, trace w' = trace w ++ evs
         ∧ spawned evs =
             if bool_decide (_python_state (session w) = PS_init
                             ∧ _python_state (session w') = PS_running)
             then [true] else [].
Proof.
  intros Hinv Hstep.
  destruct st as [[os inst|inst|os]|inbound|inbound];
    cbn [step controller_call] in Hstep.
  - apply start_instance_inv in Hstep as (i & _ & ->). unfold started.
    cbn [trace session _python_state set_commands set_instances].
    eexists. split; [done|].
    rewrite (bool_decide_eq_false_2
               (_python_state (session w) = PS_init
                ∧ _python_state (session w) = PS_running))
      by (intros [H1 H2]; congruence).
    apply spawned_none. rewrite !processes_created_app.
    destruct (download_events_silent os inst) as (_ & Hd & _).
    unfold sent.
    by destruct (bool_decide (_python_state (session w) = PS_running)),
      (bool_decide (_python_state (session w) = PS_init)); rewrite ?Hd.
  - apply terminate_instance_inv in Hstep as (i & _ & ->). unfold terminated.
    cbn [trace session _python_state set_commands set_instances].
    eexists. split; [done|].
    rewrite (bool_decide_eq_false_2
               (_python_state (session w) = PS_init
                ∧ _python_state (session w) = PS_running))
      by (intros [H1 H2]; congruence).
    apply spawned_none. rewrite !processes_created_app. unfold sent.
    by destruct (bool_decide (_python_state (session w) = PS_running)).
  - destruct Hinv as [Hstate Hinit Hrun [Hnd Hlive] Hreg].
    destruct (os_create_process os) as [pi|] eqn:Hcp.
    + destruct Hstate as [Hst|Hst].
      * destruct (Hinit Hst) as (_ & _ & _ & _ & Hc).
        destruct (start_p3dpython_success os w pi Hcp Hc) as (evs & Hq & Hpe & Heq).
        rewrite Heq in Hstep. clear Heq.
        assert (∃ ds, documents_at (docs w) (_commands (session w)) = Some ds)
          as [ds Hds].
        { unfold documents_at. clear -Hlive.
          induction (_commands (session w)) as [|c cs IH].
          - by exists [].
          - destruct (Hlive c) as [d Hd]; [apply elem_of_cons; auto|].
            destruct IH as [ds Hds]; [intros p Hp; apply Hlive, elem_of_cons; auto|].
            exists (d :: ds). apply mapM_Some. constructor; [done|].
            by apply mapM_Some. }
        unfold bind at 1 in Hstep.
        erewrite feed_commands_ok in Hstep; [|done|exact Hds].
        revert Hstep. run_m. intros [= <-]. cbn [trace session].
        exists (evs ++ fed (_commands (session w)) ds ++ [EvPipeFlush]).
        split; [by rewrite <- !app_assoc|].
        rewrite bool_decide_eq_true_2 by done.
        rewrite !spawned_app, (spawned_none (fed _ _)) by apply fed_processes_created.
        unfold spawned. rewrite Hpe. done.
      * destruct (Hrun Hst) as (_ & _ & _ & Hc).
        destruct (start_p3dpython_respawn os w pi Hcp Hc) as [w0 Heq0].
        by rewrite Heq0 in Hstep.
    + destruct (start_p3dpython_failure os w Hcp) as (evs & _ & Hpe & _ & _ & Heq).
      rewrite Heq in Hstep. injection Hstep as <-. cbn [trace session].
      exists evs. split; [done|].
      rewrite bool_decide_eq_false_2.
      * unfold spawned. by rewrite Hpe.
      * unfold opened_session. world_simpl. intros [H1 H2]. congruence.
  - unfold bind in Hstep.
    destruct (rt_thread_run inbound w) as [r w1|] eqn:Hrun; [|done].
    injection Hstep as <-.
    apply rt_thread_run_changes in Hrun as ([pr Hs] & _ & _ & evs & Ht & _ & Hp & _).
    exists evs. split; [done|].
    rewrite bool_decide_eq_false_2; [by apply spawned_none|].
    rewrite Hs. world_simpl. intros [H1 H2]. congruence.
  - unfold bind in Hstep.
    destruct (rt_thread_loop inbound w) as [r w1|] eqn:Hrun; [|done].
    injection Hstep as <-.
    apply rt_thread_loop_changes in Hrun as ([pr Hs] & _ & _ & evs & Ht & _ & Hp & _).
    exists evs. split; [done|].
    rewrite bool_decide_eq_false_2; [by apply spawned_none|].
    rewrite Hs. world_simpl. intros [H1 H2]. congruence.
Qed.

Lemma step_keeps_running this st w w' :
  session_inv w →
  _python_state (session w) = PS_running →
  step this st w = Ok tt w' →
  _python_state (session w') = PS_running.
Proof.
  intros Hinv Hst Hstep.
  destruct st as [[os inst|inst|os]|inbound|inbound];
    cbn [step controller_call] in Hstep.
  - by apply start_instance_inv in Hstep as (i & _ & ->).
  - by apply terminate_instance_inv in Hstep as (i & _ & ->).
  - destruct (inv_running w Hinv Hst) as (_ & _ & _ & Hc).
    destruct (os_create_process os) as [pi|] eqn:Hcp.
    + destruct (start_p3dpython_respawn os w pi Hcp Hc) as [w0 Heq0].
      by rewrite Heq0 in Hstep.
    + destruct (start_p3dpython_failure os w Hcp) as (evs & _ & _ & _ & _ & Heq).
      rewrite Heq in Hstep. by injection Hstep as <-.
  - unfold bind in Hstep.
    destruct (rt_thread_run inbound w) as [r w1|] eqn:Hrt; [|done].
    injection Hstep as <-.
    by apply rt_thread_run_changes in Hrt as ([pr ->] & _).
  - unfold bind in Hstep.
    destruct (rt_thread_loop inbound w) as [r w1|] eqn:Hrt; [|done].
    injection Hstep as <-.
    by apply rt_thread_loop_changes in Hrt as ([pr ->] & _).
Qed.

(** X4.  A session has at most one child.  In every world it can
    reach, [CreateProcess] has succeeded once if the state is
    [PS_running] and never otherwise.  A [start_p3dpython] on a running
    session whose [CreateProcess] succeeds again does not return: it
    stops on the assertion of [spawn_read_thread], by which time the
    second process exists, [_p3dpython] holds the new process and the
    streams have been opened again. *)
Theorem one_process_per_session this w :
  reachable this w →
  spawned (trace w) =
    (if bool_decide (_python_state (session w) = PS_running) then [true] else [])
  ∧ (∀ os pi,
       _python_state (session w) = PS_running →
       os_create_process os = Some pi →
       ∃ w', start_p3dpython os w = Abort "assertion failed" w'
             ∧ spawned (trace w') = [true; true]
             ∧ _p3dpython (session w') = Some pi
             ∧ _pipe_write (session w') = hs_open (pipe_w_to os)
             ∧ _pipe_read (session w') = hs_open (pipe_r_from os)
             ∧ _commands (session w') = []).
Proof.
  intros Hreach.
  assert (Hcount : spawned (trace w) =
            if bool_decide (_python_state (session w) = PS_running) then [true] else []).
  { induction Hreach as [insts heap inst w Hc|w st w' Hreach IH Hstep].
    - unfold construct in Hc. destruct (insts !! inst) as [i|]; [|done].
      by injection Hc as <-.
    - pose proof (reachable_inv this w Hreach) as Hinv.
      assert (Hinv' : session_inv w') by (by eapply step_preserves).
      destruct (step_spawned this st w w' Hinv Hstep) as (evs & -> & Hevs).
      rewrite spawned_app, IH, Hevs.
      destruct (inv_state w Hinv) as [Hst|Hst], (inv_state w' Hinv') as [Hst'|Hst'];
        rewrite Hst, Hst'; try done.
      exfalso. pose proof (step_keeps_running this st w w' Hinv Hst Hstep). congruence. }
  split; [done|].
  intros os pi Hst Hcp.
  destruct (reachable_inv this w Hreach) as [_ _ Hrun _ _].
  destruct (Hrun Hst) as (Hq & _ & _ & Hc).
  destruct (start_p3dpython_respawn_world os w pi Hcp Hc) as (evs & _ & Hpe & Heq).
  eexists. split; [exact Heq|]. cbn [trace session]. unfold opened_session. world_simpl.
  split_and!; try done.
  rewrite spawned_app, Hcount, bool_decide_eq_true_2 by done.
  unfold spawned. by rewrite Hpe.
Qed.

(** ** Joining the read thread *)

Lemma join_read_thread_started os w th :
  _started_read_thread (session w) = true →
  _read_thread (session w) = Some th →
  join_read_thread os w =
    Ok tt {| session := joined_session (os_pending_read os) (session w);
             instances := instances w;
             docs := last_heap (os_pending_read os) (next_doc w) (docs w);
             trace := trace w
               ++ [EvCerr ("session waiting for thread" +:+ nl);
                   EvPipeReadClose;
                   EvSys (WaitForSingleObject th INFINITE false)]
               ++ last_events (os_pending_read os) (next_doc w)
                    (instances_in_order (_instances (session w))).*2
               ++ [EvSys (CloseHandle (Some th));
                   EvCerr ("session done waiting for thread" +:+ nl)] |}.
Proof.
  intros Hs Hth. unfold join_read_thread, joined_session. run_m. rewrite Hs. run_m.
  rewrite Hth. run_m. rewrite rt_thread_last_spec. unfold next_doc. run_m.
  by norm_trace.
Qed.

(** X5.  Joining is idempotent: [join_read_thread] twice does what
    [join_read_thread] does once, in every world.  On a started thread
    it clears [_read_thread_continue] and closes the read half of the
    pipe before it waits without limit for the thread, then closes the
    handle and resets [_read_thread] and [_started_read_thread], after
    which [spawn_read_thread] may be called again.  Between the wait
    and the [CloseHandle] comes what the read thread still does: nothing
    when no read is pending, and otherwise the turn of the pending read,
    which ends badly and posts a stop to every registered instance. *)
Theorem join_read_thread_idempotent os w :
  (join_read_thread os;;; join_read_thread os) w = join_read_thread os w
  ∧ (∀ th,
       _started_read_thread (session w) = true →
       _read_thread (session w) = Some th →
       ∃ w' evs,
         join_read_thread os w = Ok tt w'
         ∧ trace w' =
             trace w
               ++ [EvCerr ("session waiting for thread" +:+ nl);
                   EvPipeReadClose;
                   EvSys (WaitForSingleObject th INFINITE false)]
               ++ evs
               ++ [EvSys (CloseHandle (Some th));
                   EvCerr ("session done waiting for thread" +:+ nl)]
         ∧ evs = last_events (os_pending_read os) (next_doc w)
                   (instances_in_order (_instances (session w))).*2
         ∧ (os_pending_read os = NothingPending →
              trace w' =
                trace w
                  ++ [EvCerr ("session waiting for thread" +:+ nl);
                      EvPipeReadClose;
                      EvSys (WaitForSingleObject th INFINITE false);
                      EvSys (CloseHandle (Some th));
                      EvCerr ("session done waiting for thread" +:+ nl)])
         ∧ stop_requests evs =
             (if pending_outcome (os_pending_read os) is Some _
              then (instances_in_order (_instances (session w))).*2 else [])
         ∧ _started_read_thread (session w') = false
         ∧ _read_thread_continue (session w') = false
         ∧ _read_thread (session w') = None
         ∧ hs_handle (_pipe_read (session w')) = None
         ∧ ∀ os', ∃ w'', spawn_read_thread os' w' = Ok tt w''
                         ∧ _started_read_thread (session w'') = true
                         ∧ _read_thread (session w'') = os_create_thread os').
Proof.
  split.
  - unfold bind at 1.
    destruct (_started_read_thread (session w)) eqn:Hs.
    + destruct (_read_thread (session w)) as [th|] eqn:Hth.
      * rewrite (join_read_thread_started os w th Hs Hth).
        by rewrite join_read_thread_not_started.
      * unfold join_read_thread. run_m. rewrite Hs. run_m. by rewrite Hth.
    + rewrite (join_read_thread_not_started os w Hs).
      by rewrite join_read_thread_not_started.
  - intros th Hs Hth. eexists. eexists.
    split; [by apply join_read_thread_started|].
    cbn [trace session]. unfold joined_session. world_simpl.
    split; [reflexivity|]. split; [reflexivity|].
    split; [by intros ->|].
    split; [apply last_events_stop_requests|].
    split_and!; try done.
    + unfold last_stream. by destruct (os_pending_read os) as [| |].
    + intros os'. eexists. split; [unfold spawn_read_thread; run_m; reflexivity|done].
Qed.

(** ** The documents of the read thread *)

Lemma echoed_app evs1 evs2 : echoed (evs1 ++ evs2) = echoed evs1 ++ echoed evs2.
Proof. apply omap_app. Qed.

Lemma allocated_app evs1 evs2 :
  allocated (evs1 ++ evs2) = allocated evs1 ++ allocated evs2.
Proof. apply omap_app. Qed.

Lemma requests_added_app evs1 evs2 :
  requests_added (evs1 ++ evs2) = requests_added evs1 ++ requests_added evs2.
Proof. apply omap_app. Qed.

(** The turns of the read loop on documents that arrive whole. *)
Lemma rt_thread_loop_docs ds : ∀ inbound w,
  _read_thread_continue (session w) = true →
  ∃ evs,
    rt_thread_loop ((ReadDoc <$> ds) ++ inbound) w =
      rt_thread_loop inbound
        {| session := session w; instances := instances w; docs := docs w;
           trace := trace w ++ evs |}
    ∧ echoed evs = ds
    ∧ allocated evs = replicate (length ds) (next_doc w)
    ∧ deleted evs = replicate (length ds) (next_doc w)
    ∧ requests_added evs = []
    ∧ pipe_written evs = [].
Proof.
  induction ds as [|d ds IH]; intros inbound w Hc.
  - exists []. rewrite app_nil_r. by destruct w.
  - cbn [fmap list_fmap app]. rewrite (rt_thread_loop_doc d _ w Hc).
    edestruct IH as (evs & -> & He & Ha & Hd & Hr & Hp); [exact Hc|].
    cbn [session instances docs trace] in *.
    exists (read_events (next_doc w) d ++ evs). rewrite <- app_assoc.
    split; [done|].
    rewrite echoed_app, allocated_app, deleted_app, requests_added_app, pipe_written_app.
    rewrite He, Ha, Hd, Hr, Hp. done.
Qed.

(** What one run of the read thread does with a stream of documents
    that ends in a failed read or the end of the stream. *)
Lemma rt_thread_run_reads w ds r rest :
  _read_thread_continue (session w) = true →
  r = ReadFail ∨ r = ReadEof →
  ∃ w' evs,
    rt_thread_run ((ReadDoc <$> ds) ++ r :: rest) w = Ok (ReaderReturned, rest) w'
    ∧ trace w' = trace w ++ evs
    ∧ echoed evs = ds
    ∧ allocated evs = replicate (S (length ds)) (next_doc w)
    ∧ deleted evs = replicate (length ds) (next_doc w)
    ∧ docs w' = <[next_doc w := empty_document]> (docs w)
    ∧ docs w !! next_doc w = None
    ∧ requests_added evs =
        (λ inst, (inst, {| _instance := inst; _request_type := P3D_RT_stop |}))
          <$> (instances_in_order (_instances (session w))).*2
    ∧ pipe_written evs = []
    ∧ instances w' = instances w
    ∧ _started_read_thread (session w') = _started_read_thread (session w)
    ∧ _read_thread_continue (session w') = true
    ∧ hs_good (_pipe_read (session w')) =
        (if r is ReadFail then false else hs_good (_pipe_read (session w)))
    ∧ hs_eof (_pipe_read (session w')) =
        (if r is ReadEof then true else hs_eof (_pipe_read (session w)))
    ∧ head evs = Some (EvCerr ("session thread reading." +:+ nl)).
Proof.
  intros Hc Hr. rewrite rt_thread_run_loop.
  match goal with
  | |- context [rt_thread_loop _ ?w0] =>
      destruct (rt_thread_loop_docs ds (r :: rest) w0 Hc)
        as (evs & -> & He & Ha & Hd & Hq & Hp)
  end.
  rewrite rt_thread_loop_error by done.
  eexists. eexists. split; [reflexivity|].
  cbn [session instances docs trace]. unfold failed_read_events.
  change (next_doc {| session := session w; instances := instances w;
                      docs := docs w;
                      trace := trace w ++ [EvCerr ("session thread reading." +:+ nl)] |})
    with (next_doc w) in *.
  change (next_doc {| session := session w; instances := instances w;
                      docs := docs w;
                      trace := (trace w ++ [EvCerr ("session thread reading." +:+ nl)])
                                 ++ evs |})
    with (next_doc w).
  split; [by rewrite <- !app_assoc|].
  rewrite !echoed_app, !allocated_app, !deleted_app, !requests_added_app,
    !pipe_written_app, He, Ha, Hd, Hq, Hp.
  assert (Hstops : ∀ l,
            echoed (stop_event <$> l) = [] ∧ allocated (stop_event <$> l) = []
            ∧ requests_added (stop_event <$> l) =
                (λ inst, (inst, {| _instance := inst; _request_type := P3D_RT_stop |}))
                  <$> l).
  { induction l as [|x l (IH1 & IH2 & IH3)]; [done|].
    split_and!; [exact IH1|exact IH2|]. rewrite !fmap_cons. cbn. f_equal. exact IH3. }
  destruct (Hstops ((instances_in_order (_instances (session w))).*2))
    as (Hs1 & Hs2 & Hs3).
  destruct (stop_events_silent ((instances_in_order (_instances (session w))).*2))
    as (Hs4 & _ & _ & Hs5).
  rewrite Hs1, Hs2, Hs3, Hs4, Hs5.
  split_and!; try done; try apply next_doc_fresh;
    destruct Hr as [-> | ->]; cbn; rewrite ?app_nil_r; try done;
    by rewrite <- replicate_cons_app.
Qed.

(** X6.  The read thread only prints what it reads: each document that
    arrives whole is echoed to [cerr] and deleted, and no request is
    added to any instance for it.  When a read then fails or hits the
    end of the stream, the document allocated for that read is never
    deleted: every allocation but the last has its [delete], and the
    heap is left with that one document more.  The thread returns with
    [_started_read_thread] and [_read_thread_continue] still set, and
    the only requests it has added are the stops of [rt_terminate].
    The first thing the thread does is print "session thread reading.". *)
Theorem reader_frees_what_it_reads w ds r rest :
  _read_thread_continue (session w) = true →
  r = ReadFail ∨ r = ReadEof →
  ∃ w' evs p,
    rt_thread_run ((ReadDoc <$> ds) ++ r :: rest) w = Ok (ReaderReturned, rest) w'
    ∧ trace w' = trace w ++ evs
    ∧ echoed evs = ds
    ∧ allocated evs = deleted evs ++ [p]
    ∧ length (deleted evs) = length ds
    ∧ docs w !! p = None
    ∧ docs w' = <[p := empty_document]> (docs w)
    ∧ requests_added evs =
        (λ inst, (inst, {| _instance := inst; _request_type := P3D_RT_stop |}))
          <$> (instances_in_order (_instances (session w))).*2
    ∧ pipe_written evs = []
    ∧ instances w' = instances w
    ∧ _started_read_thread (session w') = _started_read_thread (session w)
    ∧ _read_thread_continue (session w') = true
    ∧ head evs = Some (EvCerr ("session thread reading." +:+ nl)).
Proof.
  intros Hcont Hr.
  destruct (rt_thread_run_reads w ds r rest Hcont Hr)
    as (w' & evs & Hrun & Ht & He & Ha & Hd & Hdocs & Hfresh & Hreq & Hpw & Hi & Hs & Hc
        & _ & _ & Hhead).
  exists w', evs, (next_doc w).
  split_and!; [exact Hrun|exact Ht|exact He| | |exact Hfresh|exact Hdocs|exact Hreq
              |exact Hpw|exact Hi|exact Hs|exact Hc|exact Hhead].
  - rewrite Ha, Hd. clear. induction (length ds) as [|n IH]; [done|].
    cbn [replicate app]. by rewrite <- IH.
  - rewrite Hd. apply length_replicate.
Qed.

(** ** The download behind start_instance *)

Lemma cerrs_app evs1 evs2 : cerrs (evs1 ++ evs2) = cerrs evs1 ++ cerrs evs2.
Proof. apply omap_app. Qed.

Lemma downloads_app evs1 evs2 :
  downloads (evs1 ++ evs2) = downloads evs1 ++ downloads evs2.
Proof. apply omap_app. Qed.

(** X7.  What [download_p3dpython] does for a [start_instance] that
    passes its assertions.  In [PS_init] with the local file opened,
    the instance is handed one download, of the fixed URL into
    "temp.tgz".  In [PS_init] with the file not opened, "Could not open
    temp.tgz" is printed and no download is started, but nothing is
    taken back: the instance stays registered and attached and its
    start command stays queued.  In any other state nothing is
    downloaded or printed.  In no case is a process created or the
    state changed. *)
Theorem start_instance_download_outcomes this os inst w i :
  may_start w inst i →
  ∃ w' evs,
    start_instance this os inst w = Ok tt w'
    ∧ trace w' = trace w ++ evs
    ∧ _python_state (session w') = _python_state (session w)
    ∧ processes_created evs = []
    ∧ _instances (session w') !! get_instance_id i = Some inst
    ∧ (_session <$> instances w' !! inst) = Some (Some this)
    ∧ (_python_state (session w) = PS_init → os_set_filename os = true →
         downloads evs =
           [(inst, {| dl_url := "http://fewmet/~drose/p3drun.tgz";
                      dl_filename := "temp.tgz" |})]
         ∧ cerrs evs = []
         ∧ _commands (session w') = _commands (session w) ++ [next_doc w])
    ∧ (_python_state (session w) = PS_init → os_set_filename os = false →
         downloads evs = []
         ∧ cerrs evs = ["Could not open temp.tgz" +:+ nl]
         ∧ _commands (session w') = _commands (session w) ++ [next_doc w]
         ∧ docs w' !! next_doc w = Some (start_instance_document i))
    ∧ (_python_state (session w) ≠ PS_init →
         downloads evs = [] ∧ cerrs evs = []).
Proof.
  intros Hok. eexists. eexists.
  split; [by apply start_instance_spec|].
  unfold started, sent, download_events. world_simpl. cbn [trace instances docs].
  split; [reflexivity|]. split; [done|].
  rewrite !lookup_insert_eq.
  split.
  { rewrite !processes_created_app.
    by destruct (bool_decide (_python_state (session w) = PS_running)),
      (bool_decide (_python_state (session w) = PS_init)), (os_set_filename os). }
  split; [done|]. split; [done|].
  split; [|split].
  - intros Hst Hfn. rewrite Hst, Hfn.
    rewrite (bool_decide_eq_false_2 (PS_init = PS_running)) by done.
    by rewrite (bool_decide_eq_true_2 (PS_init = PS_init)) by done.
  - intros Hst Hfn. rewrite Hst, Hfn.
    rewrite (bool_decide_eq_false_2 (PS_init = PS_running)) by done.
    rewrite (bool_decide_eq_true_2 (PS_init = PS_init)) by done.
    by rewrite lookup_insert_eq.
  - intros Hst. rewrite (bool_decide_eq_false_2 _ Hst).
    by destruct (bool_decide (_python_state (session w) = PS_running)).
Qed.

(** ** The handles of start_p3dpython *)

Lemma startup_infos_app evs1 evs2 :
  startup_infos (evs1 ++ evs2) = startup_infos evs1 ++ startup_infos evs2.
Proof. apply omap_app. Qed.





Ltac spawn_cases os w :=
  destruct (os_pipe_to os) as [[?r1 ?w1]|], (os_pipe_from os) as [[?r2 ?w2]|],
    (bool_decide (_output_filename (session w) = "")), (os_create_file os) as [?fh|].

Lemma start_p3dpython_failure_handles os w :
  os_create_process os = None →
  ∃ evs,
    start_p3dpython os w =
      Ok tt {| session := opened_session os (session w);
               instances := instances w; docs := docs w;
               trace := trace w ++ evs |}
    ∧ startup_infos evs =
        [("c:/cygwin/home/drose/player/direct/built/bin/p3dpython.exe",
          _python_root_dir (session w), setup_startup_info os (session w))]
    ∧ handles_closed evs = setup_closed os (session w)
    ∧ inheritance evs = setup_inheritance os (session w)
    ∧ cerrs evs =
        setup_complaints os (session w) ++ ["Failed to create process." +:+ nl]
    ∧ Forall lockless evs.
Proof.
  intros Hcp.
  unfold start_p3dpython, opened_session, pipe_w_to, pipe_r_from, setup_startup_info,
    setup_closed, setup_inheritance, setup_complaints, error_handle.
  rewrite Hcp. run_m.
  spawn_cases os w; run_m; norm_trace; run_m;
    (eexists; split; [reflexivity|]; split_and!; first [reflexivity|by repeat constructor]).
Qed.

Lemma start_p3dpython_success_handles os w pi :
  os_create_process os = Some pi →
  _read_thread_continue (session w) = false →
  ∃ evs,
    start_p3dpython os w =
      (feed_commands (_commands (session w));;;
       emit EvPipeFlush;;;
       modify_session (set_commands []))
        {| session := spawned_session os pi (session w);
           instances := instances w; docs := docs w;
           trace := trace w ++ evs |}
    ∧ startup_infos evs =
        [("c:/cygwin/home/drose/player/direct/built/bin/p3dpython.exe",
          _python_root_dir (session w), setup_startup_info os (session w))]
    ∧ handles_closed evs = setup_closed os (session w)
    ∧ inheritance evs = setup_inheritance os (session w)
    ∧ cerrs evs =
        setup_complaints os (session w)
          ++ [("Created process: " +:+ pretty (dwProcessId pi)) +:+ nl]
          ++ (if os_pipe_from os is None then ["unable to open read pipe" +:+ nl] else [])
          ++ (if os_pipe_to os is None then ["unable to open write pipe" +:+ nl] else [])
    ∧ pipe_written evs = []
    ∧ deleted evs = []
    ∧ Forall lockless evs.
Proof.
  intros Hcp Hcont.
  unfold start_p3dpython, spawn_read_thread, spawned_session, opened_session,
    pipe_w_to, pipe_r_from, setup_startup_info,
    setup_closed, setup_inheritance, setup_complaints, error_handle.
  rewrite Hcp. run_m.
  spawn_cases os w; run_m; rewrite Hcont; run_m; norm_trace; run_m;
    (eexists; split; [reflexivity|]; split_and!; first [reflexivity|by repeat constructor]).
Qed.



Lemma queue_documents w :
  queue_owned w → ∃ ds, documents_at (docs w) (_commands (session w)) = Some ds.
Proof.
  intros [_ Hlive]. unfold documents_at.
  induction (_commands (session w)) as [|c cs IH].
  - by exists [].
  - destruct (Hlive c) as [d Hd]; [apply elem_of_cons; auto|].
    destruct IH as [ds Hds]; [intros p Hp; apply Hlive, elem_of_cons; auto|].
    exists (d :: ds). apply mapM_Some. constructor; [done|]. by apply mapM_Some.
Qed.

(** What [start_p3dpython] leaves when [CreateProcess] succeeds on a
    session in [PS_init], whatever became of the two pipes. *)
Lemma start_p3dpython_pipes this os w pi :
  reachable this w →
  _python_state (session w) = PS_init →
  os_create_process os = Some pi →
  ∃ w' evs queued,
    start_p3dpython os w = Ok tt w'
    ∧ trace w' = trace w ++ evs
    ∧ _python_state (session w') = PS_running
    ∧ _started_read_thread (session w') = true
    ∧ hs_good (_pipe_read (session w')) = is_some (os_pipe_from os)
    ∧ hs_good (_pipe_write (session w')) = is_some (os_pipe_to os)
    ∧ cerrs evs =
        setup_complaints os (session w)
          ++ [("Created process: " +:+ pretty (dwProcessId pi)) +:+ nl]
          ++ (if os_pipe_from os is None then ["unable to open read pipe" +:+ nl] else [])
          ++ (if os_pipe_to os is None then ["unable to open write pipe" +:+ nl] else [])
    ∧ documents_at (docs w) (_commands (session w)) = Some queued
    ∧ pipe_written evs = queued
    ∧ deleted evs = _commands (session w)
    ∧ _commands (session w') = []
    ∧ docs w' = delete_all (_commands (session w)) (docs w)
    ∧ (os_pipe_to os = None →
         hs_good (_pipe_write (session w')) = false
         ∧ ("unable to open write pipe" +:+ nl) ∈ cerrs evs
         ∧ startup_infos evs =
             [("c:/cygwin/home/drose/player/direct/built/bin/p3dpython.exe",
               _python_root_dir (session w),
               {| hStdError := Some (error_handle os (session w));
                  hStdOutput := snd <$> os_pipe_from os;
                  hStdInput := None;
                  wShowWindow_hidden := true |})]).
Proof.
  intros Hreach Hst Hcp.
  destruct (reachable_inv this w Hreach) as [_ Hinit _ Hq _].
  destruct (Hinit Hst) as (_ & _ & _ & _ & Hc).
  destruct (queue_documents w Hq) as [queued Hqueued].
  destruct (start_p3dpython_success_handles os w pi Hcp Hc)
    as (evs & Heq & Hsi & Hcl & Hin & Hce & Hpw & Hdel & _).
  eexists. exists (evs ++ fed (_commands (session w)) queued ++ [EvPipeFlush]), queued.
  split.
  { rewrite Heq. unfold bind at 1. cbn [session docs].
    erewrite feed_commands_ok; [|by destruct Hq|exact Hqueued]. run_m. reflexivity. }
  cbn [trace session docs]. unfold spawned_session, opened_session, pipe_w_to,
    pipe_r_from. world_simpl.
  pose proof (documents_at_length _ _ _ Hqueued) as Hlen.
  assert (Hfed : cerrs (fed (_commands (session w)) queued) = []
                 ∧ startup_infos (fed (_commands (session w)) queued) = []).
  { clear. generalize (_commands (session w)). intros cs. revert queued.
    induction cs as [|c cs IH]; intros [|d ds]; try done. apply IH. }
  destruct Hfed as [Hfc Hfs].
  rewrite !cerrs_app, !pipe_written_app, !deleted_app, !startup_infos_app.
  rewrite Hce, Hpw, Hdel, Hsi, Hfc, Hfs, fed_pipe_written, fed_deleted by done.
  cbn [app cerrs pipe_written deleted startup_infos omap list_omap]. rewrite !app_nil_r.
  split_and!; try done.
  - by rewrite <- !app_assoc.
  - by destruct (os_pipe_from os) as [[]|].
  - by destruct (os_pipe_to os) as [[]|].
  - intros Hto. unfold setup_startup_info. rewrite Hto. split_and!; [done| |done].
    apply elem_of_app. right. apply elem_of_cons. right.
    apply elem_of_app. right. by apply list_elem_of_singleton.
Qed.

(** X8.  A pipe that could not be created does not stop the spawn.
    Whenever [CreateProcess] succeeds on a session in [PS_init],
    [start_p3dpython] returns with the state [PS_running] and the read
    thread started, and every queued command has been passed to
    [_pipe_write] and deleted, the queue left empty: this whether or
    not the two [CreatePipe] calls succeeded.  All that a failed
    [CreatePipe] does is print "failed to create pipe", which is
    printed in no other case. *)
Theorem pipe_failure_still_runs this os w pi :
  reachable this w →
  _python_state (session w) = PS_init →
  os_create_process os = Some pi →
  ∃ w' evs queued,
    start_p3dpython os w = Ok tt w'
    ∧ trace w' = trace w ++ evs
    ∧ _python_state (session w') = PS_running
    ∧ _started_read_thread (session w') = true
    ∧ documents_at (docs w) (_commands (session w)) = Some queued
    ∧ pipe_written evs = queued
    ∧ deleted evs = _commands (session w)
    ∧ _commands (session w') = []
    ∧ docs w' = delete_all (_commands (session w)) (docs w)
    ∧ (("failed to create pipe" +:+ nl) ∈ cerrs evs
       ↔ os_pipe_to os = None ∨ os_pipe_from os = None).
Proof.
  intros Hreach Hinit Hpi.
  destruct (start_p3dpython_pipes this os w pi Hreach Hinit Hpi)
    as (w' & evs & queued & Hrun & Ht & Hst & Hth & _ & _ & Hcerr & Hq & Hpw & Hdel
        & Hcmd & Hdocs & _).
  exists w', evs, queued.
  split_and!; [exact Hrun|exact Ht|exact Hst|exact Hth|exact Hq|exact Hpw|exact Hdel
              |exact Hcmd|exact Hdocs|].
  rewrite Hcerr. unfold setup_complaints.
  rewrite !elem_of_app.
  destruct (os_pipe_to os) as [[]|], (os_pipe_from os) as [[]|];
    destruct (bool_decide (_output_filename (session w) = ""));
    try destruct (os_create_file os);
    rewrite ?elem_of_cons, ?elem_of_nil; cbn; split; intros H;
    repeat match goal with
           | H : _ ∨ _ |- _ => destruct H
           | H : False |- _ => destruct H
           | H : _ +:+ _ = _ |- _ => cbv -[pretty] in H; discriminate H
           | H : None = None ∨ _ |- _ => clear H
           | H : Some _ = None |- _ => discriminate H
           end; auto.
Qed.

(** ** No document is used after it is deleted *)

Lemma rt_thread_loop_returns inbound : ∀ w,
  ∃ r w', rt_thread_loop inbound w = Ok r w'.
Proof.
  induction inbound as [|o rest IH]; intros w;
    destruct (_read_thread_continue (session w)) eqn:Hc.
  - rewrite rt_thread_loop_blocked by done. by eexists _, _.
  - rewrite rt_thread_loop_stopped by done. by eexists _, _.
  - destruct o as [d| |].
    + rewrite rt_thread_loop_doc by done. apply IH.
    + rewrite (rt_thread_loop_error ReadFail) by auto. by eexists _, _.
    + rewrite (rt_thread_loop_error ReadEof) by auto. by eexists _, _.
  - rewrite rt_thread_loop_stopped by done. by eexists _, _.
Qed.

Lemma rt_thread_run_returns inbound w :
  ∃ r w', rt_thread_run inbound w = Ok r w'.
Proof. rewrite rt_thread_run_loop. apply rt_thread_loop_returns. Qed.

Lemma terminate_instance_dangling this inst w :
  instances w !! inst = None →
  ∃ w', terminate_instance this inst w = Abort "dangling P3DInstance" w'.
Proof.
  intros Hi. unfold terminate_instance, new_TiXmlDocument, deref_inst. run_m.
  rewrite Hi. by eexists.
Qed.

(** X10.  The session never touches a document that is not live.  In
    every world it can reach, whatever the controller calls and
    whatever the read thread is fed, the call returns or stops on a
    failed assertion or on an instance that does not exist: never on a
    document already deleted, and never by deleting one twice.  The
    read thread always returns or blocks, and the destructor returns or
    stops on the assertion of [join_read_thread]. *)
Theorem documents_never_dangle this w :
  reachable this w →
  (∀ st, documents_safe (step this st w))
  ∧ (∀ inbound, ∃ r w', rt_thread_run inbound w = Ok r w')
  ∧ (∀ os, (∃ w', P3DSession_dtor os w = Ok tt w')
           ∨ (∃ w', P3DSession_dtor os w = Abort "assertion failed" w'
                    ∧ _python_state (session w) = PS_running
                    ∧ _read_thread (session w) = None)).
Proof.
  intros Hreach.
  destruct (reachable_inv this w Hreach) as [Hstate Hinit Hrun Hq Hreg].
  split; [|split].
  - intros [[os inst|inst|os]|inbound|inbound]; cbn [step controller_call].
    + destruct (instances w !! inst) as [i|] eqn:Hi.
      * destruct (decide (_session i = None)) as [Hnull|Hnull];
          [|rewrite (start_instance_asserts_fail this os inst w i Hi);
            [by left|by intros (? & _)]].
        destruct (decide (get_session_key i = _session_key (session w))) as [Hkey|Hkey];
          [|rewrite (start_instance_asserts_fail this os inst w i Hi);
            [by left|by intros (_ & ? & _)]].
        destruct (decide (get_python_version i = _python_version (session w)))
          as [Hver|Hver];
          [|rewrite (start_instance_asserts_fail this os inst w i Hi);
            [by left|by intros (_ & _ & ?)]].
        destruct (_instances (session w) !! get_instance_id i) as [other|] eqn:Hfree.
        -- rewrite (start_instance_refused this os inst w i Hi); [by left|done|].
           by rewrite Hfree.
        -- by rewrite (start_instance_spec this os inst w i).
      * rewrite (start_instance_dangling this os inst w Hi). by right.
    + destruct (instances w !! inst) as [i|] eqn:Hi.
      * by rewrite (terminate_instance_spec this inst w i Hi).
      * destruct (terminate_instance_dangling this inst w Hi) as [w' ->]. by right.
    + destruct (os_create_process os) as [pi|] eqn:Hcp.
      * destruct Hstate as [Hst|Hst].
        -- destruct (Hinit Hst) as (_ & _ & _ & _ & Hc).
           destruct (queue_documents w Hq) as [ds Hds].
           destruct (start_p3dpython_success os w pi Hcp Hc) as (evs & _ & _ & ->).
           unfold bind at 1. cbn [session docs].
           erewrite feed_commands_ok; [|by destruct Hq|exact Hds]. by run_m.
        -- destruct (Hrun Hst) as (_ & _ & _ & Hc).
           destruct (start_p3dpython_respawn os w pi Hcp Hc) as [w0 ->]. by left.
      * by destruct (start_p3dpython_failure os w Hcp) as (evs & _ & _ & _ & _ & ->).
    + unfold bind. by destruct (rt_thread_run_returns inbound w) as (r & w' & ->).
    + unfold bind. by destruct (rt_thread_loop_returns inbound w) as (r & w' & ->).
  - intros inbound. apply rt_thread_run_returns.
  - intros os. destruct Hstate as [Hst|Hst].
    + left. destruct (Hinit Hst) as (_ & _ & _ & Hs & _). eexists.
      apply dtor_not_running; [by rewrite Hst|done|done].
    + destruct (Hrun Hst) as (_ & [pi Hpi] & Hs & _).
      destruct (_read_thread (session w)) as [th|] eqn:Hth.
      * left. eexists. by apply (dtor_running os w pi th).
      * right. eexists. split; [by apply (dtor_running_no_thread os w pi)|done].
Qed.

(** ** The lock of the registry *)

Lemma well_locked_app_aux l2 : ∀ l1,
  (well_locked l1 = true → well_locked (l1 ++ l2) = well_locked l2)
  ∧ (∀ e, well_locked (e :: l1) = true →
          well_locked (e :: l1 ++ l2) = well_locked l2).
Proof.
  induction l1 as [|e1 l1 [IH1 IH2]].
  - split; [done|]. intros e He. by destruct e.
  - split; [intros H; by apply IH2|].
    intros e He. destruct e; try (by apply IH2).
    + destruct e1; try done. cbn in He |- *. by apply IH1.
    + done.
Qed.

Lemma well_locked_app l1 l2 :
  well_locked l1 = true → well_locked l2 = true → well_locked (l1 ++ l2) = true.
Proof. intros H1 H2. by rewrite (proj1 (well_locked_app_aux l2 l1) H1). Qed.

Lemma lockless_well_locked evs : Forall lockless evs → well_locked evs = true.
Proof.
  induction 1 as [|e evs He _ IH]; [done|]. by destruct e.
Qed.

Lemma fed_lockless cs : ∀ ds, Forall lockless (fed cs ds).
Proof.
  induction cs as [|c cs IH]; intros [|d ds]; try by constructor.
  cbn. constructor; [done|]. constructor; [done|]. apply IH.
Qed.

Lemma stop_events_lockless insts : Forall lockless (stop_event <$> insts).
Proof. induction insts; by constructor. Qed.

Lemma deletes_lockless cs : Forall lockless (EvDelete <$> cs).
Proof. induction cs; by constructor. Qed.

Lemma failed_read_events_well_locked p r insts :
  well_locked (failed_read_events p r insts) = true.
Proof.
  unfold failed_read_events. apply (well_locked_app [_; _; _; _; _]); [done|].
  apply lockless_well_locked, stop_events_lockless.
Qed.

Lemma last_events_well_locked pending p insts :
  well_locked (last_events pending p insts) = true.
Proof.
  unfold last_events. destruct (pending_outcome pending) as [r|]; [|done].
  apply failed_read_events_well_locked.
Qed.

Lemma rt_thread_loop_well_locked inbound : ∀ w r w',
  rt_thread_loop inbound w = Ok r w' →
  ∃ evs, trace w' = trace w ++ evs ∧ well_locked evs = true.
Proof.
  induction inbound as [|o rest IH]; intros w r w' Hrun;
    destruct (_read_thread_continue (session w)) eqn:Hcont.
  - rewrite rt_thread_loop_blocked in Hrun by done. injection Hrun as _ <-.
    exists []. by rewrite app_nil_r.
  - rewrite rt_thread_loop_stopped in Hrun by done. injection Hrun as _ <-.
    exists []. by rewrite app_nil_r.
  - destruct o as [d| |].
    + rewrite rt_thread_loop_doc in Hrun by done.
      apply IH in Hrun as (evs & -> & Hevs). cbn [trace].
      exists (read_events (next_doc w) d ++ evs). rewrite <- app_assoc.
      split; [done|]. by apply well_locked_app.
    + rewrite (rt_thread_loop_error ReadFail) in Hrun by auto. injection Hrun as _ <-.
      eexists. split; [reflexivity|]. apply failed_read_events_well_locked.
    + rewrite (rt_thread_loop_error ReadEof) in Hrun by auto. injection Hrun as _ <-.
      eexists. split; [reflexivity|]. apply failed_read_events_well_locked.
  - rewrite rt_thread_loop_stopped in Hrun by done. injection Hrun as _ <-.
    exists []. by rewrite app_nil_r.
Qed.

Lemma rt_thread_run_well_locked inbound w r w' :
  rt_thread_run inbound w = Ok r w' →
  ∃ evs, trace w' = trace w ++ evs ∧ well_locked evs = true.
Proof.
  rewrite rt_thread_run_loop. intros Hrun.
  apply rt_thread_loop_well_locked in Hrun as (evs & -> & Hevs). cbn [trace].
  exists ([EvCerr ("session thread reading." +:+ nl)] ++ evs).
  split; [by rewrite <- app_assoc|]. by apply well_locked_app.
Qed.

Lemma step_well_locked this st w w' :
  session_inv w →
  step this st w = Ok tt w' →
  ∃ evs, trace w' = trace w ++ evs ∧ well_locked evs = true.
Proof.
  intros Hinv Hstep.
  destruct st as [[os inst|inst|os]|inbound|inbound];
    cbn [step controller_call] in Hstep.
  - apply start_instance_inv in Hstep as (i & _ & ->). unfold started.
    eexists. split; [reflexivity|]. unfold sent, download_events.
    by destruct (bool_decide (_python_state (session w) = PS_running)),
      (bool_decide (_python_state (session w) = PS_init)), (os_set_filename os).
  - apply terminate_instance_inv in Hstep as (i & _ & ->). unfold terminated.
    eexists. split; [reflexivity|]. unfold sent.
    by destruct (bool_decide (_python_state (session w) = PS_running)).
  - destruct Hinv as [Hstate Hinit Hrun Hq Hreg].
    destruct (os_create_process os) as [pi|] eqn:Hcp.
    + destruct Hstate as [Hst|Hst].
      * destruct (Hinit Hst) as (_ & _ & _ & _ & Hc).
        destruct (queue_documents w Hq) as [ds Hds].
        destruct (start_p3dpython_success_handles os w pi Hcp Hc)
          as (evs & Heq & _ & _ & _ & _ & _ & _ & Hl).
        rewrite Heq in Hstep. unfold bind at 1 in Hstep. cbn [session docs] in Hstep.
        erewrite feed_commands_ok in Hstep; [|by destruct Hq|exact Hds].
        revert Hstep. run_m. intros [= <-]. cbn [trace].
        exists (evs ++ fed (_commands (session w)) ds ++ [EvPipeFlush]).
        split; [by rewrite <- !app_assoc|].
        apply lockless_well_locked. apply Forall_app. split; [done|].
        apply Forall_app. split; [apply fed_lockless|by constructor].
      * destruct (Hrun Hst) as (_ & _ & _ & Hc).
        destruct (start_p3dpython_respawn os w pi Hcp Hc) as [w0 Heq0].
        by rewrite Heq0 in Hstep.
    + destruct (start_p3dpython_failure_handles os w Hcp)
        as (evs & Heq & _ & _ & _ & _ & Hl).
      rewrite Heq in Hstep. injection Hstep as <-. exists evs.
      split; [done|]. by apply lockless_well_locked.
  - unfold bind in Hstep.
    destruct (rt_thread_run inbound w) as [r w1|] eqn:Hrun; [|done].
    injection Hstep as <-. by eapply rt_thread_run_well_locked.
  - unfold bind in Hstep.
    destruct (rt_thread_loop inbound w) as [r w1|] eqn:Hrun; [|done].
    injection Hstep as <-. by eapply rt_thread_loop_well_locked.
Qed.

(** X11.  The lock of the registry is held across nothing but the
    registry itself.  In the trace of every world a session can reach,
    and of every world its destructor leaves, each [ACQUIRE_LOCK] is
    followed at once by its [RELEASE_LOCK]: no write to the pipe, no
    allocation of a document, no system call, no print and no request
    to an instance happens with the lock held.  The same holds when [start_instance]
    stops at [assert(inserted)]: the lock has been released by then. *)
Theorem lock_held_across_nothing this w :
  reachable this w →
  well_locked (trace w) = true
  ∧ (∀ os w', P3DSession_dtor os w = Ok tt w' →
       well_locked (trace w') = true ∧ last (trace w') = Some EvDestroyLock)
  ∧ (∀ os inst w', start_instance this os inst w = Abort "assertion failed" w' →
       well_locked (trace w') = true).
Proof.
  intros Hreach.
  assert (Hw : well_locked (trace w) = true).
  { induction Hreach as [insts heap inst w Hc|w st w' Hreach IH Hstep].
    - unfold construct in Hc. destruct (insts !! inst) as [i|]; [|done].
      by injection Hc as <-.
    - destruct (step_well_locked this st w w' (reachable_inv this w Hreach) Hstep)
        as (evs & -> & Hevs).
      by apply well_locked_app. }
  destruct (reachable_inv this w Hreach) as [Hstate Hinit Hrun Hq Hreg].
  split; [done|]. split.
  - intros os w' Hdtor. destruct Hstate as [Hst|Hst].
    + destruct (Hinit Hst) as (_ & _ & _ & Hs & _).
      rewrite dtor_not_running in Hdtor; [|by rewrite Hst|done|done].
      injection Hdtor as <-. cbn [trace]. split.
      * apply well_locked_app; [done|]. apply lockless_well_locked.
        apply Forall_app. split; [apply deletes_lockless|by constructor].
      * by rewrite app_assoc, last_snoc.
    + destruct (Hrun Hst) as (Hempty & [pi Hpi] & Hs & _).
      destruct (_read_thread (session w)) as [th|] eqn:Hth.
      * rewrite (dtor_running os w pi th Hst Hpi Hs Hth Hq) in Hdtor.
        injection Hdtor as <-. cbn [trace]. rewrite Hempty. split.
        -- apply well_locked_app; [done|].
           destruct (os_wait_timed_out os); cbn [app fmap list_fmap well_locked];
             (apply well_locked_app; [apply last_events_well_locked|done]).
        -- rewrite last_app_cons.
           destruct (os_wait_timed_out os); cbn [app fmap list_fmap];
             rewrite !last_cons_cons, app_comm_cons, last_app_cons; done.
      * by rewrite (dtor_running_no_thread os w pi Hst Hpi Hs Hth Hq) in Hdtor.
  - intros os inst w' Habort.
    destruct (instances w !! inst) as [i|] eqn:Hi.
    + destruct (decide (_session i = None)) as [Hnull|Hnull];
        [|rewrite (start_instance_asserts_fail this os inst w i Hi) in Habort;
          [by injection Habort as <-|by intros (? & _)]].
      destruct (decide (get_session_key i = _session_key (session w))) as [Hkey|Hkey];
        [|rewrite (start_instance_asserts_fail this os inst w i Hi) in Habort;
          [by injection Habort as <-|by intros (_ & ? & _)]].
      destruct (decide (get_python_version i = _python_version (session w)))
        as [Hver|Hver];
        [|rewrite (start_instance_asserts_fail this os inst w i Hi) in Habort;
          [by injection Habort as <-|by intros (_ & _ & ?)]].
      destruct (_instances (session w) !! get_instance_id i) as [other|] eqn:Hfree.
      * rewrite (start_instance_refused this os inst w i Hi) in Habort;
          [|done|by rewrite Hfree].
        injection Habort as <-. unfold start_refused. cbn [trace].
        by apply well_locked_app.
      * by rewrite (start_instance_spec this os inst w i) in Habort.
    + by rewrite (start_instance_dangling this os inst w Hi) in Habort.
Qed.

(** ** The order in which commands reach the pipe *)

Lemma same_documents_refl insts : same_documents insts insts.
Proof. done. Qed.

Lemma same_documents_trans i1 i2 i3 :
  same_documents i1 i2 → same_documents i2 i3 → same_documents i1 i3.
Proof. intros H1 H2 c. by rewrite H2. Qed.

Lemma same_documents_session insts inst i v :
  insts !! inst = Some i →
  same_documents insts (<[inst := set_inst_session v i]> insts).
Proof.
  intros Hi [os p|p|os]; cbn [call_document]; [| |done];
    (destruct (decide (inst = p)) as [<-|Hne];
     [by rewrite lookup_insert_eq, Hi|by rewrite lookup_insert_ne]).
Qed.

Lemma call_documents_same insts insts' cs :
  same_documents insts insts' → call_documents insts' cs = call_documents insts cs.
Proof.
  intros Hsame. unfold call_documents.
  induction cs as [|c cs IH]; [done|]. cbn. by rewrite Hsame, IH.
Qed.

Lemma call_documents_cons insts c cs d ds :
  call_document insts c = Some d →
  call_documents insts cs = Some ds →
  call_documents insts (c :: cs) = Some (d :: ds).
Proof. unfold call_documents. cbn. by intros -> ->. Qed.

(** One call on an instance: the command it builds is written to the
    pipe when Python runs, and queued at a fresh address otherwise. *)
Lemma instance_call_command this c w w' :
  is_instance_call c →
  controller_call this c w = Ok tt w' →
  ∃ d,
    call_document (instances w) c = Some d
    ∧ same_documents (instances w) (instances w')
    ∧ _python_state (session w') = _python_state (session w)
    ∧ (_python_state (session w) = PS_running →
         pipe_written (trace w') = pipe_written (trace w) ++ [d])
    ∧ (_python_state (session w) ≠ PS_running →
         pipe_written (trace w') = pipe_written (trace w)
         ∧ _commands (session w') = _commands (session w) ++ [next_doc w]
         ∧ docs w' = <[next_doc w := d]> (docs w)).
Proof.
  intros Hc Hrun. destruct c as [os inst|inst|os]; [| |done]; cbn [controller_call] in Hrun.
  - apply start_instance_inv in Hrun as (i & (Hi & _) & ->).
    exists (start_instance_document i). cbn [call_document]. rewrite Hi.
    split; [done|]. unfold started, sent. cbn [instances trace session docs].
    split; [by apply same_documents_session|]. split; [done|].
    destruct (download_events_silent os inst) as (Hd & _).
    split.
    + intros Hst. rewrite Hst.
      rewrite (bool_decide_eq_true_2 (PS_running = PS_running)) by done.
      rewrite (bool_decide_eq_false_2 (PS_running = PS_init)) by done.
      rewrite !pipe_written_app. cbn. by rewrite ?app_nil_r.
    + intros Hst. rewrite (bool_decide_eq_false_2 _ Hst). world_simpl.
      rewrite ?(bool_decide_eq_false_2 _ Hst). split; [|done].
      rewrite !pipe_written_app.
      destruct (bool_decide (_python_state (session w) = PS_init)); rewrite ?Hd; cbn;
        by rewrite ?app_nil_r.
  - apply terminate_instance_inv in Hrun as (i & Hi & ->).
    exists (terminate_instance_document i). cbn [call_document]. rewrite Hi.
    split; [done|]. unfold terminated, sent. cbn [instances trace session docs].
    split.
    { destruct (bool_decide (_session i = Some this));
        [by apply same_documents_session|apply same_documents_refl]. }
    split; [done|]. split.
    + intros Hst. rewrite Hst.
      rewrite (bool_decide_eq_true_2 (PS_running = PS_running)) by done.
      rewrite !pipe_written_app. cbn. by rewrite ?app_nil_r.
    + intros Hst. rewrite (bool_decide_eq_false_2 _ Hst). world_simpl.
      rewrite ?(bool_decide_eq_false_2 _ Hst). split; [|done].
      rewrite !pipe_written_app. cbn. by rewrite ?app_nil_r.
Qed.

Lemma documents_at_queue_grows heap cs qs p d :
  heap !! p = None →
  documents_at heap cs = Some qs →
  documents_at (<[p := d]> heap) (cs ++ [p]) = Some (qs ++ [d]).
Proof.
  intros Hp Hqs. apply documents_at_app. exists qs, [d]. split; [done|]. split.
  - unfold documents_at in *. apply mapM_Some. apply mapM_Some in Hqs.
    eapply Forall2_impl; [exact Hqs|]. intros c x Hc. cbn in Hc.
    rewrite lookup_insert_ne; [done|]. intros <-. congruence.
  - unfold documents_at. cbn. by rewrite lookup_insert_eq.
Qed.

Lemma instance_calls_queue this cs : ∀ w w' qs,
  Forall is_instance_call cs →
  _python_state (session w) ≠ PS_running →
  documents_at (docs w) (_commands (session w)) = Some qs →
  controller_calls this cs w = Ok tt w' →
  ∃ ds,
    call_documents (instances w) cs = Some ds
    ∧ same_documents (instances w) (instances w')
    ∧ _python_state (session w') = _python_state (session w)
    ∧ pipe_written (trace w') = pipe_written (trace w)
    ∧ documents_at (docs w') (_commands (session w')) = Some (qs ++ ds).
Proof.
  induction cs as [|c cs IH]; intros w w' qs Hcs Hst Hqs Hrun.
  - injection Hrun as <-. exists []. by rewrite app_nil_r.
  - apply Forall_cons in Hcs as [Hc Hcs].
    cbn [controller_calls] in Hrun. unfold bind in Hrun.
    destruct (controller_call this c w) as [[] w1|] eqn:Hcall; [|done].
    destruct (instance_call_command this c w w1 Hc Hcall)
      as (d & Hd & Hsame & Hst1 & _ & Hqueue).
    destruct (Hqueue Hst) as (Hw1 & Hq1 & Hd1).
    destruct (IH w1 w' (qs ++ [d])) as (ds & Hds & Hsame' & Hst' & Hw' & Hq');
      [done|by rewrite Hst1| |done|].
    { rewrite Hq1, Hd1. apply documents_at_queue_grows; [apply next_doc_fresh|done]. }
    exists (d :: ds). split_and!.
    + apply call_documents_cons; [done|]. by rewrite <- (call_documents_same _ _ _ Hsame).
    + by eapply same_documents_trans.
    + by rewrite Hst'.
    + by rewrite Hw'.
    + by rewrite Hq', <- app_assoc.
Qed.

Lemma instance_calls_write this cs : ∀ w w',
  Forall is_instance_call cs →
  _python_state (session w) = PS_running →
  controller_calls this cs w = Ok tt w' →
  ∃ ds,
    call_documents (instances w) cs = Some ds
    ∧ pipe_written (trace w') = pipe_written (trace w) ++ ds.
Proof.
  induction cs as [|c cs IH]; intros w w' Hcs Hst Hrun.
  - injection Hrun as <-. exists []. by rewrite app_nil_r.
  - apply Forall_cons in Hcs as [Hc Hcs].
    cbn [controller_calls] in Hrun. unfold bind in Hrun.
    destruct (controller_call this c w) as [[] w1|] eqn:Hcall; [|done].
    destruct (instance_call_command this c w w1 Hc Hcall)
      as (d & Hd & Hsame & Hst1 & Hwrite & _).
    destruct (IH w1 w') as (ds & Hds & Hw'); [done|by rewrite Hst1|done|].
    exists (d :: ds). split.
    + apply call_documents_cons; [done|]. by rewrite <- (call_documents_same _ _ _ Hsame).
    + by rewrite Hw', (Hwrite Hst), <- app_assoc.
Qed.

Lemma controller_calls_reachable this cs : ∀ w w',
  reachable this w → controller_calls this cs w = Ok tt w' → reachable this w'.
Proof.
  induction cs as [|c cs IH]; intros w w' Hreach Hrun.
  - by injection Hrun as <-.
  - cbn [controller_calls] in Hrun. unfold bind in Hrun.
    destruct (controller_call this c w) as [[] w1|] eqn:Hcall; [|done].
    apply (IH w1); [|done].
    by apply (reachable_step this w (StepController c)).
Qed.

(** X12.  Commands reach the child in the order of the calls that
    built them, across the spawn.  Take a session in [PS_init] and let
    the controller start and terminate instances at will: nothing is
    written.  When [start_p3dpython] then creates the process it
    returns, and the pipe has been given what was queued before
    followed by the commands of these calls, in the order of the calls.
    Calls made afterwards add their commands behind, again in the order
    of the calls. *)
Theorem commands_arrive_in_call_order this os w cs1 cs2 w1 pi :
  reachable this w →
  _python_state (session w) = PS_init →
  Forall is_instance_call cs1 →
  Forall is_instance_call cs2 →
  controller_calls this cs1 w = Ok tt w1 →
  os_create_process os = Some pi →
  ∃ w2 queued ds1,
    documents_at (docs w) (_commands (session w)) = Some queued
    ∧ call_documents (instances w) cs1 = Some ds1
    ∧ pipe_written (trace w1) = []
    ∧ start_p3dpython os w1 = Ok tt w2
    ∧ pipe_written (trace w2) = queued ++ ds1
    ∧ ∀ w3, controller_calls this cs2 w2 = Ok tt w3 →
        ∃ ds2, call_documents (instances w) cs2 = Some ds2
               ∧ pipe_written (trace w3) = queued ++ ds1 ++ ds2.
Proof.
  intros Hreach Hst Hcs1 Hcs2 Hrun1 Hcp.
  destruct (reachable_inv this w Hreach) as [_ Hinit _ Hq _].
  destruct (Hinit Hst) as (Hsilent & _).
  destruct (queue_documents w Hq) as [queued Hqueued].
  destruct (instance_calls_queue this cs1 w w1 queued Hcs1)
    as (ds1 & Hds1 & Hsame1 & Hst1 & Hw1 & Hq1); [by rewrite Hst|done|done|].
  rewrite Hst in Hst1. rewrite Hsilent in Hw1.
  pose proof (controller_calls_reachable this cs1 w w1 Hreach Hrun1) as Hreach1.
  destruct (reachable_inv this w1 Hreach1) as [_ Hinit1 _ [Hnd1 _] _].
  destruct (Hinit1 Hst1) as (_ & _ & _ & _ & Hc1).
  destruct (feed_after_send os w1 [] (queued ++ ds1) pi) as
    (w1' & w2 & Hsend & _ & _ & Hspawn & Hst2 & _ & Hw2 & _);
    [done|done|done|by rewrite app_nil_r|by rewrite app_nil_r|].
  injection Hsend as <-.
  exists w2, queued, ds1. rewrite Hw1 in Hw2.
  split_and!; try done.
  intros w3 Hrun2.
  destruct (instance_calls_write this cs2 w2 w3 Hcs2 Hst2 Hrun2) as (ds2 & Hds2 & Hw3).
  exists ds2. split.
  - rewrite <- Hds2.
    assert (Hsame2 : same_documents (instances w1) (instances w2)).
    { apply start_p3dpython_frame in Hspawn as [-> _]. apply same_documents_refl. }
    symmetry. apply call_documents_same. by eapply same_documents_trans.
  - rewrite Hw3, Hw2. cbn [app]. by rewrite app_assoc.
Qed.


(** ** The destructor and the instances *)

Lemma requests_added_deletes cs : requests_added (EvDelete <$> cs) = [].
Proof. induction cs; [done|]. cbn. done. Qed.

Lemma downloads_deletes cs : downloads (EvDelete <$> cs) = [].
Proof. induction cs; [done|]. cbn. done. Qed.

Lemma processes_created_deletes cs : processes_created (EvDelete <$> cs) = [].
Proof. induction cs; [done|]. cbn. done. Qed.

Lemma pipe_written_deletes cs : pipe_written (EvDelete <$> cs) = [].
Proof. induction cs; [done|]. cbn. done. Qed.

Lemma requests_added_stop_events insts :
  requests_added (stop_event <$> insts) =
    (λ inst, (inst, {| _instance := inst; _request_type := P3D_RT_stop |})) <$> insts.
Proof.
  induction insts as [|inst insts IH]; [done|].
  rewrite !fmap_cons. cbn. f_equal. exact IH.
Qed.

Lemma last_events_requests pending p insts :
  requests_added (last_events pending p insts) =
    (if pending_outcome pending is Some _
     then (λ inst, (inst, {| _instance := inst; _request_type := P3D_RT_stop |}))
            <$> insts
     else [])
  ∧ downloads (last_events pending p insts) = [].
Proof.
  unfold last_events, failed_read_events.
  destruct (pending_outcome pending) as [r|]; [|done].
  rewrite requests_added_app, downloads_app, requests_added_stop_events.
  split; [by destruct r|]. clear. by induction insts.
Qed.

(** X13.  The destructor detaches nothing.  When it returns, in any
    world the session could reach, no instance object has been touched
    and [_instances] holds what it held: every instance that was
    registered still has its [_session] pointing at the session that
    is gone.  The destructor starts no download and creates no process;
    all it writes to the pipe is the [exit] command, and that only when
    Python runs; [_python_state] is left as it was.  The destructor's
    own code adds no request to any instance, but its wait for the read
    thread lets that thread finish: when a read of the thread is
    pending, the closed pipe ends it, and [rt_terminate] posts a stop to
    every instance that is registered, each of them still attached.
    Those are the only requests. *)
Theorem destructor_detaches_nothing this os w w' :
  reachable this w →
  P3DSession_dtor os w = Ok tt w' →
  instances w' = instances w
  ∧ _instances (session w') = _instances (session w)
  ∧ registry_attached this w'
  ∧ _python_state (session w') = _python_state (session w)
  ∧ ∃ evs,
      trace w' = trace w ++ evs
      ∧ downloads evs = []
      ∧ processes_created evs = []
      ∧ pipe_written evs =
          (if bool_decide (_python_state (session w) = PS_running)
           then [exit_document] else [])
      ∧ requests_added evs =
          (if bool_decide (_python_state (session w) = PS_running)
           then if pending_outcome (os_pending_read os) is Some _
                then (λ inst, (inst, {| _instance := inst;
                                        _request_type := P3D_RT_stop |}))
                       <$> (instances_in_order (_instances (session w))).*2
                else []
           else []).
Proof.
  intros Hreach Hdtor.
  pose proof (reachable_registry_attached this w Hreach) as Hatt.
  destruct (reachable_inv this w Hreach) as [Hstate Hinit Hrunning Hqueue _].
  assert (Hgoal : ∀ s' heap evs,
    w' = {| session := s'; instances := instances w; docs := heap;
            trace := trace w ++ evs |} →
    _instances s' = _instances (session w) →
    _python_state s' = _python_state (session w) →
    downloads evs = [] → processes_created evs = [] →
    pipe_written evs =
      (if bool_decide (_python_state (session w) = PS_running)
       then [exit_document] else []) →
    requests_added evs =
      (if bool_decide (_python_state (session w) = PS_running)
       then if pending_outcome (os_pending_read os) is Some _
            then (λ inst, (inst, {| _instance := inst;
                                    _request_type := P3D_RT_stop |}))
                   <$> (instances_in_order (_instances (session w))).*2
            else []
       else []) →
    instances w' = instances w
    ∧ _instances (session w') = _instances (session w)
    ∧ registry_attached this w'
    ∧ _python_state (session w') = _python_state (session w)
    ∧ ∃ evs,
        trace w' = trace w ++ evs
        ∧ downloads evs = []
        ∧ processes_created evs = []
        ∧ pipe_written evs =
            (if bool_decide (_python_state (session w) = PS_running)
             then [exit_document] else [])
        ∧ requests_added evs =
            (if bool_decide (_python_state (session w) = PS_running)
             then if pending_outcome (os_pending_read os) is Some _
                  then (λ inst, (inst, {| _instance := inst;
                                          _request_type := P3D_RT_stop |}))
                         <$> (instances_in_order (_instances (session w))).*2
                  else []
             else [])).
  { intros s' heap evs -> Hreg Hst H1 H2 H3 H4. cbn [session instances trace].
    split_and!; [done|done| |done|by exists evs].
    intros k inst Hk. cbn [session instances] in *. rewrite Hreg in Hk.
    by apply Hatt. }
  destruct Hstate as [Hs|Hs].
  - destruct (Hinit Hs) as (_ & _ & _ & Hst & _).
    rewrite (dtor_not_running os w) in Hdtor by (by first [rewrite Hs|idtac]).
    injection Hdtor as Hw'. symmetry in Hw'.
    apply (Hgoal _ _ _ Hw'); [by destruct (session w)|by destruct (session w)| | | |].
    + by rewrite downloads_app, downloads_deletes.
    + by rewrite processes_created_app, processes_created_deletes.
    + rewrite pipe_written_app, pipe_written_deletes.
      rewrite bool_decide_eq_false_2 by (by rewrite Hs). done.
    + rewrite requests_added_app, requests_added_deletes.
      rewrite bool_decide_eq_false_2 by (by rewrite Hs). done.
  - destruct (Hrunning Hs) as (Hempty & [pi Hpi] & Hst & _).
    destruct (_read_thread (session w)) as [th|] eqn:Hth.
    + rewrite (dtor_running os w pi th Hs Hpi Hst Hth Hqueue) in Hdtor.
      injection Hdtor as Hw'. symmetry in Hw'. rewrite Hempty in Hw'.
      cbn [fmap list_fmap app delete_all foldr] in Hw'.
      match type of Hw' with
      | context [last_events ?pd ?p ?l] =>
          destruct (last_events_requests pd p l) as (Hlr & Hld);
          destruct (last_events_silent pd p l) as (Hlw & Hlp & _)
      end.
      rewrite bool_decide_eq_true_2 in * by done.
      apply (Hgoal _ _ _ Hw'); [by destruct (session w)|by destruct (session w)| | | |];
        unfold downloads, processes_created, pipe_written, requests_added in *;
        destruct (os_wait_timed_out os); cbn -[last_events];
        rewrite omap_app; rewrite ?Hlr, ?Hld, ?Hlw, ?Hlp; cbn; by rewrite ?app_nil_r.
    + by rewrite (dtor_running_no_thread os w pi Hs Hpi Hst Hth Hqueue) in Hdtor.
Qed.

(** * The further theorems at work on the scenario *)

Lemma scenario_running_destructor_returns :
  ∃ w', P3DSession_dtor scenario_os scenario_running = Ok tt w'.
Proof. eexists. vm_compute. reflexivity. Qed.

Lemma scenario_second_may_start :
  may_start scenario_queued 2%positive (scenario_instance 8).
Proof. split_and!; vm_compute; reflexivity. Qed.

Lemma start_instance_contract_witness :
  instances scenario_twin !! 3%positive = Some (scenario_instance 7)
  ∧ start_asserts scenario_twin (scenario_instance 7)
  ∧ is_Some (_instances (session scenario_twin) !! 7)
  ∧ start_instance scenario_this scenario_os 3%positive scenario_twin
      = Abort "assertion failed"
          (start_refused scenario_this 3%positive (scenario_instance 7) scenario_twin)
  ∧ ¬ may_start scenario_twin 3%positive (scenario_instance 7)
  ∧ ¬ ∃ w', start_instance scenario_this scenario_os 3%positive scenario_twin = Ok tt w'.
Proof.
  assert (H1 : instances scenario_twin !! 3%positive = Some (scenario_instance 7))
    by (vm_compute; reflexivity).
  assert (H2 : start_asserts scenario_twin (scenario_instance 7))
    by (split_and!; vm_compute; reflexivity).
  assert (H3 : is_Some (_instances (session scenario_twin) !! 7))
    by (vm_compute; by eexists).
  assert (H4 : ¬ may_start scenario_twin 3%positive (scenario_instance 7)).
  { intros (_ & _ & _ & _ & Hfree). vm_compute in Hfree. discriminate. }
  destruct (start_instance_contract scenario_this scenario_os 3%positive scenario_twin
              (scenario_instance 7) H1) as (_ & _ & Hrefused & Hiff).
  split_and!; [exact H1|exact H2|exact H3|exact (Hrefused H2 H3)|exact H4|].
  intros Hret. apply H4. apply Hiff. exact Hret.
Defined.

Lemma start_then_terminate_witness :
  may_start scenario_queued 2%positive (scenario_instance 8)
  ∧ ∃ w1 w2,
      start_instance scenario_this scenario_os 2%positive scenario_queued = Ok tt w1
      ∧ terminate_instance scenario_this 2%positive w1 = Ok tt w2
      ∧ _instances (session w1) !! 8 = Some 2%positive
      ∧ _instances (session w2) = _instances (session scenario_queued)
      ∧ instances w2 = instances scenario_queued
      ∧ pipe_written (trace w2) = pipe_written (trace scenario_queued).
Proof.
  split; [exact scenario_second_may_start|].
  destruct (start_then_terminate scenario_this scenario_os 2%positive scenario_queued
              (scenario_instance 8) scenario_second_may_start)
    as (w1 & w2 & H1 & H2 & H3 & _ & H5 & H6 & _ & _ & Hq).
  exists w1, w2. destruct Hq as [Hw _]; [vm_compute; discriminate|].
  split_and!; [exact H1|exact H2|exact H3|exact H5|exact H6|exact Hw].
Defined.

Lemma registered_instances_are_attached_witness :
  reachable scenario_this scenario_running
  ∧ _instances (session scenario_running) !! 8 = Some 2%positive
  ∧ ∃ w', terminate_instance scenario_this 2%positive scenario_running = Ok tt w'
          ∧ _instances (session w') = delete 8 (_instances (session scenario_running))
          ∧ (_session <$> instances w' !! 2%positive) = Some None.
Proof.
  assert (H2 : _instances (session scenario_running) !! 8 = Some 2%positive)
    by (vm_compute; reflexivity).
  split; [exact scenario_running_reachable|]. split; [exact H2|].
  destruct (registered_instances_are_attached scenario_this scenario_running
              scenario_running_reachable) as (_ & _ & Hterm).
  destruct (Hterm 8 2%positive H2) as (w' & Hrun & Hreg & Hback & _).
  exists w'. split_and!; [exact Hrun|exact Hreg|exact Hback].
Defined.

Lemma one_process_per_session_witness :
  reachable scenario_this scenario_running
  ∧ spawned (trace scenario_running) = [true]
  ∧ ∃ w', start_p3dpython scenario_os scenario_running = Abort "assertion failed" w'
          ∧ spawned (trace w') = [true; true].
Proof.
  split; [exact scenario_running_reachable|].
  destruct (one_process_per_session scenario_this scenario_running
              scenario_running_reachable) as (Hcount & Hagain).
  split; [rewrite Hcount; vm_compute; reflexivity|].
  destruct (Hagain scenario_os scenario_process) as (w' & Hrun & Hsp & _);
    [vm_compute; reflexivity|reflexivity|].
  exists w'. split; [exact Hrun|exact Hsp].
Defined.

Lemma join_read_thread_idempotent_witness :
  _started_read_thread (session scenario_running) = true
  ∧ _read_thread (session scenario_running) = Some 30%positive
  ∧ (join_read_thread scenario_os;;; join_read_thread scenario_os) scenario_running
      = join_read_thread scenario_os scenario_running
  ∧ ∃ w' evs,
      join_read_thread scenario_os scenario_running = Ok tt w'
      ∧ trace w' =
          trace scenario_running
            ++ [EvCerr ("session waiting for thread" +:+ nl);
                EvPipeReadClose;
                EvSys (WaitForSingleObject 30%positive INFINITE false)]
            ++ evs
            ++ [EvSys (CloseHandle (Some 30%positive));
                EvCerr ("session done waiting for thread" +:+ nl)]
      ∧ stop_requests evs = [1%positive; 2%positive]
      ∧ _started_read_thread (session w') = false
      ∧ _read_thread (session w') = None.
Proof.
  assert (H1 : _started_read_thread (session scenario_running) = true)
    by (vm_compute; reflexivity).
  assert (H2 : _read_thread (session scenario_running) = Some 30%positive)
    by (vm_compute; reflexivity).
  destruct (join_read_thread_idempotent scenario_os scenario_running) as (Hidem & Hjoin).
  split_and!; [exact H1|exact H2|exact Hidem|].
  destruct (Hjoin 30%positive H1 H2)
    as (w' & evs & Hrun & Htrace & _ & _ & Hstops & Hs & _ & Ht & _).
  exists w', evs. split_and!; [exact Hrun|exact Htrace| |exact Hs|exact Ht].
  rewrite Hstops. vm_compute. reflexivity.
Defined.

Lemma reader_frees_what_it_reads_witness :
  _read_thread_continue (session scenario_running) = true
  ∧ ∃ w' evs p,
      rt_thread_run ((ReadDoc <$> [exit_document; empty_document]) ++ ReadEof :: [])
        scenario_running = Ok (ReaderReturned, []) w'
      ∧ echoed evs = [exit_document; empty_document]
      ∧ allocated evs = deleted evs ++ [p]
      ∧ length (deleted evs) = 2%nat
      ∧ docs w' = <[p := empty_document]> (docs scenario_running).
Proof.
  assert (H1 : _read_thread_continue (session scenario_running) = true)
    by (vm_compute; reflexivity).
  split; [exact H1|].
  destruct (reader_frees_what_it_reads scenario_running [exit_document; empty_document]
              ReadEof [] H1 (or_intror eq_refl))
    as (w' & evs & p & Hrun & _ & He & Ha & Hd & _ & Hdocs & _).
  exists w', evs, p. split_and!; [exact Hrun|exact He|exact Ha|exact Hd|exact Hdocs].
Defined.

Lemma start_instance_download_outcomes_witness :
  may_start scenario_queued 2%positive (scenario_instance 8)
  ∧ ∃ w' evs,
      start_instance scenario_this scenario_os 2%positive scenario_queued = Ok tt w'
      ∧ trace w' = trace scenario_queued ++ evs
      ∧ downloads evs =
          [(2%positive, {| dl_url := "http://fewmet/~drose/p3drun.tgz";
                           dl_filename := "temp.tgz" |})]
      ∧ processes_created evs = [].
Proof.
  split; [exact scenario_second_may_start|].
  destruct (start_instance_download_outcomes scenario_this scenario_os 2%positive
              scenario_queued (scenario_instance 8) scenario_second_may_start)
    as (w' & evs & Hrun & Ht & _ & Hp & _ & _ & Hdl & _).
  exists w', evs. destruct Hdl as (Hd & _); [vm_compute; reflexivity|reflexivity|].
  split_and!; [exact Hrun|exact Ht|exact Hd|exact Hp].
Defined.

Lemma pipe_failure_still_runs_witness :
  reachable scenario_this scenario_queued_twice
  ∧ _python_state (session scenario_queued_twice) = PS_init
  ∧ os_create_process scenario_os_no_pipe = Some scenario_process
  ∧ os_pipe_to scenario_os_no_pipe = None
  ∧ ∃ w' evs,
      start_p3dpython scenario_os_no_pipe scenario_queued_twice = Ok tt w'
      ∧ _python_state (session w') = PS_running
      ∧ pipe_written evs =
          [start_instance_document (scenario_instance 7);
           start_instance_document (scenario_instance 8)]
      ∧ deleted evs = [1%positive; 2%positive]
      ∧ _commands (session w') = []
      ∧ ("failed to create pipe" +:+ nl) ∈ cerrs evs.
Proof.
  assert (H2 : _python_state (session scenario_queued_twice) = PS_init)
    by (vm_compute; reflexivity).
  assert (H3 : os_create_process scenario_os_no_pipe = Some scenario_process)
    by reflexivity.
  assert (H4 : os_pipe_to scenario_os_no_pipe = None) by reflexivity.
  split_and!; [exact scenario_queued_twice_reachable|exact H2|exact H3|exact H4|].
  destruct (pipe_failure_still_runs scenario_this scenario_os_no_pipe
              scenario_queued_twice scenario_process
              scenario_queued_twice_reachable H2 H3)
    as (w' & evs & queued & Hrun & _ & Hst & _ & Hq & Hpw & Hdel & Hcmd & _ & Hcerr).
  vm_compute in Hq. injection Hq as <-.
  exists w', evs.
  split_and!; [exact Hrun|exact Hst|exact Hpw|exact Hdel|exact Hcmd|].
  apply Hcerr. left. exact H4.
Defined.


Lemma documents_never_dangle_witness :
  reachable scenario_this scenario_running
  ∧ documents_safe
      (step scenario_this
         (StepController (CallTerminateInstance 9%positive)) scenario_running)
  ∧ ∃ w', P3DSession_dtor scenario_os scenario_running = Ok tt w'.
Proof.
  split; [exact scenario_running_reachable|].
  destruct (documents_never_dangle scenario_this scenario_running
              scenario_running_reachable) as (Hstep & _ & Hdtor).
  split; [apply Hstep|].
  destruct (Hdtor scenario_os) as [Hok|(w' & _ & _ & Hth)]; [exact Hok|].
  vm_compute in Hth. discriminate.
Defined.

Lemma lock_held_across_nothing_witness :
  reachable scenario_this scenario_running
  ∧ well_locked (trace scenario_running) = true.
Proof.
  split; [exact scenario_running_reachable|].
  exact (proj1 (lock_held_across_nothing scenario_this scenario_running
                  scenario_running_reachable)).
Defined.

Lemma commands_arrive_in_call_order_witness :
  reachable scenario_this scenario_fresh
  ∧ _python_state (session scenario_fresh) = PS_init
  ∧ controller_calls scenario_this
      [CallStartInstance scenario_os 1%positive; CallStartInstance scenario_os 2%positive]
      scenario_fresh = Ok tt scenario_queued_twice
  ∧ os_create_process scenario_os = Some scenario_process
  ∧ ∃ w2,
      start_p3dpython scenario_os scenario_queued_twice = Ok tt w2
      ∧ pipe_written (trace w2) =
          [start_instance_document (scenario_instance 7);
           start_instance_document (scenario_instance 8)]
      ∧ ∀ w3,
          controller_calls scenario_this [CallTerminateInstance 1%positive] w2 = Ok tt w3 →
          pipe_written (trace w3) =
            [start_instance_document (scenario_instance 7);
             start_instance_document (scenario_instance 8);
             terminate_instance_document (scenario_instance 7)].
Proof.
  assert (H2 : _python_state (session scenario_fresh) = PS_init) by reflexivity.
  assert (H3 : Forall is_instance_call
                 [CallStartInstance scenario_os 1%positive;
                  CallStartInstance scenario_os 2%positive])
    by (by repeat constructor).
  assert (H4 : Forall is_instance_call [CallTerminateInstance 1%positive])
    by (by repeat constructor).
  assert (H5 : controller_calls scenario_this
                 [CallStartInstance scenario_os 1%positive;
                  CallStartInstance scenario_os 2%positive]
                 scenario_fresh = Ok tt scenario_queued_twice)
    by (vm_compute; reflexivity).
  assert (H6 : os_create_process scenario_os = Some scenario_process) by reflexivity.
  split_and!; [exact scenario_fresh_reachable|exact H2|exact H5|exact H6|].
  destruct (commands_arrive_in_call_order scenario_this scenario_os scenario_fresh
              _ [CallTerminateInstance 1%positive] scenario_queued_twice scenario_process
              scenario_fresh_reachable H2 H3 H4 H5 H6)
    as (w2 & queued & ds1 & Hqueued & Hds1 & _ & Hspawn & Hw2 & Hafter).
  vm_compute in Hqueued. injection Hqueued as <-.
  vm_compute in Hds1. injection Hds1 as <-.
  exists w2. split_and!; [exact Hspawn|exact Hw2|].
  intros w3 Hrun. destruct (Hafter w3 Hrun) as (ds2 & Hds2 & Hw3).
  vm_compute in Hds2. injection Hds2 as <-. exact Hw3.
Defined.

Lemma destructor_detaches_nothing_witness :
  reachable scenario_this scenario_running
  ∧ ∃ w' evs,
      P3DSession_dtor scenario_os scenario_running = Ok tt w'
      ∧ _instances (session w') = _instances (session scenario_running)
      ∧ registry_attached scenario_this w'
      ∧ trace w' = trace scenario_running ++ evs
      ∧ pipe_written evs = [exit_document]
      ∧ requests_added evs =
          [(1%positive, {| _instance := 1%positive; _request_type := P3D_RT_stop |});
           (2%positive, {| _instance := 2%positive; _request_type := P3D_RT_stop |})].
Proof.
  split; [exact scenario_running_reachable|].
  destruct scenario_running_destructor_returns as [w' Hrun].
  destruct (destructor_detaches_nothing scenario_this scenario_os scenario_running w'
              scenario_running_reachable Hrun)
    as (_ & Hreg & Hatt & _ & evs & Ht & _ & _ & Hpw & Hreq).
  exists w', evs.
  split_and!; [exact Hrun|exact Hreg|exact Hatt|exact Ht| |].
  - rewrite Hpw. vm_compute. reflexivity.
  - rewrite Hreq. vm_compute. reflexivity.
Defined.
